(** * go_chat_client: the connection / session protocol layer

    A shallow embedding of the Go packages [connection], [chat] and
    [util/stdin] and of the start-up wiring of [main], followed by the
    properties proved about them.

    Conventions.
    - A Go [string] is a byte sequence: Rocq's [string] (a list of 8-bit
      [ascii]); [len(s)] is [String.length s].
    - A Go [error] is [option error]: [None] is [nil].
    - Code that performs effects is written in the monad [M]: it threads
      the program state, appends to an event log and may fail to return
      (a goroutine parked on a channel, a run-time panic).
    - What the environment decides (dial outcomes, frames read from the
      socket, lines read from standard input) is a script held in the
      state or passed to the loop that consumes it. *)

From stdpp Require Import base option list strings gmap sorting.
From Stdlib Require Import ZArith Ascii DecimalString.

(** ** Values decoded from JSON

    [encoding/json] decodes a JSON number into [float64].  Every number of
    this protocol is a small integer, which [float64] holds exactly:
    [Fint z].  [Fother] stands for any other [float64]; the code only ever
    compares a [float64] with an integral constant, and no [Fother] equals
    one. *)
Inductive float64 : Type :=
| Fint (z : Z)
| Fother (tag : N).

#[global] Instance float64_eq_dec : EqDecision float64.
Proof. solve_decision. Defined.

(** The dynamic values of Go's [any] after decoding JSON. *)
#[warnings="-register-all"]
Inductive JVal : Type :=
| JNull
| JBool (b : bool)
| JNum (f : float64)
| JStr (s : string)
| JArr (vs : list JVal)
| JObj (m : gmap string JVal).

(** [map[string]any]; the nil map is [∅]. *)
Abbreviation Envelope := (gmap string JVal).

(** [v == c] for [v] of type [any] and [c] a [float64]: the dynamic type
    must be [float64] and the values equal. *)
Definition any_eq_float64 (v : option JVal) (c : float64) : bool :=
  match v with
  | Some (JNum f) => bool_decide (f = c)
  | _ => false
  end.

(** ** Errors *)
Inductive error : Type :=
| CloseError (code : Z) (text : string)
| NetError (text : string)
| ErrorString (text : string)
| WithMessage (cause : error) (msg : string).

(** [errors.As(err, &closeErr)] with [closeErr *websocket.CloseError]: some
    error of the chain is a close error. *)
Fixpoint As_CloseError (e : error) : bool :=
  match e with
  | CloseError _ _ => true
  | WithMessage c _ => As_CloseError c
  | _ => false
  end.

(** [errors.As(err, &netErr)] with [netErr net.Error]. *)
Fixpoint As_netError (e : error) : bool :=
  match e with
  | NetError _ => true
  | WithMessage c _ => As_netError c
  | _ => false
  end.

(** [errors.Wrap(err, msg)]: nil stays nil. *)
Definition errors_Wrap (err : option error) (msg : string) : option error :=
  match err with
  | Some e => Some (WithMessage e msg)
  | None => None
  end.

(** The cause at the bottom of a chain of wraps. *)
Fixpoint errors_Cause (e : error) : error :=
  match e with
  | WithMessage c _ => errors_Cause c
  | _ => e
  end.

(** ** Channels

    The state of a Go channel as the sending goroutine sees it: its
    capacity, the values buffered, and the receivers ready on it (goroutines
    that were started to receive from this channel and do nothing else
    first), oldest first.  [R] names a receiver. *)
Record chan (A R : Type) : Type := Chan {
  chan_cap : nat;
  chan_buf : list A;
  chan_recvq : list R
}.
Arguments Chan {A R} _ _ _.
Arguments chan_cap {A R} _.
Arguments chan_buf {A R} _.
Arguments chan_recvq {A R} _.

(** [make(chan A)] and [make(chan A, n)]. *)
Definition make_chan {A R} (n : nat) : chan A R := Chan n [] [].

(** The outcome of [ch <- v] for the sender. *)
Inductive send_result (A R : Type) : Type :=
| SendToReceiver (r : R) (ch : chan A R)
| SendBuffered (ch : chan A R)
| SendBlocks
| SendBlocksForever.
Arguments SendToReceiver {A R} _ _.
Arguments SendBuffered {A R} _.
Arguments SendBlocks {A R}.
Arguments SendBlocksForever {A R}.

(** The send statement (the Go specification, "Send statements"; the
    run-time's [chansend]): a send on a nil channel blocks forever; a
    ready receiver takes the value directly; otherwise the value is
    buffered if there is room; otherwise the sender blocks until a
    receiver arrives.  An unbuffered channel has no room. *)
Definition chansend {A R} (c : option (chan A R)) (v : A) : send_result A R :=
  match c with
  | None => SendBlocksForever
  | Some ch =>
      match chan_recvq ch with
      | r :: q => SendToReceiver r (Chan (chan_cap ch) (chan_buf ch) q)
      | [] =>
          if decide (length (chan_buf ch) < chan_cap ch)
          then SendBuffered (Chan (chan_cap ch) (chan_buf ch ++ [v]) [])
          else SendBlocks
      end
  end.

(** A goroutine arrives at [<-ch] and finds nothing to take. *)
Definition chan_park {A R} (r : R) (ch : chan A R) : chan A R :=
  Chan (chan_cap ch) (chan_buf ch) (chan_recvq ch ++ [r]).

(** [lo.IsEmpty(v)]: [v] equals the zero value of its (comparable) type. *)
Definition lo_IsEmpty {T} `{EqDecision T} (zero v : T) : bool :=
  bool_decide (v = zero).

(** Go pointers, as far as they are compared: nil or the address of a
    variable. *)
Inductive pointer : Type :=
| nil_pointer
| addr_of (variable : string).

#[global] Instance pointer_eq_dec : EqDecision pointer.
Proof. solve_decision. Defined.

(** ** package websocket

    [*websocket.Conn] as the client uses it.  [writeErr] is the
    connection's sticky write error: it is set once the connection has
    been closed or a write has failed, and from then on every write
    returns it. *)
Record WsConn : Type := {
  connId : nat;
  writeErr : option error
}.

(** What [websocket.DefaultDialer.Dial] returns. *)
Inductive DialResult : Type :=
| DialOk (c : WsConn)
| DialErr (e : error).

(** What one [ReadJSON(&resp)] returns: the decoded frame, or an error. *)
Inductive ReadResult : Type :=
| ReadOk (resp : Envelope)
| ReadErr (e : error).

(** ** package chat: the wire messages *)
Record loginReq : Type := {
  loginReq_Type : float64;
  loginReq_Nickname : string
}.

Record loginResp : Type := {
  loginResp_Type : float64;
  loginResp_Token : string;
  loginResp_Status : float64
}.

Record postMsgReq : Type := {
  postMsgReq_Type : float64;
  postMsgReq_Token : string;
  postMsgReq_Msg : string
}.

Record postMsgResp : Type := {
  postMsgResp_Type : float64;
  postMsgResp_Status : float64
}.

Record chatMsgToClient : Type := {
  chatMsgToClient_Type : float64;
  chatMsgToClient_Nickname : string;
  chatMsgToClient_Msg : string;
  chatMsgToClient_IsSystem : bool
}.

Record onlineUsersReq : Type := {
  onlineUsersReq_Type : float64;
  onlineUsersReq_Token : string
}.

Record onlineUsers : Type := {
  onlineUsers_Type : float64;
  onlineUsers_Status : float64;
  onlineUsers_Users : list string
}.

(** [iota + 1] over the seven constants of each block. *)
Definition typeLoginReq : float64 := Fint 1.
Definition typeLoginResp : float64 := Fint 2.
Definition typePostMessageReq : float64 := Fint 3.
Definition typePostMessageResp : float64 := Fint 4.
Definition typeChatMessageToClient : float64 := Fint 5.
Definition typeOnlineUsersReq : float64 := Fint 6.
Definition typeOnlineUsers : float64 := Fint 7.

Definition statusOk : float64 := Fint 1.
Definition statusInvalidToken : float64 := Fint 2.
Definition statusNameAlreadyTaken : float64 := Fint 3.
Definition statusNameIsEmpty : float64 := Fint 4.
Definition statusNameIsTooLong : float64 := Fint 5.
Definition statusMessageIsEmpty : float64 := Fint 6.
Definition statusMessageIsTooLong : float64 := Fint 7.

(** The values the program passes to [WriteJSON(req any)]. *)
Inductive request : Type :=
| ReqLogin (r : loginReq)
| ReqPostMsg (r : postMsgReq)
| ReqOnlineUsers (r : onlineUsersReq).

(** ** Goroutines of the program *)
Inductive goroutine : Type :=
| MainGoroutine             (* func main *)
| ListenGoroutine           (* go func() { connHandler.Listen() } *)
| TokenReceiver             (* go func() { h.token = <-h.tokenCh } *)
| DrawGoroutine             (* go func() { chatUI.Draw() } *)
| UpdateOnlineBoxGoroutine. (* go chatUI.UpdateOnlineBox() *)

#[global] Instance goroutine_eq_dec : EqDecision goroutine.
Proof. solve_decision. Defined.

(** ** package ui, package config *)

(** [ui.Chat], the fields the session layer touches.  [Gui] is nil in the
    zero value; of a GUI only whether it has the chat box view is kept. *)
Record Chat : Type := {
  Gui : option bool;
  OnlineUsersCh : option (chan (list string) goroutine)
}.

(** The zero value [ui.Chat{}]. *)
Definition Chat_zero : Chat := {| Gui := None; OnlineUsersCh := None |}.

Record Config : Type := {
  ServerAddress : string;
  TLSMode : option bool;
  Nickname : string
}.

(** ** package connection, package chat: the handlers *)
Record URL : Type := {
  Scheme : string;
  Host : string;
  Path : string
}.

(** [connection.Handler].  [RL] and [DL] are the function values stored in
    the two registries ([func(map[string]any)] and [func(error)]); what a
    call of one does is given by the interpretation passed to [Listen]. *)
Record conn_Handler (RL DL : Type) : Type := {
  conn : option WsConn;
  url : URL;
  onResponse : list RL;
  onDisconnect : list DL
}.
Arguments conn {RL DL} _.
Arguments url {RL DL} _.
Arguments onResponse {RL DL} _.
Arguments onDisconnect {RL DL} _.

(** [chat.Handler].  Its [log], [cfg] and [conn] fields are pointers to the
    logger, the configuration and the connection handler that the whole
    program shares; they are the components of [State] below. *)
Record chat_Handler : Type := {
  ChatUI : Chat;
  tokenCh : chan string goroutine;
  token : string
}.

(** ** Observable events *)
Inductive Level : Type := InfoLevel | WarnLevel | ErrorLevel | FatalLevel.

Inductive LogArg : Type :=
| LStr (s : string)
| LErr (e : error)
| LNum (f : float64).

Inductive event (RL DL : Type) : Type :=
| EvLog (lvl : Level) (args : list LogArg)
| EvSleep (seconds : Z)
| EvDial (u : URL) (r : DialResult)
| EvWriteJSON (c : WsConn) (req : request) (r : option error)
| EvReadJSON (c : WsConn) (r : ReadResult)
| EvRespListener (l : RL) (resp : Envelope)
| EvDisconnectListener (l : DL) (err : error)
| EvAddOnRespListener (l : RL)
| EvAddOnDisconnectListener (l : DL)
| EvOnlineUsers (users : list string)
| EvToken (g : goroutine) (tok : string)
| EvGo (g : goroutine)
| EvPrint (s : string)
| EvPrintToChatBox (nickname msg : string) (isSystem : bool).
Arguments EvLog {RL DL} _ _.
Arguments EvSleep {RL DL} _.
Arguments EvDial {RL DL} _ _.
Arguments EvWriteJSON {RL DL} _ _ _.
Arguments EvReadJSON {RL DL} _ _.
Arguments EvRespListener {RL DL} _ _.
Arguments EvDisconnectListener {RL DL} _ _.
Arguments EvAddOnRespListener {RL DL} _.
Arguments EvAddOnDisconnectListener {RL DL} _.
Arguments EvOnlineUsers {RL DL} _.
Arguments EvToken {RL DL} _ _.
Arguments EvGo {RL DL} _.
Arguments EvPrint {RL DL} _.
Arguments EvPrintToChatBox {RL DL} _ _ _.

(** ** The program state *)
Record State (RL DL : Type) : Type := MkState {
  connH : conn_Handler RL DL;
  chatH : chat_Handler;
  cfg : Config;
  dialQ : list DialResult;
  stdinQ : list (string * option error)
}.
Arguments MkState {RL DL} _ _ _ _ _.
Arguments connH {RL DL} _.
Arguments chatH {RL DL} _.
Arguments cfg {RL DL} _.
Arguments dialQ {RL DL} _.
Arguments stdinQ {RL DL} _.

(** Why a goroutine does not get past a statement. *)
Inductive blocked_on : Type :=
| OnNilChannel    (* send on a nil channel: for ever *)
| OnSend          (* send with no receiver ready and no room *)
| OnDial          (* the dial script is used up *)
| OnStdin         (* the standard-input script is used up *)
| OnRead.         (* the read script is used up *)

Inductive res (S A : Type) : Type :=
| Ret (a : A) (st : S)
| Blocked (why : blocked_on) (st : S)
| Panicked (msg : string) (st : S).
Arguments Ret {S A} _ _.
Arguments Blocked {S A} _ _.
Arguments Panicked {S A} _ _.

(** A computation: from a state to the events it emits and its result. *)
Definition M (RL DL : Type) (A : Type) : Type :=
  State RL DL → list (event RL DL) * res (State RL DL) A.

Section Monad.
Context {RL DL : Type}.

Definition ret {A} (a : A) : M RL DL A := λ st, ([], Ret a st).

Definition bind {A B} (m : M RL DL A) (k : A → M RL DL B) : M RL DL B :=
  λ st,
    match m st with
    | (evs, Ret a st') => let '(evs', r) := k a st' in (evs ++ evs', r)
    | (evs, Blocked why st') => (evs, Blocked why st')
    | (evs, Panicked msg st') => (evs, Panicked msg st')
    end.

Definition get : M RL DL (State RL DL) := λ st, ([], Ret st st).
Definition modify (f : State RL DL → State RL DL) : M RL DL unit :=
  λ st, ([], Ret () (f st)).
Definition emit (e : event RL DL) : M RL DL unit := λ st, ([e], Ret () st).
Definition park {A} (why : blocked_on) : M RL DL A := λ st, ([], Blocked why st).
Definition panic {A} (msg : string) : M RL DL A := λ st, ([], Panicked msg st).

Definition set_connH (h : conn_Handler RL DL) (st : State RL DL) : State RL DL :=
  MkState h (chatH st) (cfg st) (dialQ st) (stdinQ st).
Definition set_chatH (h : chat_Handler) (st : State RL DL) : State RL DL :=
  MkState (connH st) h (cfg st) (dialQ st) (stdinQ st).
Definition set_cfg (c : Config) (st : State RL DL) : State RL DL :=
  MkState (connH st) (chatH st) c (dialQ st) (stdinQ st).
Definition set_dialQ (q : list DialResult) (st : State RL DL) : State RL DL :=
  MkState (connH st) (chatH st) (cfg st) q (stdinQ st).
Definition set_stdinQ (q : list (string * option error)) (st : State RL DL)
  : State RL DL :=
  MkState (connH st) (chatH st) (cfg st) (dialQ st) q.

(** [h.log.Info(...)], [h.log.Warn(...)], [h.log.Error(...)]. *)
Definition log (lvl : Level) (args : list LogArg) : M RL DL unit :=
  emit (EvLog lvl args).

(** [time.Sleep(time.Second * n)]. *)
Definition time_Sleep (seconds : Z) : M RL DL unit := emit (EvSleep seconds).

(** The events and the result of a run. *)
Definition events_of {A} (out : list (event RL DL) * res (State RL DL) A)
  : list (event RL DL) := out.1.
Definition result_of {A} (out : list (event RL DL) * res (State RL DL) A)
  : res (State RL DL) A := out.2.

End Monad.

#[global] Instance M_ret {RL DL} : MRet (M RL DL) := @ret RL DL.
#[global] Instance M_bind {RL DL} : MBind (M RL DL) := λ A B k m, bind m k.

(** ** package connection *)
Module connection.
Section connection.
Context {RL DL : Type}.
Local Abbreviation M := (M RL DL).

(** [NewHandler(log, tls, addr)]. *)
Definition NewHandler (tls : bool) (addr : string) : conn_Handler RL DL :=
  {| conn := None;
     url := {| Scheme := if tls then "wss" else "ws"; Host := addr; Path := "/chat" |};
     onResponse := [];
     onDisconnect := [] |}.

Definition set_conn (c : WsConn) (h : conn_Handler RL DL) : conn_Handler RL DL :=
  {| conn := Some c; url := url h;
     onResponse := onResponse h; onDisconnect := onDisconnect h |}.

(** [Connect]: dial until a dial succeeds; each failure is logged and
    followed by a sleep of five seconds.  The loop consumes the dial
    script; when the script ends before a success the goroutine is still
    in the loop. *)
Fixpoint Connect_loop (script : list DialResult) : M unit :=
  match script with
  | [] => park OnDial
  | r :: script' =>
      st ← get;
      modify (set_dialQ script');;
      emit (EvDial (url (connH st)) r);;
      match r with
      | DialOk c =>
          modify (λ st, set_connH (set_conn c (connH st)) st);;
          log InfoLevel [LStr "Connected to "; LStr (Host (url (connH st)))]
      | DialErr e =>
          log ErrorLevel [LErr (WithMessage e "Connect to server");
                          LStr " Retrying in 5 seconds."];;
          time_Sleep 5;;
          Connect_loop script'
      end
  end.

Definition Connect : M unit :=
  st ← get; Connect_loop (dialQ st).

(** [AddOnDisconnectListener(l)]: [h.onDisconnect = append(h.onDisconnect, l)].
    The event is a marker of the call. *)
Definition AddOnDisconnectListener (l : DL) : M unit :=
  emit (EvAddOnDisconnectListener l);;
  modify (λ st,
    let h := connH st in
    set_connH {| conn := conn h; url := url h; onResponse := onResponse h;
                 onDisconnect := onDisconnect h ++ [l] |} st).

(** [AddOnRespListener(l)]: [h.onResponse = append(h.onResponse, l)]. *)
Definition AddOnRespListener (l : RL) : M unit :=
  emit (EvAddOnRespListener l);;
  modify (λ st,
    let h := connH st in
    set_connH {| conn := conn h; url := url h; onResponse := onResponse h ++ [l];
                 onDisconnect := onDisconnect h |} st).

(** [WriteJSON] of [websocket.Conn]: one attempt to write one frame; a
    connection that is not open answers with its write error. *)
Definition ws_WriteJSON (c : WsConn) (req : request) : M (option error) :=
  emit (EvWriteJSON c req (writeErr c));;
  mret (writeErr c).

(** [WriteJSON(req)]: [return h.conn.WriteJSON(req)].  With [h.conn] nil
    the method dereferences a nil pointer. *)
Definition WriteJSON (req : request) : M (option error) :=
  st ← get;
  match conn (connH st) with
  | None => panic "invalid memory address or nil pointer dereference"
  | Some c => ws_WriteJSON c req
  end.

(** *** Listen *)
Section Listen.
(** What calling a registered function value does. *)
Variable call_resp : RL → Envelope → M unit.
Variable call_disc : DL → error → M unit.

(** [for _, listener := range h.onDisconnect { listener(err) }]: the slice
    is evaluated once, before the first call.  The event marks the call. *)
Fixpoint range_onDisconnect (ls : list DL) (err : error) : M unit :=
  match ls with
  | [] => mret ()
  | listener :: ls' =>
      emit (EvDisconnectListener listener err);;
      call_disc listener err;;
      range_onDisconnect ls' err
  end.

(** [for _, listener := range h.onResponse { listener(resp) }]. *)
Fixpoint range_onResponse (ls : list RL) (resp : Envelope) : M unit :=
  match ls with
  | [] => mret ()
  | listener :: ls' =>
      emit (EvRespListener listener resp);;
      call_resp listener resp;;
      range_onResponse ls' resp
  end.

(** One iteration of the [for] loop of [Listen], [r] being what
    [h.conn.ReadJSON(&resp)] returns: [Some err] when the iteration executes
    [return err], [None] when it reaches the end of the body or
    [continue]. *)
Definition Listen_iteration (r : ReadResult) : M (option error) :=
  st ← get;
  match conn (connH st) with
  | None => panic "invalid memory address or nil pointer dereference"
  | Some c =>
      emit (EvReadJSON c r);;
      match r with
      | ReadErr err =>
          if As_CloseError err || As_netError err then
            range_onDisconnect (onDisconnect (connH st)) err;;
            mret None
          else
            mret (errors_Wrap (Some err) "Read JSON from connection")
      | ReadOk resp =>
          range_onResponse (onResponse (connH st)) resp;;
          mret None
      end
  end.

(** [Listen]: the loop over the frames and errors the socket delivers. *)
Fixpoint Listen (reads : list ReadResult) : M error :=
  match reads with
  | [] => park OnRead
  | r :: reads' =>
      v ← Listen_iteration r;
      match v with
      | Some err => mret err
      | None => Listen reads'
      end
  end.

End Listen.
End connection.
End connection.

(** ** Library functions the model does not look into

    [strings.TrimSpace], and [mapstructure.Decode(resp, &r)] at each of the
    four response structs: the result is the filled struct or the error. *)
Inductive decoded (T : Type) : Type :=
| DecodeOk (r : T)
| DecodeErr (e : error).
Arguments DecodeOk {T} _.
Arguments DecodeErr {T} _.

Class Libraries : Type := {
  strings_TrimSpace : string → string;
  Decode_loginResp : Envelope → decoded loginResp;
  Decode_postMsgResp : Envelope → decoded postMsgResp;
  Decode_chatMsgToClient : Envelope → decoded chatMsgToClient;
  Decode_onlineUsers : Envelope → decoded onlineUsers
}.

(** ** package stdin *)
Module stdin.
Section stdin.
Context `{Libraries} {RL DL : Type}.
Local Abbreviation M := (M RL DL).

(** [ask]: each turn prints the prompt and reads one line; [script] holds
    what the successive [reader.ReadString('\n')] calls return. *)
Fixpoint ask_loop (script : list (string * option error)) (trim : bool)
    (prompt : string) (callback : string → M bool) : M string :=
  match script with
  | [] => emit (EvPrint prompt);; park OnStdin
  | (line, err) :: script' =>
      emit (EvPrint prompt);;
      modify (set_stdinQ script');;
      let input := if trim then strings_TrimSpace line else line in
      again ← callback input;
      if again : bool then ask_loop script' trim prompt callback
      else
        match err with
        | None => mret input
        | Some e =>
            log ErrorLevel [LErr (WithMessage e "Read from standard input")];;
            ask_loop script' trim prompt callback
        end
  end.

Definition ask (trim : bool) (prompt : string) (callback : string → M bool)
  : M string :=
  st ← get; ask_loop (stdinQ st) trim prompt callback.

(** The callback of [AskNickname]: true asks again. *)
Definition AskNickname_callback (input : string) : M bool :=
  if decide (input = "") then mret true
  else
    let maxSymbols := 20 in
    if decide (maxSymbols < String.length input) then
      log WarnLevel [LStr "Nicknames with length > 20 symbols are not allowed"];;
      mret true
    else mret false.

Definition AskNickname : M string :=
  ask true "Enter your nickname: " AskNickname_callback.

End stdin.
End stdin.

(** ** package ui *)
Module ui.
Section ui.
Context {RL DL : Type}.
Local Abbreviation M := (M RL DL).

(** [PrintToChatBox]: an error when the chat box view does not exist yet. *)
Definition PrintToChatBox (c : Chat) (nickname msg : string) (isSystem : bool)
  : M (option error) :=
  match Gui c with
  | None => panic "invalid memory address or nil pointer dereference"
  | Some hasView =>
      if hasView : bool then
        emit (EvPrintToChatBox nickname msg isSystem);; mret None
      else mret (Some (WithMessage (ErrorString "unknown view") "Get view chat_box"))
  end.

End ui.
End ui.

(** ** package chat *)
Module chat.
Section chat.
Context `{Libraries} {RL DL : Type}.
Local Abbreviation M := (M RL DL).

(** [NewHandler(log, cfg, conn)]: [tokenCh: make(chan string)], every other
    field of its own the zero value. *)
Definition NewHandler : chat_Handler :=
  {| ChatUI := Chat_zero; tokenCh := make_chan 0; token := "" |}.

Definition set_token (t : string) (h : chat_Handler) : chat_Handler :=
  {| ChatUI := ChatUI h; tokenCh := tokenCh h; token := t |}.
Definition set_tokenCh (c : chan string goroutine) (h : chat_Handler) : chat_Handler :=
  {| ChatUI := ChatUI h; tokenCh := c; token := token h |}.
Definition set_ChatUI (c : Chat) (h : chat_Handler) : chat_Handler :=
  {| ChatUI := c; tokenCh := tokenCh h; token := token h |}.
Definition set_OnlineUsersCh (c : chan (list string) goroutine) (u : Chat) : Chat :=
  {| Gui := Gui u; OnlineUsersCh := Some c |}.
Definition set_Nickname (n : string) (c : Config) : Config :=
  {| ServerAddress := ServerAddress c; TLSMode := TLSMode c; Nickname := n |}.

(** [h.ChatUI.OnlineUsersCh <- users].  The receiver, [UpdateOnlineBox],
    hands the list to the GUI and comes back to receive. *)
Definition send_OnlineUsersCh (users : list string) : M unit :=
  st ← get;
  match chansend (OnlineUsersCh (ChatUI (chatH st))) users with
  | SendToReceiver r ch =>
      modify (λ st,
        set_chatH (set_ChatUI (set_OnlineUsersCh (chan_park r ch)
                                 (ChatUI (chatH st))) (chatH st)) st);;
      emit (EvOnlineUsers users)
  | SendBuffered ch =>
      modify (λ st,
        set_chatH (set_ChatUI (set_OnlineUsersCh ch (ChatUI (chatH st)))
                     (chatH st)) st)
  | SendBlocks => park OnSend
  | SendBlocksForever => park OnNilChannel
  end.

(** [h.tokenCh <- tok].  Every receiver of this channel executes
    [h.token = <-h.tokenCh]: the value it takes becomes the token. *)
Definition send_tokenCh (tok : string) : M unit :=
  st ← get;
  match chansend (Some (tokenCh (chatH st))) tok with
  | SendToReceiver r ch =>
      modify (λ st, set_chatH (set_token tok (set_tokenCh ch (chatH st))) st);;
      emit (EvToken r tok)
  | SendBuffered ch =>
      modify (λ st, set_chatH (set_tokenCh ch (chatH st)) st)
  | SendBlocks => park OnSend
  | SendBlocksForever => park OnNilChannel
  end.

(** Goroutine [g] reaches [h.token = <-h.tokenCh]: it takes a buffered
    value if there is one, and waits on the channel otherwise. *)
Definition recv_tokenCh (g : goroutine) : M unit :=
  st ← get;
  let ch := tokenCh (chatH st) in
  match chan_buf ch with
  | tok :: buf =>
      modify (λ st,
        set_chatH (set_token tok
          (set_tokenCh (Chan (chan_cap ch) buf (chan_recvq ch)) (chatH st))) st);;
      emit (EvToken g tok)
  | [] =>
      modify (λ st, set_chatH (set_tokenCh (chan_park g ch) (chatH st)) st)
  end.

(** [login]. *)
Definition login : M (option error) :=
  st ← get;
  err ← connection.WriteJSON
          (ReqLogin {| loginReq_Type := typeLoginReq;
                       loginReq_Nickname := Nickname (cfg st) |});
  mret (errors_Wrap err "Send login request").

(** [if err := h.login(); err != nil { h.log.Error(err) }]. *)
Definition login_and_log : M unit :=
  err ← login;
  match err with
  | Some e => log ErrorLevel [LErr e]
  | None => mret ()
  end.

(** The function registered by [HandleOnDisconnect]. *)
Definition onDisconnect_fn (err : error) : M unit :=
  log ErrorLevel [LErr (WithMessage err "Lost connection to server");
                  LStr " Retrying in 5 seconds."];;
  (if negb (lo_IsEmpty nil_pointer (addr_of "h.ChatUI"))
   then send_OnlineUsersCh []
   else mret ());;
  time_Sleep 5;;
  connection.Connect;;
  login_and_log;;
  emit (EvGo TokenReceiver);;
  recv_tokenCh TokenReceiver.

(** The function registered by [HandleLoginResponse]. *)
Definition loginResponse_fn (resp : Envelope) : M unit :=
  if negb (any_eq_float64 (resp !! "type") typeLoginResp) then mret ()
  else
    match Decode_loginResp resp with
    | DecodeErr err =>
        log ErrorLevel [LErr (WithMessage err "Decode login status response")]
    | DecodeOk r =>
        if decide (loginResp_Status r = statusOk) then
          log InfoLevel [LStr "Login successful"];;
          send_tokenCh (loginResp_Token r)
        else if decide (loginResp_Status r = statusNameAlreadyTaken) then
          log WarnLevel [LStr "Name is already taken"];;
          nickname ← stdin.AskNickname;
          modify (λ st, set_cfg (set_Nickname nickname (cfg st)) st);;
          login_and_log
        else
          log ErrorLevel [LStr "Login failed, status: "; LNum (loginResp_Status r)]
    end.

(** [PostMessage(msg)]. *)
Definition PostMessage (msg : string) : M unit :=
  st ← get;
  err ← connection.WriteJSON
          (ReqPostMsg {| postMsgReq_Type := typePostMessageReq;
                         postMsgReq_Token := token (chatH st);
                         postMsgReq_Msg := msg |});
  match err with
  | Some e => log ErrorLevel [LErr (WithMessage e "Send post message request")]
  | None => mret ()
  end.

(** [RequestOnlineUsers()]. *)
Definition RequestOnlineUsers : M unit :=
  st ← get;
  err ← connection.WriteJSON
          (ReqOnlineUsers {| onlineUsersReq_Type := typeOnlineUsersReq;
                             onlineUsersReq_Token := token (chatH st) |});
  match err with
  | Some e => log ErrorLevel [LErr (WithMessage e "Send online users request")]
  | None => mret ()
  end.

(** The function registered by [HandleChatMsgToClient]. *)
Definition chatMsgToClient_fn (resp : Envelope) : M unit :=
  if negb (any_eq_float64 (resp !! "type") typeChatMessageToClient) then mret ()
  else
    match Decode_chatMsgToClient resp with
    | DecodeErr err =>
        log ErrorLevel [LErr (WithMessage err "Decode chat message to client")]
    | DecodeOk r =>
        st ← get;
        err ← ui.PrintToChatBox (ChatUI (chatH st)) (chatMsgToClient_Nickname r)
                (chatMsgToClient_Msg r) (chatMsgToClient_IsSystem r);
        match err with
        | Some e => log ErrorLevel [LErr e]
        | None => mret ()
        end
    end.

(** The function registered by [HandlePostMessageResponse]. *)
Definition postMessageResponse_fn (resp : Envelope) : M unit :=
  if negb (any_eq_float64 (resp !! "type") typePostMessageResp) then mret ()
  else
    match Decode_postMsgResp resp with
    | DecodeErr err =>
        log ErrorLevel [LErr (WithMessage err "Decode post message status response")]
    | DecodeOk r =>
        if decide (postMsgResp_Status r ≠ statusOk) then
          log ErrorLevel [LStr "Post message failed, status: ";
                          LNum (postMsgResp_Status r)]
        else mret ()
    end.

(** The function registered by [HandleOnlineUsers]. *)
Definition onlineUsers_fn (resp : Envelope) : M unit :=
  if negb (any_eq_float64 (resp !! "type") typeOnlineUsers) then mret ()
  else
    match Decode_onlineUsers resp with
    | DecodeErr err =>
        log ErrorLevel [LErr (WithMessage err "Decode online users response")]
    | DecodeOk r =>
        if decide (onlineUsers_Status r = statusOk) then
          send_OnlineUsersCh (onlineUsers_Users r)
        else
          log ErrorLevel [LStr "Get online users failed, status: ";
                          LNum (onlineUsers_Status r)]
    end.

End chat.

(** The function values the program registers. *)
Inductive RespListener : Type :=
| LoginResponseFn
| ChatMsgToClientFn
| PostMessageResponseFn
| OnlineUsersFn.

Inductive DisconnectListener : Type :=
| OnDisconnectFn.

#[global] Instance RespListener_eq_dec : EqDecision RespListener.
Proof. solve_decision. Defined.
#[global] Instance DisconnectListener_eq_dec : EqDecision DisconnectListener.
Proof. solve_decision. Defined.

Section registration.
Context `{Libraries}.
Local Abbreviation M := (M RespListener DisconnectListener).

Definition call_resp (l : RespListener) (resp : Envelope) : M unit :=
  match l with
  | LoginResponseFn => loginResponse_fn resp
  | ChatMsgToClientFn => chatMsgToClient_fn resp
  | PostMessageResponseFn => postMessageResponse_fn resp
  | OnlineUsersFn => onlineUsers_fn resp
  end.

Definition call_disc (l : DisconnectListener) (err : error) : M unit :=
  match l with
  | OnDisconnectFn => onDisconnect_fn err
  end.

Definition HandleOnDisconnect : M unit :=
  connection.AddOnDisconnectListener OnDisconnectFn.
Definition HandleLoginResponse : M unit :=
  connection.AddOnRespListener LoginResponseFn.
Definition HandleChatMsgToClient : M unit :=
  connection.AddOnRespListener ChatMsgToClientFn.
Definition HandlePostMessageResponse : M unit :=
  connection.AddOnRespListener PostMessageResponseFn.
Definition HandleOnlineUsers : M unit :=
  connection.AddOnRespListener OnlineUsersFn.

(** [Listen] of the connection handler as the program runs it. *)
Definition Listen : list ReadResult → M error :=
  connection.Listen call_resp call_disc.

End registration.
End chat.


(** ** Reading the event log *)
Section observations.
Context {RL DL : Type}.

(** The calls of response listeners, oldest first. *)
Definition resp_calls (evs : list (event RL DL)) : list (RL * Envelope) :=
  omap (λ e, match e with EvRespListener l resp => Some (l, resp) | _ => None end) evs.

(** The attempts to write a frame, oldest first. *)
Definition writes (evs : list (event RL DL)) : list request :=
  omap (λ e, match e with EvWriteJSON _ req _ => Some req | _ => None end) evs.

(** A run followed by another: the events of both, the result of the
    second. *)
Definition after {A} (evs : list (event RL DL))
    (out : list (event RL DL) * res (State RL DL) A)
  : list (event RL DL) * res (State RL DL) A :=
  (evs ++ out.1, out.2).

Definition returns {A} (r : res (State RL DL) A) : Prop :=
  match r with Ret _ _ => True | _ => False end.

(** ** The dispatch, as the specification has it

    The listeners of a registry are invoked with [arg] one after the other,
    in the order of the registry, in the goroutine of the loop.
    [then_invoke] is one more listener [l] after the ones invoked [sofar]:
    when all of these have returned, [l] is invoked in the state they left,
    which shows as [mark l arg] followed by what [l] does there; when one of
    them has not returned, [l] is not invoked. *)
Definition then_invoke {L A : Type} (call : L → A → M RL DL unit)
    (mark : L → A → event RL DL) (arg : A)
    (sofar : list (event RL DL) * res (State RL DL) unit) (l : L)
  : list (event RL DL) * res (State RL DL) unit :=
  match sofar.2 with
  | Ret _ st => after (sofar.1 ++ [mark l arg]) (call l arg st)
  | _ => sofar
  end.

Definition invoked_in_order {L A : Type} (call : L → A → M RL DL unit)
    (mark : L → A → event RL DL) (arg : A) (ls : list L) (st : State RL DL)
  : list (event RL DL) * res (State RL DL) unit :=
  foldl (then_invoke call mark arg) ([], Ret () st) ls.

(** The end of an iteration whose dispatch ended as [d]: the end of the
    body (no error to return) when the listeners have returned, and
    otherwise where the dispatch stays. *)
Definition iteration_end (d : res (State RL DL) unit)
  : res (State RL DL) (option error) :=
  match d with
  | Ret _ st => Ret None st
  | Blocked why st => Blocked why st
  | Panicked msg st => Panicked msg st
  end.

(** The loop after an iteration with events [evs] whose dispatch ended as
    [d]: it goes on with [next], the rest of the loop, when the listeners
    have returned, and not at all otherwise. *)
Definition loop_goes_on (evs : list (event RL DL)) (d : res (State RL DL) unit)
    (next : M RL DL error) : list (event RL DL) * res (State RL DL) error :=
  match d with
  | Ret _ st => after evs (next st)
  | Blocked why st => (evs, Blocked why st)
  | Panicked msg st => (evs, Panicked msg st)
  end.

(** [AddOnRespListener] called for each function of [ls] in turn. *)
Fixpoint register_resp (ls : list RL) : M RL DL unit :=
  match ls with
  | [] => mret ()
  | l :: ls' => connection.AddOnRespListener l;; register_resp ls'
  end.

(** The state after [ls] have been appended to the response registry. *)
Definition add_resp (ls : list RL) (st : State RL DL) : State RL DL :=
  set_connH {| conn := conn (connH st); url := url (connH st);
               onResponse := onResponse (connH st) ++ ls;
               onDisconnect := onDisconnect (connH st) |} st.

(** The events of a [Connect] that fails with [es] and then gets [c]. *)
Definition connect_events (u : URL) (es : list error) (c : WsConn)
  : list (event RL DL) :=
  (es ≫= λ e, [EvDial u (DialErr e);
               EvLog ErrorLevel [LErr (WithMessage e "Connect to server");
                                 LStr " Retrying in 5 seconds."];
               EvSleep 5])
  ++ [EvDial u (DialOk c); EvLog InfoLevel [LStr "Connected to "; LStr (Host u)]].

(** The tokens handed over through [tokenCh], oldest first. *)
Definition token_deliveries (evs : list (event RL DL)) : list (goroutine * string) :=
  omap (λ e, match e with EvToken g tok => Some (g, tok) | _ => None end) evs.

(** The lists handed to the UI through [OnlineUsersCh], oldest first. *)
Definition ui_lists (evs : list (event RL DL)) : list (list string) :=
  omap (λ e, match e with EvOnlineUsers us => Some us | _ => None end) evs.

(** The state a run ends in, returned or not. *)
Definition final_state {A} (r : res (State RL DL) A) : State RL DL :=
  match r with
  | Ret _ st => st
  | Blocked _ st => st
  | Panicked _ st => st
  end.

End observations.

(** ** States used to evaluate the model on concrete inputs *)
Definition example_cfg : Config :=
  {| ServerAddress := "localhost:8080"; TLSMode := Some false; Nickname := "bob" |}.

(** The state right after [connection.NewHandler] and [chat.NewHandler]:
    no connection yet, nothing registered. *)
Definition fresh_state {RL DL : Type} : State RL DL :=
  MkState (connection.NewHandler false "localhost:8080") chat.NewHandler
          example_cfg [] [].

Definition open_conn : WsConn := {| connId := 1; writeErr := None |}.
Definition closed_conn : WsConn :=
  {| connId := 1; writeErr := Some (NetError "use of closed network connection") |}.

(** The same with a connection established, open or closed. *)
Definition connected_state {RL DL : Type} (c : WsConn) : State RL DL :=
  set_connH (connection.set_conn c (connH fresh_state)) fresh_state.

(** Listeners that do nothing, for runs that only watch the dispatch. *)
Definition idle_resp : nat → Envelope → M nat nat unit := λ _ _, mret ().
Definition idle_disc : nat → error → M nat nat unit := λ _ _, mret ().

(** Listeners that can be seen to run: listener [n] writes [n] to the log
    and returns, but for listener [0], which waits on a channel that nobody
    receives from. *)
Definition noting_resp : nat → Envelope → M nat nat unit :=
  λ n _, match n with
         | 0 => park OnSend
         | _ => log InfoLevel [LNum (Fint (Z.of_nat n))]
         end.
Definition noting_disc : nat → error → M nat nat unit :=
  λ n _, match n with
         | 0 => park OnSend
         | _ => log InfoLevel [LNum (Fint (Z.of_nat n))]
         end.

(** ** An instance of the library functions, to evaluate examples

    [TrimSpace] on ASCII text, and [mapstructure.Decode] on envelopes whose
    keys are spelled as on the wire: a missing or null field keeps the zero
    value, a value of another type than the field's is an error. *)
Definition is_ascii_space (a : ascii) : bool :=
  match a with
  | "009" | "010" | "011" | "012" | "013" | " " => true
  | _ => false
  end%char.

Fixpoint trim_left (s : string) : string :=
  match s with
  | EmptyString => EmptyString
  | String a s' => if is_ascii_space a then trim_left s' else s
  end.

Fixpoint trim_right (s : string) : string :=
  match s with
  | EmptyString => EmptyString
  | String a s' =>
      match trim_right s' with
      | EmptyString => if is_ascii_space a then EmptyString else String a EmptyString
      | t => String a t
      end
  end.

Definition TrimSpace_ascii (s : string) : string := trim_right (trim_left s).

Definition field_float64 (resp : Envelope) (key : string) : decoded float64 :=
  match resp !! key with
  | None | Some JNull => DecodeOk (Fint 0)
  | Some (JNum f) => DecodeOk f
  | Some _ => DecodeErr (ErrorString ("expected type 'float64': " +:+ key))
  end.

Definition field_string (resp : Envelope) (key : string) : decoded string :=
  match resp !! key with
  | None | Some JNull => DecodeOk ""
  | Some (JStr s) => DecodeOk s
  | Some _ => DecodeErr (ErrorString ("expected type 'string': " +:+ key))
  end.

Definition field_bool (resp : Envelope) (key : string) : decoded bool :=
  match resp !! key with
  | None | Some JNull => DecodeOk false
  | Some (JBool b) => DecodeOk b
  | Some _ => DecodeErr (ErrorString ("expected type 'bool': " +:+ key))
  end.

Fixpoint all_strings (vs : list JVal) : option (list string) :=
  match vs with
  | [] => Some []
  | JStr s :: vs' => cons s <$> all_strings vs'
  | _ => None
  end.

Definition field_strings (resp : Envelope) (key : string) : decoded (list string) :=
  match resp !! key with
  | None | Some JNull => DecodeOk []
  | Some (JArr vs) =>
      match all_strings vs with
      | Some l => DecodeOk l
      | None => DecodeErr (ErrorString ("expected type 'string': " +:+ key))
      end
  | Some _ => DecodeErr (ErrorString ("source data must be an array or slice: " +:+ key))
  end.

Definition decoded_bind {A B} (d : decoded A) (k : A → decoded B) : decoded B :=
  match d with
  | DecodeOk a => k a
  | DecodeErr e => DecodeErr e
  end.

Definition wire_libraries : Libraries := {|
  strings_TrimSpace := TrimSpace_ascii;
  Decode_loginResp resp :=
    decoded_bind (field_float64 resp "type") (λ ty,
    decoded_bind (field_string resp "token") (λ tok,
    decoded_bind (field_float64 resp "status") (λ status,
    DecodeOk {| loginResp_Type := ty; loginResp_Token := tok;
                loginResp_Status := status |})));
  Decode_postMsgResp resp :=
    decoded_bind (field_float64 resp "type") (λ ty,
    decoded_bind (field_float64 resp "status") (λ status,
    DecodeOk {| postMsgResp_Type := ty; postMsgResp_Status := status |}));
  Decode_chatMsgToClient resp :=
    decoded_bind (field_float64 resp "type") (λ ty,
    decoded_bind (field_string resp "nickname") (λ nick,
    decoded_bind (field_string resp "msg") (λ msg,
    decoded_bind (field_bool resp "isSystem") (λ sys,
    DecodeOk {| chatMsgToClient_Type := ty; chatMsgToClient_Nickname := nick;
                chatMsgToClient_Msg := msg; chatMsgToClient_IsSystem := sys |}))));
  Decode_onlineUsers resp :=
    decoded_bind (field_float64 resp "type") (λ ty,
    decoded_bind (field_float64 resp "status") (λ status,
    decoded_bind (field_strings resp "users") (λ users,
    DecodeOk {| onlineUsers_Type := ty; onlineUsers_Status := status;
                onlineUsers_Users := users |})))
|}.

(** ** Envelopes used to evaluate the model *)

(** [{"type":2,"token":tok,"status":status}]. *)
Definition login_response (tok : string) (status : float64) : Envelope :=
  <["type" := JNum typeLoginResp]>
    (<["token" := JStr tok]> (<["status" := JNum status]> ∅)).

(** [{"type":7,"status":status,"users":users}]. *)
Definition online_users_response (status : float64) (users : list string) : Envelope :=
  <["type" := JNum typeOnlineUsers]>
    (<["status" := JNum status]> (<["users" := JArr (JStr <$> users)]> ∅)).

(** What [AskNickname] does with one line: the line, trimmed, is taken when
    it is not empty, not longer than twenty bytes, and was read without an
    error. *)
Definition nickname_accepted `{Libraries} (entry : string * option error) : bool :=
  let input := strings_TrimSpace entry.1 in
  bool_decide (input ≠ "") && bool_decide (String.length input ≤ 20)
  && bool_decide (entry.2 = None).


(** ** func main and the goroutines it starts

    [main] from line 49 on, where the configuration holds the server
    address and the TLS mode, as a list of statements; and the program as
    the goroutines running side by side, one step at a time.  A step is a
    statement of [main], an iteration of the receive loop, or a callback of
    the UI.  A step that cannot complete yet (a send with no receiver
    ready) is not taken; a goroutine that can never go on (a send on a nil
    channel, a script of the environment used up) is out of the run; a
    panic or [log.Fatal] ends the process. *)
Module main.
Section main.
Context `{Libraries}.
Local Abbreviation St := (State chat.RespListener chat.DisconnectListener).
Local Abbreviation Ev := (event chat.RespListener chat.DisconnectListener).
Local Abbreviation M := (M chat.RespListener chat.DisconnectListener).

Inductive stmt : Type :=
| Do (m : M unit)
| GoListen
| AddOnMsgSendListener
| AddOnOnlineBoxOpenListener.

(** [ui.NewChat(log)] on a terminal that can be initialised. *)
Definition NewChat : Chat :=
  {| Gui := Some false; OnlineUsersCh := Some (make_chan 0) |}.

(** [connHandler := connection.NewHandler(log, *cfg.TLSMode, cfg.ServerAddress)]. *)
Definition new_connHandler : M unit :=
  st ← get;
  match TLSMode (cfg st) with
  | Some tls =>
      modify (set_connH (connection.NewHandler tls (ServerAddress (cfg st))))
  | None => panic "invalid memory address or nil pointer dereference"
  end.

(** [if cfg.Nickname == "" { cfg.Nickname = stdinUtil.AskNickname(log) }]. *)
Definition ask_nickname_if_empty : M unit :=
  st ← get;
  if decide (Nickname (cfg st) = "") then
    nickname ← stdin.AskNickname;
    modify (λ st, set_cfg (chat.set_Nickname nickname (cfg st)) st)
  else mret ().

(** [go func() { chatUI.Draw() }()] and [chatUI.WaitForView(ui.ChatBoxName)]:
    when [main] goes on the chat box view exists. *)
Definition go_Draw_and_wait : M unit :=
  emit (EvGo DrawGoroutine);;
  modify (λ st,
    set_chatH (chat.set_ChatUI
                 {| Gui := Some true;
                    OnlineUsersCh := OnlineUsersCh (ChatUI (chatH st)) |}
                 (chatH st)) st).

(** [go chatUI.UpdateOnlineBox()]: the goroutine receives from the channel
    that [chatUI] and the handler's copy of it share. *)
Definition go_UpdateOnlineBox : M unit :=
  emit (EvGo UpdateOnlineBoxGoroutine);;
  modify (λ st,
    match OnlineUsersCh (ChatUI (chatH st)) with
    | Some ch =>
        set_chatH (chat.set_ChatUI
                     (chat.set_OnlineUsersCh
                        (chan_park UpdateOnlineBoxGoroutine ch)
                        (ChatUI (chatH st)))
                     (chatH st)) st
    | None => st
    end).

Definition body : list stmt := [
  (* 49 *) Do new_connHandler;
  (* 50 *) Do connection.Connect;
  (* 54 *) Do ask_nickname_if_empty;
  (* 58 *) GoListen;
  (* 64 *) Do (modify (set_chatH chat.NewHandler));
  (* 66 *) Do chat.HandleOnDisconnect;
  (* 67 *) Do chat.HandleLoginResponse;
  (* 68, LoginAndWaitForToken *)
           Do chat.login_and_log;
           Do (chat.recv_tokenCh MainGoroutine);
  (* 70 *) Do (modify (λ st, set_chatH (chat.set_ChatUI NewChat (chatH st)) st));
  (* 75 *) Do go_Draw_and_wait;
  (* 81 *) Do go_UpdateOnlineBox;
  (* 87 *) AddOnMsgSendListener;
  (* 88 *) AddOnOnlineBoxOpenListener;
  (* 90 *) Do chat.HandleChatMsgToClient;
  (* 91 *) Do chat.HandlePostMessageResponse;
  (* 92 *) Do chat.HandleOnlineUsers
  (* 98: select {} *)
].

Record System : Type := MkSystem {
  sys_state : St;
  sys_log : list Ev;
  main_rest : list stmt;      (* what [main] has still to execute *)
  main_out : bool;            (* [main] can never go on *)
  listening : bool;           (* the goroutine of [Listen] is in its loop *)
  msg_send_wired : bool;      (* [PostMessage] is an on-message-send listener *)
  online_box_wired : bool;    (* [RequestOnlineUsers] is an on-open listener *)
  exited : bool               (* the process has ended *)
}.

(** The program at line 49. *)
Definition start (c : Config) (dials : list DialResult)
    (lines : list (string * option error)) : System :=
  MkSystem (MkState (connection.NewHandler false "") chat.NewHandler c dials lines)
           [] body false false false false false.

Inductive action : Type :=
| RunMain
| RunListen (r : ReadResult)
| SendMessage (msg : string)
| OpenOnlineBox.

(** [main] waits in [h.token = <-h.tokenCh]. *)
Definition main_waits (s : System) : bool :=
  bool_decide (MainGoroutine ∈ chan_recvq (tokenCh (chatH (sys_state s)))).

(** The end of a step that ran [m] in goroutine [g]. *)
Definition finish {A} (s : System) (out : list Ev * res St A)
    (ret : A → St → list Ev → System) (stuck : St → list Ev → System) : System :=
  let log := sys_log s ++ out.1 in
  match out.2 with
  | Ret a st => ret a st log
  | Blocked OnSend _ => s
  | Blocked _ st => stuck st log
  | Panicked _ st =>
      MkSystem st log (main_rest s) (main_out s) (listening s)
               (msg_send_wired s) (online_box_wired s) true
  end.

Definition step (a : action) (s : System) : System :=
  if exited s then s else
  match a with
  | RunMain =>
      if main_out s || main_waits s then s else
      match main_rest s with
      | [] => s
      | Do m :: rest =>
          finish s (m (sys_state s))
            (λ _ st log, MkSystem st log rest false (listening s)
                           (msg_send_wired s) (online_box_wired s) false)
            (λ st log, MkSystem st log (main_rest s) true (listening s)
                         (msg_send_wired s) (online_box_wired s) false)
      | GoListen :: rest =>
          MkSystem (sys_state s) (sys_log s ++ [EvGo ListenGoroutine]) rest false true
                   (msg_send_wired s) (online_box_wired s) false
      | AddOnMsgSendListener :: rest =>
          MkSystem (sys_state s) (sys_log s) rest false (listening s)
                   true (online_box_wired s) false
      | AddOnOnlineBoxOpenListener :: rest =>
          MkSystem (sys_state s) (sys_log s) rest false (listening s)
                   (msg_send_wired s) true false
      end
  | RunListen r =>
      if negb (listening s) then s else
      finish s (connection.Listen_iteration chat.call_resp chat.call_disc r (sys_state s))
        (λ v st log,
           match v with
           | None =>
               MkSystem st log (main_rest s) (main_out s) true
                        (msg_send_wired s) (online_box_wired s) false
           | Some err =>
               (* log.Fatal(err) *)
               MkSystem st (log ++ [EvLog FatalLevel [LErr err]]) (main_rest s)
                        (main_out s) false (msg_send_wired s) (online_box_wired s) true
           end)
        (λ st log, MkSystem st log (main_rest s) (main_out s) false
                     (msg_send_wired s) (online_box_wired s) false)
  | SendMessage msg =>
      if negb (msg_send_wired s) then s else
      finish s (chat.PostMessage msg (sys_state s))
        (λ _ st log, MkSystem st log (main_rest s) (main_out s) (listening s)
                       (msg_send_wired s) (online_box_wired s) false)
        (λ st log, MkSystem st log (main_rest s) (main_out s) (listening s)
                     (msg_send_wired s) (online_box_wired s) false)
  | OpenOnlineBox =>
      if negb (online_box_wired s) then s else
      finish s (chat.RequestOnlineUsers (sys_state s))
        (λ _ st log, MkSystem st log (main_rest s) (main_out s) (listening s)
                       (msg_send_wired s) (online_box_wired s) false)
        (λ st log, MkSystem st log (main_rest s) (main_out s) (listening s)
                     (msg_send_wired s) (online_box_wired s) false)
  end.

(** A run: the steps of [sched], first to last. *)
Definition run (sched : list action) (s : System) : System :=
  foldl (λ s a, step a s) s sched.

End main.
End main.


(** ** What a piece of code may do to the session

    Relations between the state before, the events, and the state after a
    run; they hold of every function of the [chat], [connection] and
    [stdin] packages that a listener or a UI callback runs. *)
Section frames.
Context {RL DL : Type}.
Implicit Types (st : State RL DL) (evs : list (event RL DL)).

(** Events of the wiring: a registration, the start of the receive loop, a
    read of the receive loop. *)
Definition wiring_event (e : event RL DL) : bool :=
  match e with
  | EvAddOnRespListener _ | EvAddOnDisconnectListener _
  | EvGo ListenGoroutine | EvReadJSON _ _ => true
  | _ => false
  end.

(** [tokenCh] is as [NewHandler] made it: no capacity, nothing buffered. *)
Definition tokenCh_unbuffered st : Prop :=
  chan_cap (tokenCh (chatH st)) = 0 ∧ chan_buf (tokenCh (chatH st)) = [].

Definition main_in_queue st : Prop :=
  MainGoroutine ∈ chan_recvq (tokenCh (chatH st)).

Definition token_to_main evs : Prop :=
  ∃ tok, EvToken MainGoroutine tok ∈ evs.

(** The code emits no wiring event, keeps [tokenCh] unbuffered, and takes
    [main] out of the queue of [tokenCh] only by handing it a token. *)
Definition wiring_frame st evs st' : Prop :=
  Forall (λ e, wiring_event e = false) evs ∧
  (tokenCh_unbuffered st → tokenCh_unbuffered st') ∧
  (main_in_queue st → main_in_queue st' ∨ token_to_main evs).

(** A post-message or online-users request carries token [t]. *)
Definition carries (t : string) (req : request) : Prop :=
  match req with
  | ReqLogin _ => True
  | ReqPostMsg r => postMsgReq_Token r = t
  | ReqOnlineUsers r => onlineUsersReq_Token r = t
  end.

(** As long as no token is handed over through [tokenCh], the session
    token stays what it was and every request written carries it. *)
Definition token_frame st evs st' : Prop :=
  token_deliveries evs = [] →
  token (chatH st') = token (chatH st) ∧
  Forall (carries (token (chatH st))) (writes evs).

Definition session_frame st evs st' : Prop :=
  wiring_frame st evs st' ∧ token_frame st evs st'.

(** The handle after the dials of [evs], from the handle [h]: a successful
    dial puts its connection in the handle; nothing takes one out. *)
Definition dialled (evs : list (event RL DL)) (h : option WsConn) : option WsConn :=
  foldl (λ h e, match e with EvDial _ (DialOk c) => Some c | _ => h end) h evs.

(** The code changes [h.conn] by a successful dial only. *)
Definition handle_frame st evs st' : Prop :=
  conn (connH st') = dialled evs (conn (connH st)).

(** [m] keeps to relation [R] from every state, returned or not. *)
Definition keeps (R : State RL DL → list (event RL DL) → State RL DL → Prop)
    {A} (m : M RL DL A) : Prop :=
  ∀ st, R st (events_of (m st)) (final_state (result_of (m st))).

End frames.

(** ** Reading the log of a run of the program *)
Section wiring.
Local Abbreviation Ev := (event chat.RespListener chat.DisconnectListener).

Definition is_registration (e : Ev) : bool :=
  match e with
  | EvAddOnRespListener _ | EvAddOnDisconnectListener _ => true
  | _ => false
  end.

(** The registrations of lines 90 to 92. *)
Definition is_late_registration (e : Ev) : bool :=
  match e with
  | EvAddOnRespListener chat.ChatMsgToClientFn
  | EvAddOnRespListener chat.PostMessageResponseFn
  | EvAddOnRespListener chat.OnlineUsersFn => true
  | _ => false
  end.

Definition is_go_listen (e : Ev) : bool :=
  match e with EvGo ListenGoroutine => true | _ => false end.

Definition is_read (e : Ev) : bool :=
  match e with EvReadJSON _ _ => true | _ => false end.

Definition is_token_to_main (e : Ev) : bool :=
  match e with EvToken MainGoroutine _ => true | _ => false end.

(** The claim of C6 on a log: no registration after the receive loop was
    started, none after it has read from the connection. *)
Fixpoint none_after (p q : Ev → bool) (log : list Ev) : bool :=
  match log with
  | [] => true
  | e :: log' =>
      (if p e then forallb (λ e', negb (q e')) log' else true)
      && none_after p q log'
  end.

Definition registered_before_the_loop (log : list Ev) : bool :=
  none_after is_go_listen is_registration log
  && none_after is_read is_registration log.

(** The order the code keeps, checked from left to right: [go], [read] and
    [tok] say whether the start of the loop, a read and a token for [main]
    have been seen. *)
Fixpoint wired_in_order (go read tok : bool) (log : list Ev) : bool :=
  match log with
  | [] => true
  | e :: log' =>
      if is_go_listen e then wired_in_order true read tok log'
      else if is_read e then go && wired_in_order go true tok log'
      else if is_token_to_main e then read && wired_in_order go read true log'
      else if is_late_registration e then go && tok && wired_in_order go read tok log'
      else if is_registration e then go && wired_in_order go read tok log'
      else wired_in_order go read tok log'
  end.

End wiring.

(** ** Statements of [main] and relations *)
Section stmt_frames.
Context `{Libraries}.
Local Abbreviation St := (State chat.RespListener chat.DisconnectListener).
Local Abbreviation Ev := (event chat.RespListener chat.DisconnectListener).

(** A statement of [main] keeps to [R]. *)
Definition stmt_keeps (R : St → list Ev → St → Prop) (s : main.stmt) : Prop :=
  match s with
  | main.Do m => keeps R m
  | main.GoListen => ∀ st, R st [EvGo ListenGoroutine] st
  | main.AddOnMsgSendListener | main.AddOnOnlineBoxOpenListener => True
  end.

(** [main] has executed line 64: what it has still to execute are
    statements of line 66 and after. *)
Definition past_line_64 (s : main.System) : Prop :=
  ∃ k, 5 ≤ k ∧ main.main_rest s = drop k main.body.

End stmt_frames.

(** ** The invariant of the wiring *)
Section wiring_inv.
Context `{Libraries}.
Local Abbreviation St := (State chat.RespListener chat.DisconnectListener).
Local Abbreviation Ev := (event chat.RespListener chat.DisconnectListener).

Definition seen (p : Ev → bool) (log : list Ev) : bool := existsb p log.

(** An event that the order of the wiring does not look at. *)
Definition beside_wiring (e : Ev) : bool :=
  negb (wiring_event e) && negb (is_token_to_main e).

(** With [tokenCh] unbuffered, the code emits only events beside the wiring
    and leaves [tokenCh] unbuffered. *)
Definition main_frame (st : St) (evs : list Ev) (st' : St) : Prop :=
  tokenCh_unbuffered st →
  Forall (λ e, beside_wiring e = true) evs ∧ tokenCh_unbuffered st'.

(** What holds of the program at every time of every run: [main] is at
    statement [k] of its body; the log is in the order of the wiring;
    [tokenCh] is unbuffered; the receive loop runs only once its start is in
    the log, which it is from statement 4 on; and from statement 9 on
    [main] either waits for the token or has been handed one. *)
Definition wiring_inv_at (k : nat) (s : main.System) : Prop :=
  main.main_rest s = drop k main.body ∧
  wired_in_order false false false (main.sys_log s) = true ∧
  tokenCh_unbuffered (main.sys_state s) ∧
  (main.listening s = true → seen is_go_listen (main.sys_log s) = true) ∧
  (4 ≤ k → seen is_go_listen (main.sys_log s) = true) ∧
  (9 ≤ k → main_in_queue (main.sys_state s)
           ∨ seen is_token_to_main (main.sys_log s) = true).

Definition wiring_inv (s : main.System) : Prop := ∃ k, wiring_inv_at k s.

End wiring_inv.

(** ** The invariant of the handle

    What holds of the program at every time of every run: [main] is at
    statement [k]; the receive loop and the callbacks of the UI run only
    after [main] has created the handler; before that there is no handle;
    and the handle is the connection of the last dial that has succeeded
    so far, none when none has. *)
Definition handle_inv_at `{Libraries} (k : nat) (s : main.System) : Prop :=
  main.main_rest s = drop k main.body ∧
  (main.listening s = true → 4 ≤ k) ∧
  (main.msg_send_wired s = true → 1 ≤ k) ∧
  (main.online_box_wired s = true → 1 ≤ k) ∧
  (k = 0 → conn (connH (main.sys_state s)) = None) ∧
  conn (connH (main.sys_state s)) = dialled (main.sys_log s) None.

Definition handle_inv `{Libraries} (s : main.System) : Prop := ∃ k, handle_inv_at k s.


(** ** JSON on the wire

    What [WriteJSON] puts into a frame ([json.NewEncoder(w).Encode(v)]) and
    what [ReadJSON] makes of a frame ([json.NewDecoder(r).Decode(&resp)]
    with [resp map[string]any]), for the values of this protocol: objects of
    numbers, strings, booleans, null and arrays.  Text is bytes; a string
    value is coerced to valid UTF-8 on the way out and on the way in, each
    byte that starts no valid encoding becoming U+FFFD. *)
Module json.

Definition quote : ascii := "034"%char.
Definition backslash : ascii := "092"%char.
Definition code (a : ascii) : N := N_of_ascii a.

(** *** UTF-8, as [utf8.DecodeRune] reads it *)

(** By the first byte: the size of the encoding and the range of the
    second byte. *)
Definition lead_class (x : N) : option (nat * N * N) :=
  if (x <? 194)%N then None
  else if (x <=? 223)%N then Some (2, 128%N, 191%N)
  else if (x =? 224)%N then Some (3, 160%N, 191%N)
  else if (x <=? 236)%N then Some (3, 128%N, 191%N)
  else if (x =? 237)%N then Some (3, 128%N, 159%N)
  else if (x <=? 239)%N then Some (3, 128%N, 191%N)
  else if (x =? 240)%N then Some (4, 144%N, 191%N)
  else if (x <=? 243)%N then Some (4, 128%N, 191%N)
  else if (x =? 244)%N then Some (4, 128%N, 143%N)
  else None.

Definition in_range (lo hi : N) (a : ascii) : bool :=
  (lo <=? code a)%N && (code a <=? hi)%N.

Definition is_cont (a : ascii) : bool := in_range 128 191 a.

(** The encoding of one rune at the head of [s], and what follows it; none
    when the head starts no valid encoding. *)
Definition DecodeRune (s : string) : option (string * string) :=
  match s with
  | String b0 (String b1 s2) =>
      match lead_class (code b0) with
      | Some (size, lo, hi) =>
          if in_range lo hi b1 then
            if decide (size = 2) then Some (String b0 (String b1 ""), s2)
            else
              match s2 with
              | String b2 s3 =>
                  if is_cont b2 then
                    if decide (size = 3)
                    then Some (String b0 (String b1 (String b2 "")), s3)
                    else
                      match s3 with
                      | String b3 s4 =>
                          if is_cont b3
                          then Some (String b0 (String b1 (String b2 (String b3 ""))), s4)
                          else None
                      | EmptyString => None
                      end
                  else None
              | EmptyString => None
              end
          else None
      | None => None
      end
  | _ => None
  end.

(** A string cut into what the encoder and the decoder see: an ASCII byte,
    the encoding of a rune beyond ASCII, a byte that starts no rune. *)
Inductive piece : Type :=
| PAscii (a : ascii)
| PRune (r : string)
| PBad (a : ascii).

Fixpoint pieces_fuel (fuel : nat) (s : string) : list piece :=
  match fuel with
  | O => []
  | S fuel' =>
      match s with
      | EmptyString => []
      | String a s' =>
          if (code a <? 128)%N then PAscii a :: pieces_fuel fuel' s'
          else
            match DecodeRune s with
            | Some (r, rest) => PRune r :: pieces_fuel fuel' rest
            | None => PBad a :: pieces_fuel fuel' s'
            end
      end
  end.

Definition pieces (s : string) : list piece := pieces_fuel (String.length s) s.

(** U+FFFD, U+2028 and U+2029 in UTF-8. *)
Definition replacement : string :=
  String "239" (String "191" (String "189" "")).
Definition line_separator : string :=
  String "226" (String "128" (String "168" "")).
Definition paragraph_separator : string :=
  String "226" (String "128" (String "169" "")).

Definition piece_value (p : piece) : string :=
  match p with
  | PAscii a => String a ""
  | PRune r => r
  | PBad _ => replacement
  end.

Fixpoint concat_map (f : piece → string) (ps : list piece) : string :=
  match ps with
  | [] => ""
  | p :: ps' => f p +:+ concat_map f ps'
  end.

(** A string coerced to valid UTF-8. *)
Definition coerce (s : string) : string := concat_map piece_value (pieces s).

(** [utf8.ValidString]: no byte of the string is outside a rune. *)
Definition is_bad (p : piece) : bool :=
  match p with
  | PBad _ => true
  | _ => false
  end.

Definition ValidString (s : string) : bool :=
  forallb (λ p, negb (is_bad p)) (pieces s).

(** The bytes a piece was cut from, and the piece the coerced bytes are cut
    into again. *)
Definition piece_raw (p : piece) : string :=
  match p with
  | PAscii a => String a ""
  | PRune r => r
  | PBad a => String a ""
  end.

Definition mend (p : piece) : piece :=
  match p with
  | PBad _ => PRune replacement
  | _ => p
  end.

(** What the cutting of a string yields. *)
Definition piece_ok (p : piece) : Prop :=
  match p with
  | PAscii a => (code a < 128)%N
  | PRune r =>
      (∃ b0 r', r = String b0 r' ∧ (194 ≤ code b0)%N) ∧
      ∀ rest, DecodeRune (r +:+ rest) = Some (r, rest)
  | PBad a => (128 ≤ code a)%N
  end.

(** *** The encoder *)

Definition hex_digit (n : N) : ascii :=
  ascii_of_N (if (n <? 10)%N then 48 + n else 87 + n).

(** [htmlSafeSet]: the ASCII bytes written as they are. *)
Definition htmlSafe (a : ascii) : bool :=
  (32 <=? code a)%N && (code a <? 128)%N
  && negb (bool_decide (a = quote)) && negb (bool_decide (a = backslash))
  && negb (bool_decide (a = "<"%char)) && negb (bool_decide (a = ">"%char))
  && negb (bool_decide (a = "&"%char)).

Definition escape_ascii (a : ascii) : string :=
  if htmlSafe a then String a ""
  else if bool_decide (a = quote) then String backslash (String quote "")
  else if bool_decide (a = backslash) then String backslash (String backslash "")
  else if bool_decide (a = "010"%char) then String backslash "n"
  else if bool_decide (a = "013"%char) then String backslash "r"
  else if bool_decide (a = "009"%char) then String backslash "t"
  else String backslash
         (String "u" (String "0" (String "0"
            (String (hex_digit (code a / 16)) (String (hex_digit (code a mod 16)) ""))))).

Definition escape_piece (p : piece) : string :=
  match p with
  | PAscii a => escape_ascii a
  | PRune r =>
      if bool_decide (r = line_separator) then String backslash "u2028"
      else if bool_decide (r = paragraph_separator) then String backslash "u2029"
      else r
  | PBad _ => String backslash "ufffd"
  end.

(** A Go string as a JSON string literal. *)
Definition encode_string (s : string) : string :=
  String quote (concat_map escape_piece (pieces s) +:+ String quote "").

(** A [float64] that holds an integer below [1e21] in magnitude is written
    in decimal without exponent; other values are outside the model. *)
Definition encode_float64 (f : float64) : option string :=
  match f with
  | Fint z =>
      if (Z.abs z <? 10 ^ 21)%Z then Some (NilZero.string_of_int (Z.to_int z))
      else None
  | Fother _ => None
  end.

Fixpoint join_fields (fields : list (string * string)) : string :=
  match fields with
  | [] => ""
  | [(k, v)] => encode_string k +:+ ":" +:+ v
  | (k, v) :: fields' => encode_string k +:+ ":" +:+ v +:+ "," +:+ join_fields fields'
  end.

Definition encode_object (fields : list (string * string)) : string :=
  "{" +:+ join_fields fields +:+ "}".

(** [json.Marshal] of the three request structs: the fields in the order of
    declaration, under the names of their [json] tags. *)
Definition Marshal (req : request) : option string :=
  match req with
  | ReqLogin r =>
      ty ← encode_float64 (loginReq_Type r);
      Some (encode_object [("type", ty);
                           ("nickname", encode_string (loginReq_Nickname r))])
  | ReqPostMsg r =>
      ty ← encode_float64 (postMsgReq_Type r);
      Some (encode_object [("type", ty);
                           ("token", encode_string (postMsgReq_Token r));
                           ("msg", encode_string (postMsgReq_Msg r))])
  | ReqOnlineUsers r =>
      ty ← encode_float64 (onlineUsersReq_Type r);
      Some (encode_object [("type", ty);
                           ("token", encode_string (onlineUsersReq_Token r))])
  end.

(** [Encoder.Encode]: the value and a newline. *)
Definition Encode (req : request) : option string :=
  txt ← Marshal req; Some (txt +:+ String "010" "").

(** A value of an envelope, nested objects left out. *)
Fixpoint encode_value (v : JVal) : option string :=
  match v with
  | JNull => Some "null"
  | JBool b => Some (if b then "true" else "false")
  | JNum f => encode_float64 f
  | JStr s => Some (encode_string s)
  | JArr vs =>
      let fix elements (vs : list JVal) : option string :=
        match vs with
        | [] => Some ""
        | [v] => encode_value v
        | v :: vs' =>
            t ← encode_value v; ts ← elements vs'; Some (t +:+ "," +:+ ts)
        end in
      ts ← elements vs; Some ("[" +:+ ts +:+ "]")
  | JObj _ => None
  end.

(** [json.Marshal] of a [map[string]any]: the keys in sorted order. *)
Definition sorted_keys (m : Envelope) : list string :=
  merge_sort String.le (map_to_list m).*1.

Fixpoint encode_entries (m : Envelope) (keys : list string)
  : option (list (string * string)) :=
  match keys with
  | [] => Some []
  | k :: keys' =>
      v ← m !! k; t ← encode_value v; rest ← encode_entries m keys';
      Some ((k, t) :: rest)
  end.

Definition Marshal_map (m : Envelope) : option string :=
  encode_object <$> encode_entries m (sorted_keys m).

Definition Encode_map (m : Envelope) : option string :=
  txt ← Marshal_map m; Some (txt +:+ String "010" "").

(** *** The decoder *)

Definition is_ws (a : ascii) : bool :=
  bool_decide (a = " "%char) || bool_decide (a = "009"%char)
  || bool_decide (a = "010"%char) || bool_decide (a = "013"%char).

Fixpoint skip_ws (s : string) : string :=
  match s with
  | String a s' => if is_ws a then skip_ws s' else s
  | EmptyString => EmptyString
  end.

Definition hex_value (a : ascii) : option N :=
  let x := code a in
  if (48 <=? x)%N && (x <=? 57)%N then Some (x - 48)%N
  else if (97 <=? x)%N && (x <=? 102)%N then Some (x - 87)%N
  else if (65 <=? x)%N && (x <=? 70)%N then Some (x - 55)%N
  else None.

(** [getu4]: four hexadecimal digits. *)
Definition getu4 (s : string) : option (N * string) :=
  match s with
  | String a (String b (String c (String d rest))) =>
      x1 ← hex_value a; x2 ← hex_value b; x3 ← hex_value c; x4 ← hex_value d;
      Some (((x1 * 16 + x2) * 16 + x3) * 16 + x4, rest)%N
  | _ => None
  end.

(** [utf8.EncodeRune]. *)
Definition EncodeRune (r : N) : string :=
  if (r <? 128)%N then String (ascii_of_N r) ""
  else if (r <? 2048)%N then
    String (ascii_of_N (192 + r / 64)) (String (ascii_of_N (128 + r mod 64)) "")
  else if (55296 <=? r)%N && (r <? 57344)%N then replacement
  else if (r <? 65536)%N then
    String (ascii_of_N (224 + r / 4096))
      (String (ascii_of_N (128 + (r / 64) mod 64))
         (String (ascii_of_N (128 + r mod 64)) ""))
  else if (r <? 1114112)%N then
    String (ascii_of_N (240 + r / 262144))
      (String (ascii_of_N (128 + (r / 4096) mod 64))
         (String (ascii_of_N (128 + (r / 64) mod 64))
            (String (ascii_of_N (128 + r mod 64)) "")))
  else replacement.

(** A [\u] escape, the four digits read: a surrogate needs its other half
    in a second escape, and is U+FFFD without it. *)
Definition unescape_u (r : N) (rest : string) : string * string :=
  if (55296 <=? r)%N && (r <? 57344)%N then
    match rest with
    | String b (String u rest') =>
        if bool_decide (b = backslash) && bool_decide (u = "u"%char) then
          match getu4 rest' with
          | Some (r2, rest'') =>
              if (r <? 56320)%N && (56320 <=? r2)%N && (r2 <? 57344)%N
              then (EncodeRune ((r - 55296) * 1024 + (r2 - 56320) + 65536), rest'')
              else (replacement, rest)
          | None => (replacement, rest)
          end
        else (replacement, rest)
    | _ => (replacement, rest)
    end
  else (EncodeRune r, rest).

Definition simple_escape (a : ascii) : option ascii :=
  if bool_decide (a = quote) then Some quote
  else if bool_decide (a = backslash) then Some backslash
  else if bool_decide (a = "/"%char) then Some "/"%char
  else if bool_decide (a = "b"%char) then Some "008"%char
  else if bool_decide (a = "f"%char) then Some "012"%char
  else if bool_decide (a = "n"%char) then Some "010"%char
  else if bool_decide (a = "r"%char) then Some "013"%char
  else if bool_decide (a = "t"%char) then Some "009"%char
  else None.

Definition prepend (v : string) (r : option (string * string))
  : option (string * string) :=
  match r with
  | Some (s, rest) => Some (v +:+ s, rest)
  | None => None
  end.

(** The inside of a string literal up to its closing quote: the value, and
    what follows the quote. *)
Fixpoint unquote_fuel (fuel : nat) (s : string) : option (string * string) :=
  match fuel with
  | O => None
  | S fuel' =>
      match s with
      | EmptyString => None
      | String c s' =>
          if bool_decide (c = quote) then Some ("", s')
          else if bool_decide (c = backslash) then
            match s' with
            | String e s'' =>
                match simple_escape e with
                | Some v => prepend (String v "") (unquote_fuel fuel' s'')
                | None =>
                    if bool_decide (e = "u"%char) then
                      match getu4 s'' with
                      | Some (r, rest) =>
                          let '(v, rest') := unescape_u r rest in
                          prepend v (unquote_fuel fuel' rest')
                      | None => None
                      end
                    else None
                end
            | EmptyString => None
            end
          else if (code c <? 32)%N then None
          else if (code c <? 128)%N then prepend (String c "") (unquote_fuel fuel' s')
          else
            match DecodeRune s with
            | Some (r, rest) => prepend r (unquote_fuel fuel' rest)
            | None => prepend replacement (unquote_fuel fuel' s')
            end
      end
  end.

Definition parse_string (s : string) : option (string * string) :=
  match s with
  | String q s' =>
      if bool_decide (q = quote) then unquote_fuel (S (String.length s')) s' else None
  | EmptyString => None
  end.

Definition digit_value (a : ascii) : option N :=
  let x := code a in
  if (48 <=? x)%N && (x <=? 57)%N then Some (x - 48)%N else None.

Fixpoint parse_digits (acc : N) (s : string) : N * string :=
  match s with
  | String a s' =>
      match digit_value a with
      | Some d => parse_digits (acc * 10 + d) s'
      | None => (acc, s)
      end
  | EmptyString => (acc, s)
  end.

(** An integer literal; a number with a fraction or an exponent, or beyond
    [2^53], is outside the model. *)
Definition parse_number (s : string) : option (JVal * string) :=
  let '(neg, s1) :=
    match s with
    | String "-" s' => (true, s')
    | _ => (false, s)
    end in
  match s1 with
  | String a s2 =>
      match digit_value a with
      | Some d =>
          let '(n, rest) := if (d =? 0)%N then (0%N, s2) else parse_digits d s2 in
          match rest with
          | String c _ =>
              if bool_decide (c = "."%char) || bool_decide (c = "e"%char)
                 || bool_decide (c = "E"%char) || bool_decide (is_Some (digit_value c))
              then None
              else if (n <=? 2 ^ 53)%N
                   then Some (JNum (Fint (if neg : bool then - Z.of_N n else Z.of_N n)), rest)
                   else None
          | EmptyString =>
              if (n <=? 2 ^ 53)%N
              then Some (JNum (Fint (if neg : bool then - Z.of_N n else Z.of_N n)), rest)
              else None
          end
      | None => None
      end
  | EmptyString => None
  end.

Fixpoint parse_value (fuel : nat) (s : string) {struct fuel} : option (JVal * string) :=
  match fuel with
  | O => None
  | S fuel' =>
      match skip_ws s with
      | EmptyString => None
      | String c r as s1 =>
          if bool_decide (c = "{"%char) then
            match skip_ws r with
            | String "}" r' => Some (JObj ∅, r')
            | _ =>
                match parse_members fuel' ∅ r with
                | Some (m, rest) => Some (JObj m, rest)
                | None => None
                end
            end
          else if bool_decide (c = "["%char) then
            match skip_ws r with
            | String "]" r' => Some (JArr [], r')
            | _ =>
                match parse_elements fuel' [] r with
                | Some (vs, rest) => Some (JArr vs, rest)
                | None => None
                end
            end
          else if bool_decide (c = quote) then
            match parse_string s1 with
            | Some (v, rest) => Some (JStr v, rest)
            | None => None
            end
          else
            match s1 with
            | String "t" (String "r" (String "u" (String "e" rest))) =>
                Some (JBool true, rest)
            | String "f" (String "a" (String "l" (String "s" (String "e" rest)))) =>
                Some (JBool false, rest)
            | String "n" (String "u" (String "l" (String "l" rest))) =>
                Some (JNull, rest)
            | _ => parse_number s1
            end
      end
  end
with parse_members (fuel : nat) (acc : Envelope) (s : string) {struct fuel}
  : option (Envelope * string) :=
  match fuel with
  | O => None
  | S fuel' =>
      match parse_string (skip_ws s) with
      | Some (k, r1) =>
          match skip_ws r1 with
          | String ":" r2 =>
              match parse_value fuel' r2 with
              | Some (v, r3) =>
                  match skip_ws r3 with
                  | String "," r4 => parse_members fuel' (<[k := v]> acc) r4
                  | String "}" r4 => Some (<[k := v]> acc, r4)
                  | _ => None
                  end
              | None => None
              end
          | _ => None
          end
      | None => None
      end
  end
with parse_elements (fuel : nat) (acc : list JVal) (s : string) {struct fuel}
  : option (list JVal * string) :=
  match fuel with
  | O => None
  | S fuel' =>
      match parse_value fuel' s with
      | Some (v, r1) =>
          match skip_ws r1 with
          | String "," r2 => parse_elements fuel' (acc ++ [v]) r2
          | String "]" r2 => Some (acc ++ [v], r2)
          | _ => None
          end
      | None => None
      end
  end.

(** [Decode(&resp)] with [resp map[string]any]: the first value of the
    frame, an object or null. *)
Definition Decode_map (frame : string) : option Envelope :=
  match parse_value (S (String.length frame)) frame with
  | Some (JObj m, _) => Some m
  | Some (JNull, _) => Some ∅
  | _ => None
  end.

(** A text that is read back as a value, when a field or the object ends
    after it. *)
Definition reads_back (t : string) (v : JVal) : Prop :=
  ∀ fuel c rest, c = ","%char ∨ c = "}"%char →
  parse_value (S fuel) (t +:+ String c rest) = Some (v, String c rest).

(** The request [PostMessage] writes, and the envelope with its three
    fields. *)
Definition post_request (tok msg : string) : request :=
  ReqPostMsg {| postMsgReq_Type := typePostMessageReq;
                postMsgReq_Token := tok;
                postMsgReq_Msg := msg |}.

Definition post_envelope (tok msg : string) : Envelope :=
  <["type" := JNum typePostMessageReq]>
    (<["token" := JStr tok]> (<["msg" := JStr msg]> ∅)).

End json.


(** ** More of the packages

    Functions of [connection], [util/stdin], [ui] and [chat] beside the
    ones above, and what is read off the log for them. *)
Section more_observations.
Context {RL DL : Type}.

(** [AddOnDisconnectListener] called for each function of [ls] in turn. *)
Fixpoint register_disc (ls : list DL) : M RL DL unit :=
  match ls with
  | [] => mret ()
  | l :: ls' => connection.AddOnDisconnectListener l;; register_disc ls'
  end.

(** The reads of the receive loop, oldest first. *)
Definition reads (evs : list (event RL DL)) : list ReadResult :=
  omap (λ e, match e with EvReadJSON _ r => Some r | _ => None end) evs.

(** The pauses, in seconds, oldest first. *)
Definition sleeps (evs : list (event RL DL)) : list Z :=
  omap (λ e, match e with EvSleep n => Some n | _ => None end) evs.

End more_observations.

(** The state after [ls] have been appended to the disconnect registry. *)
Definition add_disc {RL DL : Type} (ls : list DL) (st : State RL DL) : State RL DL :=
  set_connH {| conn := conn (connH st); url := url (connH st);
               onResponse := onResponse (connH st);
               onDisconnect := onDisconnect (connH st) ++ ls |} st.

(** ** package stdin, the other prompts *)
Module stdinUtil.
Section stdinUtil.
Context `{Libraries} {RL DL : Type}.
Local Abbreviation M := (M RL DL).

(** [strings.ToLower], which the model does not look into. *)
Variable strings_ToLower : string → string.

(** [AskServerAddress]: the callback is [input == ""]. *)
Definition AskServerAddress_callback (input : string) : M bool :=
  mret (bool_decide (input = "")).

Definition AskServerAddress : M string :=
  stdin.ask true "Enter server address in format of 'host:port': "
    AskServerAddress_callback.

(** The callback of [askYesNo].  The assignment
    [input = strings.ToLower(input)] changes the parameter of the callback,
    not the string that [ask] returns. *)
Definition askYesNo_callback (input : string) : M bool :=
  if decide (input = "") then mret true
  else
    let input := strings_ToLower input in
    if decide (input ≠ "y" ∧ input ≠ "n") then mret true
    else mret false.

(** [askYesNo]: [lo.Ternary(answer == "y", true, false)]. *)
Definition askYesNo (prompt : string) : M bool :=
  answer ← stdin.ask true prompt askYesNo_callback;
  mret (bool_decide (answer = "y")).

(** [AskTLSMode]: the address of the answer. *)
Definition AskTLSMode : M (option bool) :=
  tls ← askYesNo "Connect to server using TLS protocol? (y/n): ";
  mret (Some tls).

(** What [ask] passes to its callback for a line read. *)
Definition input_of (trim : bool) (line : string) : string :=
  if trim then strings_TrimSpace line else line.

(** A callback that answers by [reject], with warnings in the log at most,
    from every state, and leaves the state as it is. *)
Definition decides (callback : string → M bool) (reject : string → bool) : Prop :=
  ∀ input (st : State RL DL), ∃ evs,
    callback input st = (evs, Ret (reject input) st) ∧
    Forall (λ e, match e with EvLog WarnLevel _ => True | _ => False end) evs.

(** The line [ask] stops at: read without error and not rejected. *)
Definition taken (trim : bool) (reject : string → bool)
    (entry : string * option error) : bool :=
  negb (reject (input_of trim entry.1)) && bool_decide (entry.2 = None).

(** The errors of the lines that were neither rejected nor taken. *)
Definition errors_passed (trim : bool) (reject : string → bool)
    (skipped : list (string * option error)) : list error :=
  omap (λ e, if reject (input_of trim e.1) then None else e.2) skipped.

(** What the callbacks reject. *)
Definition rejects_address (input : string) : bool := bool_decide (input = "").
Definition rejects_yes_no (input : string) : bool :=
  bool_decide (input = "")
  || bool_decide (strings_ToLower input ≠ "y" ∧ strings_ToLower input ≠ "n").
Definition rejects_nickname (input : string) : bool :=
  bool_decide (input = "") || bool_decide (20 < String.length input).

(** The prompts printed, oldest first. *)
Definition prompts (evs : list (event RL DL)) : list string :=
  omap (λ e, match e with EvPrint s => Some s | _ => None end) evs.

(** The errors of reading from standard input that were logged. *)
Definition read_errors_logged (evs : list (event RL DL)) : list error :=
  omap (λ e, match e with
             | EvLog ErrorLevel [LErr (WithMessage e "Read from standard input")] => Some e
             | _ => None
             end) evs.

End stdinUtil.

(** [strings.ToLower] on ASCII text. *)
Definition ToLower_byte (a : ascii) : ascii :=
  let n := N_of_ascii a in
  if (65 <=? n)%N && (n <=? 90)%N then ascii_of_N (n + 32) else a.

Fixpoint ToLower_ascii (s : string) : string :=
  match s with
  | EmptyString => EmptyString
  | String a s' => String (ToLower_byte a) (ToLower_ascii s')
  end.

End stdinUtil.

(** ** More on the listeners of package chat *)

(** The type constant a registered response function compares with. *)
Definition listener_type (l : chat.RespListener) : float64 :=
  match l with
  | chat.LoginResponseFn => typeLoginResp
  | chat.ChatMsgToClientFn => typeChatMessageToClient
  | chat.PostMessageResponseFn => typePostMessageResp
  | chat.OnlineUsersFn => typeOnlineUsers
  end.

Section event_kinds.
Context {RL DL : Type}.

Definition is_handover (e : event RL DL) : bool :=
  match e with EvToken _ _ => true | _ => false end.

Definition is_write (e : event RL DL) : bool :=
  match e with EvWriteJSON _ _ _ => true | _ => false end.

(** A run all of whose events are of the kinds [P] admits. *)
Definition emits_only (P : event RL DL → bool)
    (st : State RL DL) (evs : list (event RL DL)) (st' : State RL DL) : Prop :=
  Forall (λ e, P e = true) evs.

(** The chat lines printed, oldest first. *)
Definition chat_lines (evs : list (event RL DL)) : list (string * string * bool) :=
  omap (λ e, match e with
             | EvPrintToChatBox n m s => Some (n, m, s)
             | _ => None
             end) evs.

End event_kinds.

(** ** The other requests on the wire *)

(** The request [login] writes, and the envelope with its two fields. *)
Definition login_request (nickname : string) : request :=
  ReqLogin {| loginReq_Type := typeLoginReq; loginReq_Nickname := nickname |}.

Definition login_envelope (nickname : string) : Envelope :=
  <["type" := JNum typeLoginReq]> (<["nickname" := JStr nickname]> ∅).

(** The request [RequestOnlineUsers] writes, and its envelope. *)
Definition online_users_request (tok : string) : request :=
  ReqOnlineUsers {| onlineUsersReq_Type := typeOnlineUsersReq;
                    onlineUsersReq_Token := tok |}.

Definition online_users_envelope (tok : string) : Envelope :=
  <["type" := JNum typeOnlineUsersReq]> (<["token" := JStr tok]> ∅).

(** ** package ui, the key handlers

    Of [gocui] the model keeps what the handlers of [ui/chat.go] rely on:
    a GUI is the names of its views, in order of creation, and the view
    that has the focus; [View(name)] and [SetCurrentView(name)] fail with
    [ErrUnknownView] for a name that is not among them; [SetView] refuses
    [x0 >= x1] and [y0 >= y1], and makes the view and answers
    [ErrUnknownView] when the name is new; [DeleteView] takes the name out
    and leaves the focus where it was; [SetOrigin] refuses a negative
    coordinate. *)
Module ui_chat.

Definition ChatBoxName : string := "chat_box".
Definition inputFieldName : string := "input_field".
Definition onlineBoxName : string := "online_box".

(** Go's [int] on the platforms of the program: 64 bits, two's complement. *)
Definition int (z : Z) : Z := ((z + 2 ^ 63) mod 2 ^ 64 - 2 ^ 63)%Z.

(** *** scroll *)

(** Of a [gocui.View]: the height [Size()] returns, the origin, the number
    of newlines in [ViewBuffer()], and the flag. *)
Record View : Type := {
  sizeY : Z;
  originX : Z;
  originY : Z;
  newlines : Z;
  Autoscroll : bool
}.

Definition set_Autoscroll (b : bool) (v : View) : View :=
  {| sizeY := sizeY v; originX := originX v; originY := originY v;
     newlines := newlines v; Autoscroll := b |}.

(** [view.SetOrigin(x, y)]. *)
Definition SetOrigin (x y : Z) (v : View) : View * option error :=
  if ((x <? 0) || (y <? 0))%Z then (v, Some (ErrorString "invalid point"))
  else ({| sizeY := sizeY v; originX := x; originY := y;
           newlines := newlines v; Autoscroll := Autoscroll v |}, None).

(** [scroll(step, view)]. *)
Definition scroll (step : Z) (view : View) : View :=
  let sizeY := sizeY view in
  let originX := originX view in
  let originY := originY view in
  if (int (originY + step) >? int (int (newlines view - sizeY) - 1))%Z then
    set_Autoscroll true view
  else
    let view := set_Autoscroll false view in
    if (int (originY + step) >? 0)%Z then
      (SetOrigin originX (int (originY + step)) view).1
    else view.

Definition scrollUp (view : View) : View := scroll (-1) view.
Definition scrollDown (view : View) : View := scroll 1 view.

(** *** nextView and toggleOnlineBox *)

Record Gui : Type := {
  views : list string;
  currentView : option string;
  Cursor : bool
}.

(** The fields of [Chat] the two handlers use. *)
Record Chat : Type := {
  gui : Gui;
  visibleViews : list string;
  currentViewIdx : Z
}.

Definition has_view (g : Gui) (name : string) : bool := bool_decide (name ∈ views g).

Definition ErrUnknownView : error := ErrorString "unknown view".

(** What a handler comes to: it returns an error or nil, or it panics. *)
Inductive outcome : Type :=
| Done (err : option error) (c : Chat)
| Panic (msg : string).

(** [nextView(gui, view)]; [view] is nil or the view it names. *)
Definition nextView (view : option string) (c : Chat) : outcome :=
  let len := Z.of_nat (length (visibleViews c)) in
  if (len =? 0)%Z then Panic "integer divide by zero"
  else
    let nextViewIdx := Z.rem (int (currentViewIdx c + 1)) len in
    if (nextViewIdx <? 0)%Z then Panic "index out of range"
    else
      match visibleViews c !! Z.to_nat nextViewIdx with
      | None => Panic "index out of range"
      | Some nextView =>
          if has_view (gui c) nextView then
            match view with
            | None => Panic "invalid memory address or nil pointer dereference"
            | Some name =>
                Done None
                  {| gui := {| views := views (gui c);
                               currentView := Some nextView;
                               Cursor := bool_decide (name = ChatBoxName) |};
                     visibleViews := visibleViews c;
                     currentViewIdx := nextViewIdx |}
            end
          else
            Done (Some (WithMessage ErrUnknownView ("Focus view " +:+ nextView))) c
      end.

(** [lo.Without(collection, exclude)]. *)
Definition lo_Without (collection : list string) (exclude : string) : list string :=
  filter (λ x, x ≠ exclude) collection.

(** [gui.SetView(name, x0, y0, x1, y1)]. *)
Definition SetView (g : Gui) (name : string) (x0 y0 x1 y1 : Z) : Gui * option error :=
  if ((x0 >=? x1) || (y0 >=? y1))%Z then (g, Some (ErrorString "invalid dimensions"))
  else if bool_decide (name = "") then (g, Some (ErrorString "invalid name"))
  else if has_view g name then (g, None)
  else ({| views := views g ++ [name]; currentView := currentView g;
           Cursor := Cursor g |}, Some ErrUnknownView).

(** [errors.Is(err, gocui.ErrUnknownView)]. *)
Definition is_ErrUnknownView (err : option error) : bool :=
  match err with
  | Some e =>
      match errors_Cause e with
      | ErrorString "unknown view" => true
      | _ => false
      end
  | None => false
  end.

(** [gui.DeleteView(name)]. *)
Definition DeleteView (g : Gui) (name : string) : Gui * option error :=
  if has_view g name then
    ({| views := filter (λ x, x ≠ name) (views g); currentView := currentView g;
        Cursor := Cursor g |}, None)
  else (g, Some ErrUnknownView).

(** [toggleOnlineBox(gui, view)] on a terminal of [maxX] columns and [maxY]
    rows.  The boolean tells whether the on-open listeners were run. *)
Definition toggleOnlineBox (maxX maxY : Z) (c : Chat) : outcome * bool :=
  if negb (has_view (gui c) onlineBoxName) then
    let '(g, err) := SetView (gui c) onlineBoxName (int (maxX - 20)) 0
                       (int (maxX - 1)) (int (maxY - 8)) in
    if negb (is_ErrUnknownView err) then
      (Done (errors_Wrap err "Create view for online_box")
         {| gui := g; visibleViews := visibleViews c;
            currentViewIdx := currentViewIdx c |}, false)
    else
      (Done None
         {| gui := g; visibleViews := visibleViews c ++ [onlineBoxName];
            currentViewIdx := currentViewIdx c |}, true)
  else
    let visible := lo_Without (visibleViews c) onlineBoxName in
    let '(g, err) := DeleteView (gui c) onlineBoxName in
    (Done (errors_Wrap err "Delete view")
       {| gui := g; visibleViews := visible; currentViewIdx := currentViewIdx c |},
     false).

(** The keys: Tab runs [nextView] with the view that has the focus, F2 runs
    [toggleOnlineBox]. *)
Inductive key : Type :=
| KeyTab
| KeyF2 (maxX maxY : Z).

Definition press (k : key) (c : Chat) : outcome :=
  match k with
  | KeyTab => nextView (currentView (gui c)) c
  | KeyF2 maxX maxY => (toggleOnlineBox maxX maxY c).1
  end.

(** A run of key presses.  An error that a handler returns ends the main
    loop of the GUI, a panic ends the process: the run stops there. *)
Fixpoint presses (ks : list key) (c : Chat) : outcome :=
  match ks with
  | [] => Done None c
  | k :: ks' =>
      match press k c with
      | Done None c' => presses ks' c'
      | stop => stop
      end
  end.

(** The UI after the first pass of the layout functions: the chat box and
    the input field exist, in this order, the input field has the focus,
    the cursor is on as [NewChat] set it, and the index is the zero value. *)
Definition after_layout : Chat :=
  {| gui := {| views := [ChatBoxName; inputFieldName];
               currentView := Some inputFieldName;
               Cursor := true |};
     visibleViews := [ChatBoxName; inputFieldName];
     currentViewIdx := 0 |}.

(** The states the keys lead to: the online box closed or open, the views
    of the GUI the visible ones, the index at most one past the end. *)
Definition navigable (c : Chat) : Prop :=
  (visibleViews c = [ChatBoxName; inputFieldName] ∨
   visibleViews c = [ChatBoxName; inputFieldName; onlineBoxName]) ∧
  views (gui c) = visibleViews c ∧
  (0 ≤ currentViewIdx c ≤ 2)%Z ∧
  is_Some (currentView (gui c)).

(** A terminal on which the online box fits. *)
Definition roomy (k : key) : Prop :=
  match k with
  | KeyTab => True
  | KeyF2 maxX maxY => (0 ≤ maxX < 2 ^ 31 ∧ 8 < maxY < 2 ^ 31)%Z
  end.

(** *** The layout functions *)

(** [chatBoxLayout(gui)] on a terminal of [maxX] columns and [maxY] rows. *)
Definition chatBoxLayout (maxX maxY : Z) (c : Chat) : Chat * option error :=
  let '(g, err) := SetView (gui c) ChatBoxName 0 0 (int (maxX - 1)) (int (maxY - 8)) in
  let c := {| gui := g; visibleViews := visibleViews c;
              currentViewIdx := currentViewIdx c |} in
  if negb (is_ErrUnknownView err) then
    (c, errors_Wrap err "Create view for chat_box")
  else
    ({| gui := g; visibleViews := visibleViews c ++ [ChatBoxName];
        currentViewIdx := currentViewIdx c |}, None).

(** [inputFieldLayout(gui)]. *)
Definition inputFieldLayout (maxX maxY : Z) (c : Chat) : Chat * option error :=
  let '(g, err) := SetView (gui c) inputFieldName 0 (int (maxY - 7))
                     (int (maxX - 1)) (int (maxY - 1)) in
  let c := {| gui := g; visibleViews := visibleViews c;
              currentViewIdx := currentViewIdx c |} in
  if negb (is_ErrUnknownView err) then
    (c, errors_Wrap err "Create view for input_field")
  else
    let c := {| gui := g; visibleViews := visibleViews c ++ [inputFieldName];
                currentViewIdx := currentViewIdx c |} in
    if has_view g inputFieldName then
      ({| gui := {| views := views g; currentView := Some inputFieldName;
                    Cursor := Cursor g |};
          visibleViews := visibleViews c; currentViewIdx := currentViewIdx c |}, None)
    else (c, Some (WithMessage ErrUnknownView "Focus view input_field")).

(** One pass of the managers that [Draw] sets, in their order; the first
    error ends the pass. *)
Definition layout (maxX maxY : Z) (c : Chat) : Chat * option error :=
  match chatBoxLayout maxX maxY c with
  | (c', None) => inputFieldLayout maxX maxY c'
  | stop => stop
  end.

(** The UI as [NewChat] returns it: no view yet, the cursor on. *)
Definition NewChat : Chat :=
  {| gui := {| views := []; currentView := None; Cursor := true |};
     visibleViews := []; currentViewIdx := 0 |}.

(** *** sendMessage *)
Section sendMessage.
Context `{Libraries} {RL DL : Type}.
Local Abbreviation M := (M RL DL).

(** [for _, listener := range c.onMsgSend
       { listener(strings.TrimSpace(inputField.Buffer())) }]. *)
Fixpoint range_onMsgSend (ls : list (string → M unit)) (buffer : string) : M unit :=
  match ls with
  | [] => mret ()
  | listener :: ls' =>
      listener (strings_TrimSpace buffer);; range_onMsgSend ls' buffer
  end.

(** [sendMessage(gui, view)].  [inputField] is the buffer of the input
    field, or [None] when the GUI has no such view; [setCursor] is what
    [inputField.SetCursor(0, 0)] returns.  The result is the error and the
    buffer of the input field afterwards. *)
Definition sendMessage (onMsgSend : list (string → M unit))
    (inputField : option string) (setCursor : option error)
  : M (option error * option string) :=
  match inputField with
  | None => mret (Some (WithMessage ErrUnknownView "Get view input_field"), None)
  | Some buffer =>
      range_onMsgSend onMsgSend buffer;;
      mret (errors_Wrap setCursor "Reset cursor after message was sent", Some "")
  end.

End sendMessage.

End ui_chat.

(** ** The nickname of the login requests *)
Section nickname.
Context {RL DL : Type}.

(** A login request as [login] builds it from a nickname that is set. *)
Definition login_named (req : request) : Prop :=
  match req with
  | ReqLogin r => loginReq_Type r = typeLoginReq ∧ loginReq_Nickname r ≠ ""
  | _ => True
  end.

(** Code that leaves the configuration alone and writes nothing. *)
Definition plain (st : State RL DL) (evs : list (event RL DL)) (st' : State RL DL)
  : Prop :=
  cfg st' = cfg st ∧ writes evs = [].

(** Code that, run with a nickname set, leaves a nickname set and writes
    login requests with a nickname only. *)
Definition nick_frame (st : State RL DL) (evs : list (event RL DL))
    (st' : State RL DL) : Prop :=
  Nickname (cfg st) ≠ "" →
  Nickname (cfg st') ≠ "" ∧ Forall login_named (writes evs).

End nickname.

(** What holds of the program at every time of every run: [main] is at
    statement [k]; the receive loop runs from statement 4 on only; from
    statement 3 on, after the nickname has been asked for if need be, the
    nickname is set; and every login request written had a nickname. *)
Definition named_inv_at `{Libraries} (k : nat) (s : main.System) : Prop :=
  main.main_rest s = drop k main.body ∧
  (main.listening s = true → 4 ≤ k) ∧
  (3 ≤ k → Nickname (cfg (main.sys_state s)) ≠ "") ∧
  Forall login_named (writes (main.sys_log s)).

Definition named_inv `{Libraries} (s : main.System) : Prop := ∃ k, named_inv_at k s.


(** * Properties *)

(** ** The monad *)
Section monad_facts.
Context {RL DL : Type}.
Local Abbreviation M := (M RL DL).

Lemma bind_run {A B} (m : M A) (k : A → M B) st :
  (m ≫= k) st =
  match m st with
  | (evs, Ret a st') => after evs (k a st')
  | (evs, Blocked why st') => (evs, Blocked why st')
  | (evs, Panicked msg st') => (evs, Panicked msg st')
  end.
Proof.
  unfold mbind, M_bind, bind, after.
  destruct (m st) as [evs [a st'|why st'|msg st']]; try reflexivity.
  by destruct (k a st').
Qed.

Lemma after_nil {A} (out : list (event RL DL) * res (State RL DL) A) :
  after [] out = out.
Proof. by destruct out. Qed.

Lemma after_after {A} evs1 evs2 (out : list (event RL DL) * res (State RL DL) A) :
  after evs1 (after evs2 out) = after (evs1 ++ evs2) out.
Proof. unfold after. simpl. by rewrite app_assoc. Qed.

Lemma after_pair {A} evs1 evs2 (r : res (State RL DL) A) :
  after evs1 (evs2, r) = (evs1 ++ evs2, r).
Proof. done. Qed.

Lemma bind_ret {A B} (a : A) (k : A → M B) st : (mret a ≫= k) st = k a st.
Proof. rewrite bind_run. apply after_nil. Qed.

Lemma bind_get {B} (k : State RL DL → M B) st : (get ≫= k) st = k st st.
Proof. rewrite bind_run. apply after_nil. Qed.

Lemma bind_modify {B} f (k : unit → M B) st : (modify f ≫= k) st = k () (f st).
Proof. rewrite bind_run. apply after_nil. Qed.

Lemma bind_emit {B} e (k : unit → M B) st : (emit e ≫= k) st = after [e] (k () st).
Proof. by rewrite bind_run. Qed.

Lemma bind_log {B} lvl args (k : unit → M B) st :
  (log lvl args ≫= k) st = after [EvLog lvl args] (k () st).
Proof. by rewrite bind_run. Qed.

Lemma bind_Sleep {B} n (k : unit → M B) st :
  (time_Sleep n ≫= k) st = after [EvSleep n] (k () st).
Proof. by rewrite bind_run. Qed.

Lemma bind_block {A B} (why : blocked_on) (k : A → M B) st :
  ((park why : M A) ≫= k) st = ([], Blocked why st).
Proof. by rewrite bind_run. Qed.

Lemma bind_panic {A B} (msg : string) (k : A → M B) st :
  ((panic msg : M A) ≫= k) st = ([], Panicked msg st).
Proof. by rewrite bind_run. Qed.

Lemma bind_bind {A B C} (m : M A) (k1 : A → M B) (k2 : B → M C) st :
  ((m ≫= k1) ≫= k2) st = (m ≫= λ a, k1 a ≫= k2) st.
Proof.
  rewrite !bind_run.
  destruct (m st) as [evs [a st'|why st'|msg st']]; try done.
  rewrite bind_run.
  destruct (k1 a st') as [evs' [b st''|why st''|msg st'']]; try done.
  unfold after. simpl. by rewrite app_assoc.
Qed.

Lemma ret_run {A} (a : A) st : (mret a : M A) st = ([], Ret a st).
Proof. done. Qed.

Lemma emit_run e st : emit (RL:=RL) (DL:=DL) e st = ([e], Ret () st).
Proof. done. Qed.

Lemma log_run lvl args st : log (RL:=RL) (DL:=DL) lvl args st = ([EvLog lvl args], Ret () st).
Proof. done. Qed.

Lemma block_run {A} why st : park (RL:=RL) (DL:=DL) (A:=A) why st = ([], Blocked why st).
Proof. done. Qed.

Lemma modify_run f st : modify (RL:=RL) (DL:=DL) f st = ([], Ret () (f st)).
Proof. done. Qed.

Lemma get_run st : get (RL:=RL) (DL:=DL) st = ([], Ret st st).
Proof. done. Qed.

Lemma writes_app (a b : list (event RL DL)) :
  writes (a ++ b) = writes a ++ writes b.
Proof. apply omap_app. Qed.

End monad_facts.

Create Rewrite HintDb mrun.
#[global] Hint Rewrite @bind_ret @bind_get @bind_modify @bind_emit @bind_log
  @bind_Sleep @bind_block @bind_panic @bind_bind @after_nil @after_after
  @after_pair @ret_run @emit_run @log_run @block_run @modify_run @get_run : mrun.

Ltac mrun := autorewrite with mrun.

(** ** The dispatch loops of [Listen] *)
Section dispatch_facts.
Context {RL DL : Type} {L A : Type}.
Variable call : L → A → M RL DL unit.
Variable mark : L → A → event RL DL.
Variable arg : A.
Implicit Types (st : State RL DL) (ls : list L).
Implicit Types sofar : list (event RL DL) * res (State RL DL) unit.

Lemma then_invoke_stays ls sofar :
  ¬ returns sofar.2 → foldl (then_invoke call mark arg) sofar ls = sofar.
Proof.
  intros Hstuck. induction ls as [|l ls IH]; [done|].
  simpl. replace (then_invoke call mark arg sofar l) with sofar; [done|].
  unfold then_invoke. destruct sofar as [evs [[] st|why st|msg st]]; simpl in *; tauto.
Qed.

(** The events of a dispatch so far stay as they are when more listeners
    follow. *)
Lemma then_invoke_extends ls sofar :
  ∃ rest, (foldl (then_invoke call mark arg) sofar ls).1 = sofar.1 ++ rest.
Proof.
  revert sofar. induction ls as [|l ls IH]; intros sofar; simpl.
  { exists []. by rewrite app_nil_r. }
  destruct (IH (then_invoke call mark arg sofar l)) as [rest ->].
  unfold then_invoke. destruct sofar as [evs [[] st|why st|msg st]]; simpl.
  - eexists. rewrite <- !app_assoc. reflexivity.
  - eexists. reflexivity.
  - eexists. reflexivity.
Qed.

Lemma invoked_in_order_app ls1 ls2 st :
  invoked_in_order call mark arg (ls1 ++ ls2) st
  = foldl (then_invoke call mark arg) (invoked_in_order call mark arg ls1 st) ls2.
Proof. apply foldl_app. Qed.

(** A listener is invoked as soon as the ones before it have returned, in
    the state they left. *)
Lemma invoked_in_order_next ls1 l ls2 st e1 s1 :
  invoked_in_order call mark arg ls1 st = (e1, Ret () s1) →
  ∃ rest,
    events_of (invoked_in_order call mark arg (ls1 ++ l :: ls2) st)
    = e1 ++ mark l arg :: events_of (call l arg s1) ++ rest.
Proof.
  intros H1. rewrite invoked_in_order_app, H1. simpl.
  destruct (then_invoke_extends ls2 (then_invoke call mark arg (e1, Ret () s1) l))
    as [rest Hrest].
  exists rest. unfold events_of. rewrite Hrest. unfold then_invoke, after. simpl.
  by rewrite <- !app_assoc.
Qed.

(** A listener that does not return ends the dispatch: the ones after it
    are not invoked. *)
Lemma invoked_in_order_stuck ls1 l ls2 st e1 s1 e r :
  invoked_in_order call mark arg ls1 st = (e1, Ret () s1) →
  call l arg s1 = (e, r) → ¬ returns r →
  invoked_in_order call mark arg (ls1 ++ l :: ls2) st = (e1 ++ mark l arg :: e, r).
Proof.
  intros H1 Hl Hstuck. rewrite invoked_in_order_app, H1. simpl.
  unfold then_invoke at 2. simpl. rewrite Hl. unfold after. simpl.
  rewrite then_invoke_stays by done. by rewrite <- app_assoc.
Qed.

(** When every listener returns, so does the dispatch. *)
Lemma invoked_in_order_returns ls st :
  (∀ l s, l ∈ ls → returns (result_of (call l arg s))) →
  returns (result_of (invoked_in_order call mark arg ls st)).
Proof.
  unfold invoked_in_order. generalize (@nil (event RL DL)). revert st.
  induction ls as [|l ls IH]; intros st evs Hret; [done|].
  simpl. unfold then_invoke at 2. simpl.
  pose proof (Hret l st (list_elem_of_here _ _)) as Hl.
  destruct (call l arg st) as [e [[] st'|why st'|msg st']]; try done.
  unfold after. simpl. apply IH. intros l' s Hin. apply Hret. by right.
Qed.

End dispatch_facts.

Section range_facts.
Context {RL DL : Type}.
Variable call_resp : RL → Envelope → M RL DL unit.
Variable call_disc : DL → error → M RL DL unit.
Implicit Types (st : State RL DL).

(** The [range] loops of [Listen] are this dispatch. *)
Lemma range_onResponse_from ls resp st evs :
  foldl (then_invoke call_resp EvRespListener resp) (evs, Ret () st) ls
  = after evs (connection.range_onResponse call_resp ls resp st).
Proof.
  revert st evs. induction ls as [|l ls IH]; intros st evs; simpl.
  { unfold after. simpl. by rewrite app_nil_r. }
  rewrite bind_emit, bind_run. unfold then_invoke at 2. simpl.
  destruct (call_resp l resp st) as [e [[] st'|why st'|msg st']].
  - unfold after at 1. simpl. rewrite IH, !after_after. by rewrite <- app_assoc.
  - rewrite then_invoke_stays by (simpl; tauto). unfold after. simpl.
    by rewrite <- app_assoc.
  - rewrite then_invoke_stays by (simpl; tauto). unfold after. simpl.
    by rewrite <- app_assoc.
Qed.

Lemma range_onResponse_invoked ls resp st :
  connection.range_onResponse call_resp ls resp st
  = invoked_in_order call_resp EvRespListener resp ls st.
Proof.
  unfold invoked_in_order. rewrite range_onResponse_from. by rewrite after_nil.
Qed.

Lemma range_onDisconnect_from ls err st evs :
  foldl (then_invoke call_disc EvDisconnectListener err) (evs, Ret () st) ls
  = after evs (connection.range_onDisconnect call_disc ls err st).
Proof.
  revert st evs. induction ls as [|l ls IH]; intros st evs; simpl.
  { unfold after. simpl. by rewrite app_nil_r. }
  rewrite bind_emit, bind_run. unfold then_invoke at 2. simpl.
  destruct (call_disc l err st) as [e [[] st'|why st'|msg st']].
  - unfold after at 1. simpl. rewrite IH, !after_after. by rewrite <- app_assoc.
  - rewrite then_invoke_stays by (simpl; tauto). unfold after. simpl.
    by rewrite <- app_assoc.
  - rewrite then_invoke_stays by (simpl; tauto). unfold after. simpl.
    by rewrite <- app_assoc.
Qed.

Lemma range_onDisconnect_invoked ls err st :
  connection.range_onDisconnect call_disc ls err st
  = invoked_in_order call_disc EvDisconnectListener err ls st.
Proof.
  unfold invoked_in_order. rewrite range_onDisconnect_from. by rewrite after_nil.
Qed.

(** An iteration that decodes an envelope, and the loop from there. *)
Lemma Listen_iteration_ReadOk resp st c :
  conn (connH st) = Some c →
  let d := invoked_in_order call_resp EvRespListener resp (onResponse (connH st)) st in
  connection.Listen_iteration call_resp call_disc (ReadOk resp) st
  = (EvReadJSON c (ReadOk resp) :: events_of d, iteration_end (result_of d)).
Proof.
  intros Hc d. subst d. unfold connection.Listen_iteration.
  rewrite bind_get, Hc, bind_emit, bind_run, range_onResponse_invoked.
  by destruct (invoked_in_order _ _ _ _ _) as [evs [[] st'|why st'|msg st']];
    unfold after; simpl; rewrite ?app_nil_r.
Qed.

(** An iteration that reads a close error or a network error. *)
Lemma Listen_iteration_lost err st c :
  conn (connH st) = Some c →
  As_CloseError err || As_netError err = true →
  let d := invoked_in_order call_disc EvDisconnectListener err
             (onDisconnect (connH st)) st in
  connection.Listen_iteration call_resp call_disc (ReadErr err) st
  = (EvReadJSON c (ReadErr err) :: events_of d, iteration_end (result_of d)).
Proof.
  intros Hc Hclass d. subst d. unfold connection.Listen_iteration.
  rewrite bind_get, Hc, bind_emit, Hclass, bind_run, range_onDisconnect_invoked.
  by destruct (invoked_in_order _ _ _ _ _) as [evs [[] st'|why st'|msg st']];
    unfold after; simpl; rewrite ?app_nil_r.
Qed.

(** The loop after an iteration that dispatched. *)
Lemma Listen_after_dispatch r rs st evs d :
  connection.Listen_iteration call_resp call_disc r st = (evs, iteration_end d) →
  connection.Listen call_resp call_disc (r :: rs) st
  = loop_goes_on evs d (connection.Listen call_resp call_disc rs).
Proof.
  intros Hit. simpl. rewrite bind_run, Hit.
  by destruct d as [[] st'|why st'|msg st'].
Qed.

End range_facts.

(** ** The receive loop *)

(** The claim of C1 fails when a listener does not return.  The program
    has logged in, [main] has taken its token and registered the last of
    the four listeners: nobody waits for a token any more.  The server
    sends one more login response with status ok, and then another frame.
    The login listener, invoked first, waits in [h.tokenCh <- r.Token]: the
    three listeners after it are not invoked with the envelope, and the loop
    does not read the second frame. *)
Lemma Listen_does_not_go_on_past_a_waiting_listener :
  let resp := login_response "T2" statusOk in
  let s := main.run (H:=wire_libraries)
             (replicate 9 main.RunMain
              ++ [main.RunListen (ReadOk (login_response "T" statusOk))]
              ++ replicate 8 main.RunMain)
             (main.start (H:=wire_libraries) example_cfg [DialOk open_conn] []) in
  let st := main.sys_state s in
  main.main_rest s = [] ∧
  onResponse (connH st)
  = [chat.LoginResponseFn; chat.ChatMsgToClientFn;
     chat.PostMessageResponseFn; chat.OnlineUsersFn] ∧
  chan_recvq (tokenCh (chatH st)) = [] ∧
  chat.Listen (H:=wire_libraries) [ReadOk resp; ReadOk resp] st
  = ([EvReadJSON open_conn (ReadOk resp);
      EvRespListener chat.LoginResponseFn resp;
      EvLog InfoLevel [LStr "Login successful"]],
     Blocked OnSend st).
Proof. repeat split; vm_compute; reflexivity. Qed.

(** C1, amended.  One iteration of the receive loop, and the loop from
    there, by what the read returns.
    - A close error or a network error: the disconnect listeners are
      invoked with that error one after the other in the order of the
      registry, each in the state the one before it left; no response
      listener is invoked.
    - Any other error: no listener is invoked and [Listen] returns that
      error, wrapped, whatever would be read next.
    - A decoded envelope: the response listeners are invoked with it in the
      same way; no disconnect listener is invoked.
    In the two cases with a dispatch the loop goes on with the next read
    when the listeners have returned, from the state they left; a listener
    that does not return ends the dispatch and the loop there. *)
Theorem Listen_iteration_by_read_result {RL DL : Type}
    (call_resp : RL → Envelope → M RL DL unit)
    (call_disc : DL → error → M RL DL unit)
    (r : ReadResult) (rs : list ReadResult) (st : State RL DL) (c : WsConn)
    (Hconn : conn (connH st) = Some c) :
  let it := connection.Listen_iteration call_resp call_disc r st in
  let loop := connection.Listen call_resp call_disc (r :: rs) st in
  let next := connection.Listen call_resp call_disc rs in
  match r with
  | ReadErr err =>
      if As_CloseError err || As_netError err then
        let d := invoked_in_order call_disc EvDisconnectListener err
                   (onDisconnect (connH st)) st in
        it = (EvReadJSON c r :: events_of d, iteration_end (result_of d)) ∧
        loop = loop_goes_on (EvReadJSON c r :: events_of d) (result_of d) next
      else
        it = ([EvReadJSON c r],
              Ret (Some (WithMessage err "Read JSON from connection")) st) ∧
        loop = ([EvReadJSON c r],
                Ret (WithMessage err "Read JSON from connection") st)
  | ReadOk resp =>
      let d := invoked_in_order call_resp EvRespListener resp
                 (onResponse (connH st)) st in
      it = (EvReadJSON c r :: events_of d, iteration_end (result_of d)) ∧
      loop = loop_goes_on (EvReadJSON c r :: events_of d) (result_of d) next
  end.
Proof.
  intros it loop next. subst it loop next.
  destruct r as [resp|err].
  - pose proof (Listen_iteration_ReadOk call_resp call_disc resp st c Hconn) as Hit.
    simpl in Hit. split; [exact Hit|]. by apply Listen_after_dispatch.
  - destruct (As_CloseError err || As_netError err) eqn:Hclass.
    + pose proof (Listen_iteration_lost call_resp call_disc err st c Hconn Hclass)
        as Hit.
      simpl in Hit. split; [exact Hit|]. by apply Listen_after_dispatch.
    + assert (Hit : connection.Listen_iteration call_resp call_disc (ReadErr err) st
                    = ([EvReadJSON c (ReadErr err)],
                       Ret (Some (WithMessage err "Read JSON from connection")) st)).
      { unfold connection.Listen_iteration.
        by rewrite bind_get, Hconn, bind_emit, Hclass. }
      split; [exact Hit|]. simpl. by rewrite bind_run, Hit.
Qed.

Lemma Listen_iteration_by_read_result_witness :
  let err := CloseError 1006 "unexpected EOF" in
  let st : State nat nat :=
    set_connH {| conn := Some open_conn; url := url (connH (@fresh_state nat nat));
                 onResponse := [7]; onDisconnect := [1; 2] |} fresh_state in
  let dispatch :=
    [EvReadJSON open_conn (ReadErr err);
     EvDisconnectListener 1 err; EvLog InfoLevel [LNum (Fint 1)];
     EvDisconnectListener 2 err; EvLog InfoLevel [LNum (Fint 2)]] in
  connection.Listen_iteration noting_resp noting_disc (ReadErr err) st
  = (dispatch, Ret None st) ∧
  connection.Listen noting_resp noting_disc
    [ReadErr err; ReadErr (ErrorString "invalid character")] st
  = (dispatch ++ [EvReadJSON open_conn (ReadErr (ErrorString "invalid character"))],
     Ret (WithMessage (ErrorString "invalid character") "Read JSON from connection") st).
Proof.
  intros err st dispatch.
  exact (Listen_iteration_by_read_result noting_resp noting_disc (ReadErr err)
           [ReadErr (ErrorString "invalid character")] st open_conn eq_refl).
Defined.

(** ** Registration and dispatch *)
Section registration_facts.
Context {RL DL : Type}.

Lemma add_resp_nil (st : State RL DL) : add_resp [] st = st.
Proof.
  destruct st as [[c u rs ds] ch cf dq sq]. unfold add_resp, set_connH. simpl.
  by rewrite app_nil_r.
Qed.

Lemma add_resp_cons l ls (st : State RL DL) :
  add_resp ls (add_resp [l] st) = add_resp (l :: ls) st.
Proof.
  unfold add_resp, set_connH. simpl. by rewrite <- app_assoc.
Qed.

Lemma register_resp_run (ls : list RL) (st : State RL DL) :
  register_resp ls st = (EvAddOnRespListener <$> ls, Ret () (add_resp ls st)).
Proof.
  revert st. induction ls as [|l ls IH]; intros st; simpl.
  - by rewrite add_resp_nil.
  - rewrite bind_run. unfold connection.AddOnRespListener. rewrite bind_run. simpl.
    unfold after. simpl. rewrite IH. simpl.
    by rewrite <- add_resp_cons.
Qed.

End registration_facts.

(** The claim of C2 fails when a listener does not return.  Three listeners
    of the program are registered, the one for chat messages first, and
    nobody waits for a token.  On a login response with status ok the first
    listener is invoked and returns, the login listener is invoked and
    waits in [h.tokenCh <- r.Token], and the online-users listener,
    registered after it, is skipped. *)
Lemma a_listener_behind_a_waiting_one_is_skipped :
  let resp := login_response "T" statusOk in
  let registered := [chat.ChatMsgToClientFn; chat.LoginResponseFn; chat.OnlineUsersFn] in
  ∃ st1,
    result_of (register_resp registered (connected_state open_conn)) = Ret () st1 ∧
    onResponse (connH st1) = registered ∧
    let it := connection.Listen_iteration (chat.call_resp (H:=wire_libraries))
                chat.call_disc (ReadOk resp) st1 in
    resp_calls (events_of it)
    = [(chat.ChatMsgToClientFn, resp); (chat.LoginResponseFn, resp)] ∧
    result_of it = Blocked OnSend st1.
Proof.
  intros resp registered. eexists. split; [reflexivity|]. split; [reflexivity|].
  split; vm_compute; reflexivity.
Qed.

(** C2, amended.  After response listeners have been registered one after
    the other, the iteration that decodes an envelope invokes them with
    that envelope in the order of registration, after the ones registered
    before, each in the goroutine of the loop and in the state the one
    before it left.  A listener is invoked as soon as all the ones before
    it have returned: none of these is skipped.  When every listener
    returns the iteration returns; a listener that does not return ends the
    dispatch, and the ones registered after it are not invoked. *)
Theorem response_listeners_called_in_registration_order {RL DL : Type}
    (call_resp : RL → Envelope → M RL DL unit)
    (call_disc : DL → error → M RL DL unit)
    (ls : list RL) (resp : Envelope) (st : State RL DL) (c : WsConn)
    (Hconn : conn (connH st) = Some c) :
  ∃ st1,
    result_of (register_resp ls st) = Ret () st1 ∧
    onResponse (connH st1) = onResponse (connH st) ++ ls ∧
    let it := connection.Listen_iteration call_resp call_disc (ReadOk resp) st1 in
    let registered := onResponse (connH st) ++ ls in
    let d := invoked_in_order call_resp EvRespListener resp registered st1 in
    it = (EvReadJSON c (ReadOk resp) :: events_of d, iteration_end (result_of d)) ∧
    (∀ before l behind e1 s1,
       registered = before ++ l :: behind →
       invoked_in_order call_resp EvRespListener resp before st1 = (e1, Ret () s1) →
       ∃ rest, events_of it
               = EvReadJSON c (ReadOk resp) :: e1
                 ++ EvRespListener l resp :: events_of (call_resp l resp s1) ++ rest) ∧
    (∀ before l behind e1 s1 e r,
       registered = before ++ l :: behind →
       invoked_in_order call_resp EvRespListener resp before st1 = (e1, Ret () s1) →
       call_resp l resp s1 = (e, r) → ¬ returns r →
       it = (EvReadJSON c (ReadOk resp) :: e1 ++ EvRespListener l resp :: e,
             iteration_end r)) ∧
    ((∀ l s, l ∈ registered → returns (result_of (call_resp l resp s))) →
     returns (result_of it)).
Proof.
  exists (add_resp ls st). rewrite register_resp_run. split; [done|]. split; [done|].
  intros it registered d.
  assert (Hit : it = (EvReadJSON c (ReadOk resp) :: events_of d,
                      iteration_end (result_of d))).
  { subst it d registered.
    by rewrite (Listen_iteration_ReadOk call_resp call_disc resp _ c). }
  split; [exact Hit|]. split; [|split].
  - intros before l behind e1 s1 Hsplit Hbefore.
    destruct (invoked_in_order_next call_resp EvRespListener resp before l behind
                (add_resp ls st) e1 s1 Hbefore) as [rest Hrest].
    exists rest. rewrite Hit. unfold events_of at 1. simpl.
    subst d. by rewrite Hsplit, Hrest.
  - intros before l behind e1 s1 e r Hsplit Hbefore Hl Hstuck.
    rewrite Hit. subst d. rewrite Hsplit.
    by rewrite (invoked_in_order_stuck call_resp EvRespListener resp before l behind
                  (add_resp ls st) e1 s1 e r).
  - intros Hret. rewrite Hit. unfold result_of at 1. simpl.
    pose proof (invoked_in_order_returns call_resp EvRespListener resp registered
                  (add_resp ls st) Hret) as Hd.
    fold d in Hd. by destruct (result_of d).
Qed.

Lemma response_listeners_called_in_registration_order_witness :
  ∃ st1,
    result_of (register_resp [3; 1; 2] (connected_state open_conn)) = Ret () st1 ∧
    onResponse (connH st1) = [3; 1; 2] ∧
    connection.Listen_iteration noting_resp noting_disc (ReadOk ∅) st1
    = ([EvReadJSON open_conn (ReadOk ∅);
        EvRespListener 3 ∅; EvLog InfoLevel [LNum (Fint 3)];
        EvRespListener 1 ∅; EvLog InfoLevel [LNum (Fint 1)];
        EvRespListener 2 ∅; EvLog InfoLevel [LNum (Fint 2)]],
       Ret None st1).
Proof.
  destruct (response_listeners_called_in_registration_order noting_resp noting_disc
              [3; 1; 2] ∅ (connected_state open_conn) open_conn eq_refl)
    as (st1 & Hreg & Hregistry & Hit & _).
  exists st1. split; [exact Hreg|]. split; [exact Hregistry|].
  injection Hreg as <-. exact Hit.
Defined.


(** ** Connecting and logging in *)
Section chat_runs.
Context `{Libraries} {RL DL : Type}.
Implicit Types st : State RL DL.

Lemma Connect_loop_run (es : list error) (c : WsConn) (rest : list DialResult) st :
  connection.Connect_loop ((DialErr <$> es) ++ DialOk c :: rest) st
  = (connect_events (url (connH st)) es c,
     Ret () (set_connH (connection.set_conn c (connH st)) (set_dialQ rest st))).
Proof.
  revert st. induction es as [|e es IH]; intros st; simpl.
  - mrun. by destruct st.
  - mrun. rewrite IH. mrun. by destruct st.
Qed.

Lemma Connect_run (es : list error) (c : WsConn) (rest : list DialResult) st :
  dialQ st = (DialErr <$> es) ++ DialOk c :: rest →
  connection.Connect st
  = (connect_events (url (connH st)) es c,
     Ret () (set_connH (connection.set_conn c (connH st)) (set_dialQ rest st))).
Proof.
  intros Hq. unfold connection.Connect. mrun. by rewrite Hq, Connect_loop_run.
Qed.

Lemma WriteJSON_run (req : request) (c : WsConn) st :
  conn (connH st) = Some c →
  connection.WriteJSON req st = ([EvWriteJSON c req (writeErr c)], Ret (writeErr c) st).
Proof.
  intros Hc. unfold connection.WriteJSON. mrun. rewrite Hc.
  unfold connection.ws_WriteJSON. by mrun.
Qed.

(** The events of [if err := h.login(); err != nil { h.log.Error(err) }] on
    connection [c] with nickname [n]. *)
Lemma login_and_log_run (c : WsConn) st :
  conn (connH st) = Some c →
  chat.login_and_log st
  = (EvWriteJSON c (ReqLogin {| loginReq_Type := typeLoginReq;
                                loginReq_Nickname := Nickname (cfg st) |})
       (writeErr c)
     :: match writeErr c with
        | Some e => [EvLog ErrorLevel [LErr (WithMessage e "Send login request")]]
        | None => []
        end,
     Ret () st).
Proof.
  intros Hc. unfold chat.login_and_log, chat.login.
  mrun. rewrite bind_run, (WriteJSON_run _ c) by done. mrun.
  by destruct (writeErr c).
Qed.

End chat_runs.

(** ** The disconnect listener *)

(** The guard of the disconnect listener compares the address of the
    [ChatUI] field with nil, so it holds whether or not a UI is attached. *)
Lemma ChatUI_guard_always_holds :
  negb (lo_IsEmpty nil_pointer (addr_of "h.ChatUI")) = true.
Proof. reflexivity. Qed.

(** With a UI attached whose [UpdateOnlineBox] is ready to receive, and a
    dial script that succeeds after the failures [es]: the empty list goes
    to the UI, then the sleep, then [Connect], then the login request on the
    new connection, then the goroutine that waits for the token. *)
Lemma onDisconnect_fn_with_ui {RL DL : Type} (err : error)
    (st : State RL DL) ch g q es c rest :
  OnlineUsersCh (ChatUI (chatH st)) = Some ch →
  chan_recvq ch = g :: q →
  dialQ st = (DialErr <$> es) ++ DialOk c :: rest →
  chan_buf (tokenCh (chatH st)) = [] →
  chat.onDisconnect_fn err st
  = ([EvLog ErrorLevel [LErr (WithMessage err "Lost connection to server");
                        LStr " Retrying in 5 seconds."];
      EvOnlineUsers [];
      EvSleep 5]
     ++ connect_events (url (connH st)) es c
     ++ EvWriteJSON c (ReqLogin {| loginReq_Type := typeLoginReq;
                                   loginReq_Nickname := Nickname (cfg st) |})
          (writeErr c)
        :: match writeErr c with
           | Some e => [EvLog ErrorLevel [LErr (WithMessage e "Send login request")]]
           | None => []
           end
     ++ [EvGo TokenReceiver],
     Ret ()
       (MkState (connection.set_conn c (connH st))
          {| ChatUI := chat.set_OnlineUsersCh
                         (chan_park g (Chan (chan_cap ch) (chan_buf ch) q))
                         (ChatUI (chatH st));
             tokenCh := chan_park TokenReceiver (tokenCh (chatH st));
             token := token (chatH st) |}
          (cfg st) rest (stdinQ st))).
Proof.
  intros Hch Hq Hdial Hbuf. unfold chat.onDisconnect_fn.
  rewrite ChatUI_guard_always_holds. mrun.
  unfold chat.send_OnlineUsersCh. mrun. rewrite Hch. simpl. rewrite Hq. mrun.
  rewrite bind_run, (Connect_run es c rest) by done. mrun.
  rewrite bind_run, (login_and_log_run c) by done. mrun.
  unfold chat.recv_tokenCh. mrun. simpl. rewrite Hbuf. mrun.
  simpl. f_equal. rewrite app_nil_r, <- app_assoc. reflexivity.
Qed.

(** C3, what the code does when no UI is attached.  The guard holds all the
    same, the listener sends on the nil channel of the zero [ui.Chat], and
    the goroutine of the receive loop stays there for ever: after the log
    line nothing happens; no sleep, no [Connect], no login request, no
    goroutine waiting for the token. *)
Theorem onDisconnect_fn_without_ui_never_reconnects {RL DL : Type}
    (err : error) (st : State RL DL) :
  OnlineUsersCh (ChatUI (chatH st)) = None →
  chat.onDisconnect_fn err st
  = ([EvLog ErrorLevel [LErr (WithMessage err "Lost connection to server");
                        LStr " Retrying in 5 seconds."]],
     Blocked OnNilChannel st).
Proof.
  intros Hch. unfold chat.onDisconnect_fn.
  rewrite ChatUI_guard_always_holds. mrun.
  unfold chat.send_OnlineUsersCh. mrun. rewrite Hch. simpl. by mrun.
Qed.

Lemma onDisconnect_fn_without_ui_never_reconnects_witness :
  let err := CloseError 1006 "unexpected EOF" in
  let st : State nat nat := set_dialQ [DialOk open_conn] (connected_state closed_conn) in
  chat.onDisconnect_fn err st
  = ([EvLog ErrorLevel [LErr (WithMessage err "Lost connection to server");
                        LStr " Retrying in 5 seconds."]],
     Blocked OnNilChannel st).
Proof.
  intros err st.
  exact (onDisconnect_fn_without_ui_never_reconnects err st eq_refl).
Defined.

(** ** The token hand-off *)

(** The claim of C5 fails: an ok login response arrives while nobody waits
    for the token (the state right after [NewHandler], connected); the
    listener logs and then stays at the send. *)
Lemma token_send_blocks_without_receiver :
  let st : State nat nat := connected_state open_conn in
  chan_recvq (tokenCh (chatH st)) = [] ∧
  chat.loginResponse_fn (H:=wire_libraries) (login_response "T" statusOk) st
  = ([EvLog InfoLevel [LStr "Login successful"]], Blocked OnSend st).
Proof. split; reflexivity. Qed.

(** C5, amended.  [tokenCh] is unbuffered.  On an ok login response the
    listener logs and sends the token: when a receiver waits, the oldest one
    takes the token, which becomes the session token, and the listener
    returns; when none waits, the listener does not return and nothing is
    delivered, dropped or stored. *)
Theorem token_handoff_is_a_rendezvous `{Libraries} {RL DL : Type}
    (resp : Envelope) (r : loginResp) (st : State RL DL) :
  any_eq_float64 (resp !! "type") typeLoginResp = true →
  Decode_loginResp resp = DecodeOk r →
  loginResp_Status r = statusOk →
  chan_cap (tokenCh (chatH st)) = 0 →
  chat.loginResponse_fn resp st
  = match chan_recvq (tokenCh (chatH st)) with
    | g :: q =>
        ([EvLog InfoLevel [LStr "Login successful"]; EvToken g (loginResp_Token r)],
         Ret () (set_chatH
                   {| ChatUI := ChatUI (chatH st);
                      tokenCh := Chan 0 (chan_buf (tokenCh (chatH st))) q;
                      token := loginResp_Token r |} st))
    | [] => ([EvLog InfoLevel [LStr "Login successful"]], Blocked OnSend st)
    end.
Proof.
  intros Hty Hdec Hok Hcap. unfold chat.loginResponse_fn.
  rewrite Hty, Hdec. simpl. rewrite decide_True by done. mrun.
  unfold chat.send_tokenCh. mrun. unfold chansend.
  destruct (chan_recvq (tokenCh (chatH st))) as [|g q]; simpl.
  - rewrite Hcap. rewrite decide_False by lia. by mrun.
  - mrun. by rewrite Hcap.
Qed.

Lemma token_handoff_is_a_rendezvous_witness :
  let st : State nat nat :=
    set_chatH (chat.set_tokenCh (Chan 0 [] [MainGoroutine]) chat.NewHandler)
      (connected_state open_conn) in
  chat.loginResponse_fn (H:=wire_libraries) (login_response "T" statusOk) st
  = ([EvLog InfoLevel [LStr "Login successful"]; EvToken MainGoroutine "T"],
     Ret () (set_chatH {| ChatUI := Chat_zero; tokenCh := Chan 0 [] []; token := "T" |} st)).
Proof.
  intros st.
  exact (token_handoff_is_a_rendezvous (H:=wire_libraries) (login_response "T" statusOk)
           {| loginResp_Type := typeLoginResp; loginResp_Token := "T";
              loginResp_Status := statusOk |}
           st eq_refl eq_refl eq_refl eq_refl).
Defined.

(** ** The online-users listener *)

(** The claim of C8 fails for an envelope with status ok that does not
    decode: the decoding comes before the test of the status.  The UI is
    attached and [UpdateOnlineBox] waits for a list; the server sends
    [{"type":7,"status":1,"users":[1]}], whose status is ok and whose list
    holds a number; the listener logs the decode error and forwards
    nothing. *)
Lemma online_users_with_status_ok_may_not_be_forwarded :
  let resp : Envelope :=
    <["type" := JNum typeOnlineUsers]>
      (<["status" := JNum statusOk]> (<["users" := JArr [JNum (Fint 1)]]> ∅)) in
  let st : State nat nat :=
    set_chatH (chat.set_ChatUI
                 {| Gui := Some true;
                    OnlineUsersCh := Some (Chan 0 [] [UpdateOnlineBoxGoroutine]) |}
                 chat.NewHandler) (connected_state open_conn) in
  any_eq_float64 (resp !! "type") typeOnlineUsers = true ∧
  resp !! "status" = Some (JNum statusOk) ∧
  (∃ err, chat.onlineUsers_fn (H:=wire_libraries) resp st
          = ([EvLog ErrorLevel [LErr (WithMessage err "Decode online users response")]],
             Ret () st)) ∧
  ui_lists (events_of (chat.onlineUsers_fn (H:=wire_libraries) resp st)) = [].
Proof.
  intros resp st. split; [by vm_compute|]. split; [by vm_compute|].
  split; [eexists; vm_compute; reflexivity|by vm_compute].
Qed.

(** C8, amended.  For an envelope of type online-users, by what
    [mapstructure.Decode] makes of it.
    - It does not decode: the listener logs the decode error, sends nothing
      and leaves the state as it was, whatever the status in the envelope.
    - It decodes to [r] with status ok: the listener does nothing but send
      [r]'s users on the UI's channel, where the waiting [UpdateOnlineBox]
      takes exactly that list.
    - It decodes to [r] with any other status: the listener logs one
      error, sends nothing and leaves the state as it was. *)
Theorem onlineUsers_fn_by_status `{Libraries} {RL DL : Type}
    (resp : Envelope) (st : State RL DL) :
  any_eq_float64 (resp !! "type") typeOnlineUsers = true →
  match Decode_onlineUsers resp with
  | DecodeErr err =>
      chat.onlineUsers_fn resp st
      = ([EvLog ErrorLevel [LErr (WithMessage err "Decode online users response")]],
         Ret () st)
  | DecodeOk r =>
      if decide (onlineUsers_Status r = statusOk) then
        chat.onlineUsers_fn resp st
        = chat.send_OnlineUsersCh (onlineUsers_Users r) st ∧
        ∀ ch g q,
          OnlineUsersCh (ChatUI (chatH st)) = Some ch → chan_recvq ch = g :: q →
          events_of (chat.onlineUsers_fn resp st)
          = [EvOnlineUsers (onlineUsers_Users r)] ∧
          returns (result_of (chat.onlineUsers_fn resp st))
      else
        chat.onlineUsers_fn resp st
        = ([EvLog ErrorLevel [LStr "Get online users failed, status: ";
                              LNum (onlineUsers_Status r)]],
           Ret () st)
  end.
Proof.
  intros Hty. unfold chat.onlineUsers_fn. rewrite Hty. simpl.
  destruct (Decode_onlineUsers resp) as [r|err]; [|done].
  destruct (decide (onlineUsers_Status r = statusOk)) as [Hok|Hne]; [|done].
  split; [done|]. intros ch g q Hch Hq.
  unfold chat.send_OnlineUsersCh. mrun. rewrite Hch. simpl. rewrite Hq. by mrun.
Qed.

Lemma onlineUsers_fn_by_status_witness :
  let st : State nat nat :=
    set_chatH (chat.set_ChatUI
                 {| Gui := Some true;
                    OnlineUsersCh := Some (Chan 0 [] [UpdateOnlineBoxGoroutine]) |}
                 chat.NewHandler) (connected_state open_conn) in
  chat.onlineUsers_fn (H:=wire_libraries)
    (online_users_response statusNameAlreadyTaken []) st
  = ([EvLog ErrorLevel [LStr "Get online users failed, status: ";
                        LNum statusNameAlreadyTaken]],
     Ret () st) ∧
  events_of (chat.onlineUsers_fn (H:=wire_libraries)
               (online_users_response statusOk ["ann"; "bob"]) st)
  = [EvOnlineUsers ["ann"; "bob"]].
Proof.
  intros st. split.
  - exact (onlineUsers_fn_by_status (H:=wire_libraries)
             (online_users_response statusNameAlreadyTaken []) st eq_refl).
  - destruct (onlineUsers_fn_by_status (H:=wire_libraries)
                (online_users_response statusOk ["ann"; "bob"]) st eq_refl)
      as [_ Hsend].
    destruct (Hsend (Chan 0 [] [UpdateOnlineBoxGoroutine]) UpdateOnlineBoxGoroutine []
                eq_refl eq_refl) as [Hev _].
    exact Hev.
Defined.

(** ** Asking for a nickname *)
Section ask_facts.
Context `{Libraries} {RL DL : Type}.
Implicit Types st : State RL DL.

Lemma set_stdinQ_set_stdinQ q1 q2 st :
  set_stdinQ q2 (set_stdinQ q1 st) = set_stdinQ q2 st.
Proof. done. Qed.

Lemma AskNickname_callback_run input st :
  ∃ evs,
    stdin.AskNickname_callback input st
    = (evs, Ret (negb (bool_decide (input ≠ "") && bool_decide (String.length input ≤ 20))) st)
    ∧ writes evs = [].
Proof.
  unfold stdin.AskNickname_callback.
  destruct (decide (input = "")) as [->|Hne].
  - exists []. by rewrite bool_decide_false by naive_solver.
  - rewrite (bool_decide_true (input ≠ "")) by done. simpl.
    destruct (decide (20 < String.length input)) as [Hlong|Hshort].
    + eexists. mrun. by rewrite bool_decide_false by lia.
    + exists []. by rewrite bool_decide_true by lia.
Qed.

(** The prompt loop skips the lines that are not accepted and returns the
    first accepted one, trimmed; it writes nothing to the connection. *)
Lemma ask_nickname_loop_run skipped line rest st :
  Forall (λ e, nickname_accepted e = false) skipped →
  nickname_accepted (line, None) = true →
  ∃ evs,
    stdin.ask_loop (skipped ++ (line, None) :: rest) true "Enter your nickname: "
      stdin.AskNickname_callback st
    = (evs, Ret (strings_TrimSpace line) (set_stdinQ rest st))
    ∧ writes evs = [].
Proof.
  intros Hskip Hacc. revert st.
  induction Hskip as [|[l e] skipped Hrej _ IH]; intros st; simpl.
  - mrun. rewrite bind_run.
    destruct (AskNickname_callback_run (strings_TrimSpace line)
                (set_stdinQ rest st)) as (evs & -> & Hw).
    unfold nickname_accepted in Hacc. simpl in Hacc.
    apply andb_true_iff in Hacc as [Hacc _]. rewrite Hacc. simpl. mrun.
    eexists. split; [reflexivity|]. simpl. by rewrite app_nil_r.
  - mrun. rewrite bind_run.
    destruct (AskNickname_callback_run (strings_TrimSpace l)
                (set_stdinQ (skipped ++ (line, None) :: rest) st))
      as (evs & -> & Hw).
    unfold nickname_accepted in Hrej. simpl in Hrej.
    destruct (bool_decide (strings_TrimSpace l ≠ "")
              && bool_decide (String.length (strings_TrimSpace l) ≤ 20)) eqn:Hcb;
      simpl in *.
    + destruct e as [e|]; [|by rewrite bool_decide_true in Hrej].
      mrun. destruct (IH (set_stdinQ (skipped ++ (line, None) :: rest) st))
        as (evs' & -> & Hw').
      mrun. eexists. split; [reflexivity|].
      simpl. rewrite !writes_app, Hw, Hw'. done.
    + destruct (IH (set_stdinQ (skipped ++ (line, None) :: rest) st))
        as (evs' & -> & Hw').
      mrun. eexists. split; [reflexivity|].
      simpl. by rewrite !writes_app, Hw, Hw'.
Qed.

Lemma AskNickname_run skipped line rest st :
  stdinQ st = skipped ++ (line, None) :: rest →
  Forall (λ e, nickname_accepted e = false) skipped →
  nickname_accepted (line, None) = true →
  ∃ evs,
    stdin.AskNickname st = (evs, Ret (strings_TrimSpace line) (set_stdinQ rest st))
    ∧ writes evs = [].
Proof.
  intros Hq Hskip Hacc. unfold stdin.AskNickname, stdin.ask. mrun. rewrite Hq.
  by apply ask_nickname_loop_run.
Qed.

End ask_facts.

(** The claim of C4 fails: after a name-taken response the user types the
    rejected nickname again, and the one login request that follows carries
    the rejected nickname. *)
Lemma name_taken_retry_may_repeat_the_nickname :
  let st : State nat nat :=
    set_stdinQ [(String "b" (String "o" (String "b" (String "010" EmptyString))), None)]
      (connected_state open_conn) in
  Nickname (cfg st) = "bob" ∧
  writes (events_of (chat.loginResponse_fn (H:=wire_libraries)
                       (login_response "" statusNameAlreadyTaken) st))
  = [ReqLogin {| loginReq_Type := typeLoginReq; loginReq_Nickname := "bob" |}].
Proof. split; reflexivity. Qed.

(** C4, amended.  On a login response that decodes with status name-taken,
    once standard input delivers an acceptable line (not empty after
    trimming, at most twenty bytes, read without error) the listener makes
    it the nickname of the session and sends exactly one login request,
    which carries that nickname. *)
Theorem name_taken_sends_one_login_with_the_prompted_nickname
    `{Libraries} {RL DL : Type}
    (resp : Envelope) (r : loginResp) (st : State RL DL) (c : WsConn)
    (skipped : list (string * option error)) (line : string)
    (rest : list (string * option error)) :
  any_eq_float64 (resp !! "type") typeLoginResp = true →
  Decode_loginResp resp = DecodeOk r →
  loginResp_Status r = statusNameAlreadyTaken →
  conn (connH st) = Some c →
  stdinQ st = skipped ++ (line, None) :: rest →
  Forall (λ e, nickname_accepted e = false) skipped →
  nickname_accepted (line, None) = true →
  let nickname := strings_TrimSpace line in
  let out := chat.loginResponse_fn resp st in
  writes (events_of out)
  = [ReqLogin {| loginReq_Type := typeLoginReq; loginReq_Nickname := nickname |}] ∧
  result_of out
  = Ret () (set_cfg (chat.set_Nickname nickname (cfg st)) (set_stdinQ rest st)) ∧
  nickname ≠ "" ∧ String.length nickname ≤ 20.
Proof.
  intros Hty Hdec Hst Hc Hq Hskip Hacc nickname out. subst out.
  unfold chat.loginResponse_fn. rewrite Hty, Hdec. simpl.
  rewrite decide_False by (rewrite Hst; discriminate).
  rewrite decide_True by done. mrun. rewrite bind_run.
  destruct (AskNickname_run skipped line rest st Hq Hskip Hacc) as (evs & -> & Hw).
  mrun. rewrite (login_and_log_run c) by done. mrun.
  unfold events_of, result_of. simpl.
  rewrite writes_app, Hw. simpl.
  split; [by destruct (writeErr c)|]. split; [done|].
  unfold nickname_accepted in Hacc. simpl in Hacc.
  apply andb_true_iff in Hacc as [Hacc _].
  apply andb_true_iff in Hacc as [H1 H2].
  apply bool_decide_eq_true in H1, H2. done.
Qed.

Lemma name_taken_sends_one_login_with_the_prompted_nickname_witness :
  let st : State nat nat :=
    set_stdinQ [("", None);
                (String " " (String "a" (String "l" (String "010" EmptyString))), None)]
      (connected_state open_conn) in
  let out := chat.loginResponse_fn (H:=wire_libraries)
               (login_response "" statusNameAlreadyTaken) st in
  writes (events_of out)
  = [ReqLogin {| loginReq_Type := typeLoginReq; loginReq_Nickname := "al" |}] ∧
  result_of out
  = Ret () (set_cfg (chat.set_Nickname "al" (cfg st)) (set_stdinQ [] st)) ∧
  "al" ≠ "" ∧ String.length "al" ≤ 20.
Proof.
  intros st.
  apply (name_taken_sends_one_login_with_the_prompted_nickname (H:=wire_libraries)
           (login_response "" statusNameAlreadyTaken)
           {| loginResp_Type := typeLoginResp; loginResp_Token := "";
              loginResp_Status := statusNameAlreadyTaken |}
           st open_conn [("", None)]
           (String " " (String "a" (String "l" (String "010" EmptyString)))) []);
    try reflexivity.
  repeat constructor.
Defined.


(** ** Relations kept by every run *)
Section keeps_facts.
Context {RL DL : Type}.
Variable R : State RL DL → list (event RL DL) → State RL DL → Prop.
Hypothesis R_refl : ∀ st, R st [] st.
Hypothesis R_trans :
  ∀ st1 e1 st2 e2 st3, R st1 e1 st2 → R st2 e2 st3 → R st1 (e1 ++ e2) st3.

Lemma keeps_ret {A} (a : A) : keeps R (mret a : M RL DL A).
Proof. intros st. apply R_refl. Qed.

Lemma keeps_park {A} why : keeps R (park why : M RL DL A).
Proof. intros st. apply R_refl. Qed.

Lemma keeps_panic {A} msg : keeps R (panic msg : M RL DL A).
Proof. intros st. apply R_refl. Qed.

Lemma keeps_emit e : (∀ st, R st [e] st) → keeps R (emit e).
Proof. intros He st. apply He. Qed.

Lemma keeps_log lvl args : (∀ st, R st [EvLog lvl args] st) → keeps R (log lvl args).
Proof. intros He st. apply He. Qed.

Lemma keeps_Sleep n : (∀ st, R st [EvSleep n] st) → keeps R (time_Sleep n).
Proof. intros He st. apply He. Qed.

Lemma keeps_modify f : (∀ st, R st [] (f st)) → keeps R (modify f).
Proof. intros Hf st. apply Hf. Qed.

Lemma keeps_bind {A B} (m : M RL DL A) (k : A → M RL DL B) :
  keeps R m → (∀ a, keeps R (k a)) → keeps R (m ≫= k).
Proof.
  intros Hm Hk st. rewrite bind_run. specialize (Hm st).
  destruct (m st) as [evs [a st'|why st'|msg st']];
    unfold events_of, result_of in *; simpl in *; try done.
  eapply R_trans; [exact Hm|]. apply Hk.
Qed.

Lemma keeps_get_bind {B} (k : State RL DL → M RL DL B) :
  (∀ st, R st (events_of (k st st)) (final_state (result_of (k st st)))) →
  keeps R (get ≫= k).
Proof. intros Hk st. rewrite bind_get. apply Hk. Qed.

End keeps_facts.

(** ** The session frame *)
Section session_frame_facts.
Context {RL DL : Type}.
Implicit Types (st : State RL DL) (evs : list (event RL DL)).

Lemma token_deliveries_app evs1 evs2 :
  token_deliveries (evs1 ++ evs2) = token_deliveries evs1 ++ token_deliveries evs2.
Proof. apply omap_app. Qed.

Lemma session_frame_refl st : session_frame st [] st.
Proof.
  split; [split; [constructor|split; [done|by left]]|].
  intros _. split; [done|constructor].
Qed.

Lemma session_frame_trans st1 e1 st2 e2 st3 :
  session_frame st1 e1 st2 → session_frame st2 e2 st3 →
  session_frame st1 (e1 ++ e2) st3.
Proof.
  intros [(Hw1 & Hu1 & Hq1) Ht1] [(Hw2 & Hu2 & Hq2) Ht2].
  split; [split; [|split]|].
  - by apply Forall_app.
  - auto.
  - intros Hin. destruct (Hq1 Hin) as [Hin2|[tok Htok]].
    + destruct (Hq2 Hin2) as [Hin3|[tok Htok]]; [by left|].
      right. exists tok. apply elem_of_app. by right.
    + right. exists tok. apply elem_of_app. by left.
  - intros Hnone. rewrite token_deliveries_app in Hnone.
    apply app_eq_nil in Hnone as [Hn1 Hn2].
    destruct (Ht1 Hn1) as [Htok1 Hc1]. destruct (Ht2 Hn2) as [Htok2 Hc2].
    split; [congruence|].
    rewrite writes_app. apply Forall_app. split; [done|].
    by rewrite <- Htok1.
Qed.

(** An event that is no wiring event, no write and no hand-over of a token
    changes nothing of the frame. *)
Lemma session_frame_event e st :
  wiring_event e = false → writes [e] = [] → token_deliveries [e] = [] →
  session_frame st [e] st.
Proof.
  intros Hw Hwr Htd.
  split; [split; [by repeat constructor|split; [done|by left]]|].
  intros _. split; [done|]. rewrite Hwr. constructor.
Qed.

(** Neither does a change of the state outside the chat handler. *)
Lemma session_frame_outside st st' :
  chatH st' = chatH st → session_frame st [] st'.
Proof.
  intros Heq.
  split; [split; [constructor|split]|].
  - unfold tokenCh_unbuffered. by rewrite Heq.
  - unfold main_in_queue. rewrite Heq. by left.
  - intros _. rewrite Heq. split; [done|constructor].
Qed.

(** Events that are no wiring events, no writes and no hand-overs, with a
    change of the state that keeps the token and its channel. *)
Lemma session_frame_quiet st evs st' :
  Forall (λ e, wiring_event e = false ∧ writes [e] = [] ∧ token_deliveries [e] = []) evs →
  tokenCh (chatH st') = tokenCh (chatH st) →
  token (chatH st') = token (chatH st) →
  session_frame st evs st'.
Proof.
  intros Hev Hch Htok.
  split; [split; [|split]|].
  - eapply Forall_impl; [exact Hev|]. by intros e (? & _).
  - unfold tokenCh_unbuffered. by rewrite Hch.
  - unfold main_in_queue. rewrite Hch. by left.
  - intros _. rewrite Htok. split; [done|].
    replace (writes evs) with (@nil request); [constructor|].
    induction Hev as [|e evs (_ & Hw & _) _ IH]; [done|].
    change (e :: evs) with ([e] ++ evs). by rewrite writes_app, Hw, <- IH.
Qed.

Lemma session_frame_plain st evs st' :
  Forall (λ e, wiring_event e = false ∧ writes [e] = [] ∧ token_deliveries [e] = []) evs →
  chatH st' = chatH st → session_frame st evs st'.
Proof. intros Hev Heq. apply session_frame_quiet; [done|by rewrite Heq..]. Qed.

End session_frame_facts.

Section session_frame_code.
Context `{Libraries} {RL DL : Type}.
Implicit Types (st : State RL DL) (evs : list (event RL DL)).
Local Abbreviation keeps_frame := (keeps (RL:=RL) (DL:=DL) session_frame).

Lemma sf_ret {A} (a : A) : keeps_frame (mret a).
Proof. apply keeps_ret, session_frame_refl. Qed.

Lemma sf_park {A} why : keeps_frame (park why : M RL DL A).
Proof. apply keeps_park, session_frame_refl. Qed.

Lemma sf_panic {A} msg : keeps_frame (panic msg : M RL DL A).
Proof. apply keeps_panic, session_frame_refl. Qed.

Lemma sf_bind {A B} (m : M RL DL A) (k : A → M RL DL B) :
  keeps_frame m → (∀ a, keeps_frame (k a)) → keeps_frame (m ≫= k).
Proof. apply keeps_bind, session_frame_trans. Qed.

Lemma sf_log lvl args : keeps_frame (log lvl args).
Proof. intros st. apply session_frame_event; reflexivity. Qed.

Lemma sf_Sleep n : keeps_frame (time_Sleep n).
Proof. intros st. apply session_frame_event; reflexivity. Qed.

Lemma sf_emit e :
  wiring_event e = false → writes [e] = [] → token_deliveries [e] = [] →
  keeps_frame (emit e).
Proof. intros ??? st. by apply session_frame_event. Qed.

Lemma sf_modify_outside f :
  (∀ st, chatH (f st) = chatH st) → keeps_frame (modify f).
Proof. intros Hf st. apply session_frame_outside, Hf. Qed.

Lemma sf_Connect_loop script : keeps_frame (connection.Connect_loop script).
Proof.
  induction script as [|[c|e] script IH]; simpl.
  - apply sf_park.
  - apply keeps_get_bind. intros st. mrun.
    apply session_frame_plain; [|done]. by repeat constructor.
  - apply keeps_get_bind. intros st.
    rewrite bind_modify.
    apply (session_frame_trans _ [] (set_dialQ script st)).
    { by apply session_frame_outside. }
    apply sf_bind; [by apply sf_emit|]. intros _.
    apply sf_bind; [apply sf_log|]. intros _.
    apply sf_bind; [apply sf_Sleep|]. intros _. apply IH.
Qed.

Lemma sf_Connect : keeps_frame connection.Connect.
Proof. apply keeps_get_bind. intros st. apply sf_Connect_loop. Qed.

(** A write is a write of its request. *)
Lemma WriteJSON_frame (req : request) st :
  let out := connection.WriteJSON req st in
  final_state (result_of out) = st ∧
  (events_of out = [] ∨ ∃ c r, events_of out = [EvWriteJSON c req r]).
Proof.
  unfold connection.WriteJSON. rewrite bind_get.
  destruct (conn (connH st)) as [c|]; simpl.
  - unfold connection.ws_WriteJSON. mrun. split; [done|]. right. by eexists _, _.
  - split; [done|]. by left.
Qed.

Lemma sf_WriteJSON (req : request) :
  (∀ st, carries (token (chatH st)) req) → keeps_frame (connection.WriteJSON req).
Proof.
  intros Hreq st. destruct (WriteJSON_frame req st) as [-> [->|(c & r & ->)]].
  - apply session_frame_refl.
  - split; [split; [by repeat constructor|split; [done|by left]]|].
    intros _. split; [done|]. simpl. by repeat constructor.
Qed.

Lemma sf_login_and_log : keeps_frame chat.login_and_log.
Proof.
  unfold chat.login_and_log, chat.login.
  apply sf_bind.
  - apply keeps_get_bind. intros st.
    apply sf_bind; [by apply sf_WriteJSON|]. intros err. apply sf_ret.
  - intros [e|]; [apply sf_log|apply sf_ret].
Qed.

Lemma sf_PostMessage msg : keeps_frame (chat.PostMessage msg).
Proof.
  intros st. unfold chat.PostMessage. rewrite bind_get.
  pose proof (WriteJSON_frame
    (ReqPostMsg {| postMsgReq_Type := typePostMessageReq;
                   postMsgReq_Token := token (chatH st);
                   postMsgReq_Msg := msg |}) st) as [Hst Hev].
  rewrite bind_run.
  destruct (connection.WriteJSON _ st) as [evs [err st'|why st'|pmsg st']];
    unfold events_of, result_of in *; simpl in *; subst st'.
  - eapply (session_frame_trans _ evs st).
    + destruct Hev as [->|(c & r & ->)]; [apply session_frame_refl|].
      split; [split; [by repeat constructor|split; [done|by left]]|].
      intros _. split; [done|]. simpl. by repeat constructor.
    + destruct err; [apply sf_log|apply sf_ret].
  - destruct Hev as [->|(c & r & ->)]; [apply session_frame_refl|].
    split; [split; [by repeat constructor|split; [done|by left]]|].
    intros _. split; [done|]. simpl. by repeat constructor.
  - destruct Hev as [->|(c & r & ->)]; [apply session_frame_refl|].
    split; [split; [by repeat constructor|split; [done|by left]]|].
    intros _. split; [done|]. simpl. by repeat constructor.
Qed.

Lemma sf_RequestOnlineUsers : keeps_frame chat.RequestOnlineUsers.
Proof.
  intros st. unfold chat.RequestOnlineUsers. rewrite bind_get.
  pose proof (WriteJSON_frame
    (ReqOnlineUsers {| onlineUsersReq_Type := typeOnlineUsersReq;
                       onlineUsersReq_Token := token (chatH st) |}) st) as [Hst Hev].
  rewrite bind_run.
  destruct (connection.WriteJSON _ st) as [evs [err st'|why st'|pmsg st']];
    unfold events_of, result_of in *; simpl in *; subst st'.
  - eapply (session_frame_trans _ evs st).
    + destruct Hev as [->|(c & r & ->)]; [apply session_frame_refl|].
      split; [split; [by repeat constructor|split; [done|by left]]|].
      intros _. split; [done|]. simpl. by repeat constructor.
    + destruct err; [apply sf_log|apply sf_ret].
  - destruct Hev as [->|(c & r & ->)]; [apply session_frame_refl|].
    split; [split; [by repeat constructor|split; [done|by left]]|].
    intros _. split; [done|]. simpl. by repeat constructor.
  - destruct Hev as [->|(c & r & ->)]; [apply session_frame_refl|].
    split; [split; [by repeat constructor|split; [done|by left]]|].
    intros _. split; [done|]. simpl. by repeat constructor.
Qed.

Lemma sf_AskNickname_callback input : keeps_frame (stdin.AskNickname_callback input).
Proof.
  unfold stdin.AskNickname_callback.
  destruct (decide (input = "")); [apply sf_ret|]. simpl.
  destruct (decide (20 < String.length input)); [|apply sf_ret].
  apply sf_bind; [apply sf_log|]. intros _. apply sf_ret.
Qed.

Lemma sf_ask_loop script trim prompt (callback : string → M RL DL bool) :
  (∀ input, keeps_frame (callback input)) →
  keeps_frame (stdin.ask_loop script trim prompt callback).
Proof.
  intros Hcb. induction script as [|[line err] script IH]; simpl.
  - apply sf_bind; [by apply sf_emit|]. intros _. apply sf_park.
  - apply sf_bind; [by apply sf_emit|]. intros _.
    apply sf_bind; [by apply sf_modify_outside|]. intros _.
    apply sf_bind; [apply Hcb|]. intros [|]; [apply IH|].
    destruct err as [e|]; [|apply sf_ret].
    apply sf_bind; [apply sf_log|]. intros _. apply IH.
Qed.

Lemma sf_AskNickname : keeps_frame stdin.AskNickname.
Proof.
  unfold stdin.AskNickname, stdin.ask. apply keeps_get_bind. intros st.
  apply sf_ask_loop, sf_AskNickname_callback.
Qed.

Lemma sf_send_OnlineUsersCh users : keeps_frame (chat.send_OnlineUsersCh users).
Proof.
  unfold chat.send_OnlineUsersCh. apply keeps_get_bind. intros st.
  destruct (chansend _ users) as [r ch|ch| |].
  - mrun. apply session_frame_quiet; [by repeat constructor|done..].
  - mrun. by apply session_frame_quiet.
  - apply sf_park.
  - apply sf_park.
Qed.

Lemma sf_send_tokenCh tok : keeps_frame (chat.send_tokenCh tok).
Proof.
  unfold chat.send_tokenCh. apply keeps_get_bind. intros st.
  unfold chansend.
  destruct (chan_recvq (tokenCh (chatH st))) as [|g q] eqn:Hq.
  - destruct (decide (length (chan_buf (tokenCh (chatH st)))
                      < chan_cap (tokenCh (chatH st)))) as [Hroom|Hfull].
    + mrun. unfold events_of, result_of. simpl.
      split; [split; [constructor|split]|].
      * intros [Hcap _]. rewrite Hcap in Hroom. lia.
      * unfold main_in_queue. simpl. rewrite Hq. by left.
      * intros _. split; [done|constructor].
    + apply sf_park.
  - mrun. unfold events_of, result_of. simpl.
    split; [split; [by repeat constructor|split]|].
    + by intros [??].
    + unfold main_in_queue. simpl. rewrite Hq.
      intros Hin. apply elem_of_cons in Hin as [Heq|Hin].
      * right. exists tok. rewrite <- Heq. by apply list_elem_of_singleton.
      * by left.
    + intros Hnone. discriminate Hnone.
Qed.

Lemma sf_recv_tokenCh g : keeps_frame (chat.recv_tokenCh g).
Proof.
  unfold chat.recv_tokenCh. apply keeps_get_bind. intros st.
  destruct (chan_buf (tokenCh (chatH st))) as [|tok buf] eqn:Hbuf.
  - mrun. unfold events_of, result_of. simpl.
    split; [split; [constructor|split]|].
    + intros [Hcap _]. by split.
    + unfold main_in_queue. simpl. intros Hin. left. apply elem_of_app. by left.
    + intros _. split; [done|constructor].
  - mrun. unfold events_of, result_of. simpl.
    split; [split; [by repeat constructor|split]|].
    + intros [_ Hb]. congruence.
    + unfold main_in_queue. simpl. by left.
    + intros Hnone. discriminate Hnone.
Qed.

Lemma sf_onDisconnect_fn err : keeps_frame (chat.onDisconnect_fn err).
Proof.
  unfold chat.onDisconnect_fn.
  apply sf_bind; [apply sf_log|]. intros _.
  apply sf_bind.
  { destruct (negb _); [apply sf_send_OnlineUsersCh|apply sf_ret]. }
  intros _. apply sf_bind; [apply sf_Sleep|]. intros _.
  apply sf_bind; [apply sf_Connect|]. intros _.
  apply sf_bind; [apply sf_login_and_log|]. intros _.
  apply sf_bind; [by apply sf_emit|]. intros _.
  apply sf_recv_tokenCh.
Qed.

Lemma sf_loginResponse_fn resp : keeps_frame (chat.loginResponse_fn resp).
Proof.
  unfold chat.loginResponse_fn.
  destruct (negb _); [apply sf_ret|].
  destruct (Decode_loginResp resp) as [r|e]; [|apply sf_log].
  destruct (decide (loginResp_Status r = statusOk)).
  { apply sf_bind; [apply sf_log|]. intros _. apply sf_send_tokenCh. }
  destruct (decide (loginResp_Status r = statusNameAlreadyTaken)); [|apply sf_log].
  apply sf_bind; [apply sf_log|]. intros _.
  apply sf_bind; [apply sf_AskNickname|]. intros nickname.
  apply sf_bind; [by apply sf_modify_outside|]. intros _.
  apply sf_login_and_log.
Qed.

Lemma sf_chatMsgToClient_fn resp : keeps_frame (chat.chatMsgToClient_fn resp).
Proof.
  unfold chat.chatMsgToClient_fn.
  destruct (negb _); [apply sf_ret|].
  destruct (Decode_chatMsgToClient resp) as [r|e]; [|apply sf_log].
  apply keeps_get_bind. intros st. apply sf_bind.
  - unfold ui.PrintToChatBox. destruct (Gui _) as [[|]|].
    + apply sf_bind; [by apply sf_emit|]. intros _. apply sf_ret.
    + apply sf_ret.
    + apply sf_panic.
  - intros [e|]; [apply sf_log|apply sf_ret].
Qed.

Lemma sf_postMessageResponse_fn resp : keeps_frame (chat.postMessageResponse_fn resp).
Proof.
  unfold chat.postMessageResponse_fn.
  destruct (negb _); [apply sf_ret|].
  destruct (Decode_postMsgResp resp) as [r|e]; [|apply sf_log].
  destruct (decide _); [apply sf_log|apply sf_ret].
Qed.

Lemma sf_onlineUsers_fn resp : keeps_frame (chat.onlineUsers_fn resp).
Proof.
  unfold chat.onlineUsers_fn.
  destruct (negb _); [apply sf_ret|].
  destruct (Decode_onlineUsers resp) as [r|e]; [|apply sf_log].
  destruct (decide _); [apply sf_send_OnlineUsersCh|apply sf_log].
Qed.

End session_frame_code.

Section session_frame_listen.
Context `{Libraries}.
Local Abbreviation St := (State chat.RespListener chat.DisconnectListener).
Implicit Types st : St.

Lemma sf_call_resp l resp : keeps session_frame (chat.call_resp l resp).
Proof.
  destruct l; simpl.
  - apply sf_loginResponse_fn.
  - apply sf_chatMsgToClient_fn.
  - apply sf_postMessageResponse_fn.
  - apply sf_onlineUsers_fn.
Qed.

Lemma sf_call_disc l err : keeps session_frame (chat.call_disc l err).
Proof. destruct l. apply sf_onDisconnect_fn. Qed.

Lemma sf_range_onResponse ls resp :
  keeps session_frame (connection.range_onResponse chat.call_resp ls resp).
Proof.
  induction ls as [|l ls IH]; simpl; [apply sf_ret|].
  apply sf_bind; [by apply sf_emit|]. intros _.
  apply sf_bind; [apply sf_call_resp|]. intros _. apply IH.
Qed.

Lemma sf_range_onDisconnect ls err :
  keeps session_frame (connection.range_onDisconnect chat.call_disc ls err).
Proof.
  induction ls as [|l ls IH]; simpl; [apply sf_ret|].
  apply sf_bind; [by apply sf_emit|]. intros _.
  apply sf_bind; [apply sf_call_disc|]. intros _. apply IH.
Qed.

(** An iteration of the receive loop: on a nil handle nothing; otherwise
    the read, and then code that keeps the session frame. *)
Lemma Listen_iteration_frame r st :
  let out := connection.Listen_iteration chat.call_resp chat.call_disc r st in
  (events_of out = [] ∧ final_state (result_of out) = st ∧ ¬ returns (result_of out)) ∨
  ∃ c evs, events_of out = EvReadJSON c r :: evs ∧
           session_frame st evs (final_state (result_of out)).
Proof.
  unfold connection.Listen_iteration. rewrite bind_get.
  destruct (conn (connH st)) as [c|]; [|left; split; [done|split; [done|by intros []]]].
  right. exists c. rewrite bind_emit.
  eexists. split; [reflexivity|]. unfold after, result_of. simpl.
  destruct r as [resp|err].
  - apply (sf_bind (connection.range_onResponse chat.call_resp _ resp)).
    + apply sf_range_onResponse.
    + intros _. apply sf_ret.
  - destruct (As_CloseError err || As_netError err).
    + apply (sf_bind (connection.range_onDisconnect chat.call_disc _ err)).
      * apply sf_range_onDisconnect.
      * intros _. apply sf_ret.
    + apply session_frame_refl.
Qed.

End session_frame_listen.


(** ** The session token between a disconnect and the next hand-over *)
Section token_facts.
Context `{Libraries}.
Local Abbreviation St := (State chat.RespListener chat.DisconnectListener).
Local Abbreviation Ev := (event chat.RespListener chat.DisconnectListener).
Implicit Types (st : St) (evs : list Ev) (s : main.System).

Lemma token_frame_refl st : token_frame st [] st.
Proof. intros _. split; [done|constructor]. Qed.

Lemma token_frame_trans st1 e1 st2 e2 st3 :
  token_frame st1 e1 st2 → token_frame st2 e2 st3 → token_frame st1 (e1 ++ e2) st3.
Proof.
  intros Ht1 Ht2 Hnone. rewrite token_deliveries_app in Hnone.
  apply app_eq_nil in Hnone as [Hn1 Hn2].
  destruct (Ht1 Hn1) as [Htok1 Hc1]. destruct (Ht2 Hn2) as [Htok2 Hc2].
  split; [congruence|].
  rewrite writes_app. apply Forall_app. split; [done|]. by rewrite <- Htok1.
Qed.

Lemma session_to_token_frame {A}
    (m : M chat.RespListener chat.DisconnectListener A) :
  keeps session_frame m → keeps token_frame m.
Proof. intros Hm st. apply Hm. Qed.

(** An event that is no write and no hand-over, with the chat handler
    unchanged. *)
Lemma token_frame_quiet st evs st' :
  writes evs = [] → token (chatH st') = token (chatH st) → token_frame st evs st'.
Proof. intros Hw Htok _. rewrite Hw. by split. Qed.

Lemma AddOnRespListener_run (l : chat.RespListener) st :
  connection.AddOnRespListener l st = ([EvAddOnRespListener l], Ret () (add_resp [l] st)).
Proof. unfold connection.AddOnRespListener. by mrun. Qed.

Lemma AddOnDisconnectListener_run (l : chat.DisconnectListener) st :
  ∃ st', connection.AddOnDisconnectListener l st
         = ([EvAddOnDisconnectListener l], Ret () st') ∧ chatH st' = chatH st.
Proof. unfold connection.AddOnDisconnectListener. mrun. by eexists. Qed.

(** The statements of [main] from line 66 on keep the token frame. *)
Lemma wiring_keeps_token_frame :
  Forall (stmt_keeps token_frame) (drop 5 main.body).
Proof.
  repeat apply Forall_cons_2; try apply Forall_nil_2; simpl; try exact I.
  - intros st. destruct (AddOnDisconnectListener_run chat.OnDisconnectFn st)
      as (st' & Hrun & Heq).
    unfold chat.HandleOnDisconnect. rewrite Hrun.
    apply token_frame_quiet; [done|]. simpl. by rewrite Heq.
  - intros st. unfold chat.HandleLoginResponse. rewrite AddOnRespListener_run.
    by apply token_frame_quiet.
  - apply session_to_token_frame, sf_login_and_log.
  - apply session_to_token_frame, sf_recv_tokenCh.
  - intros st. by apply token_frame_quiet.
  - intros st. by apply token_frame_quiet.
  - intros st. unfold main.go_UpdateOnlineBox. mrun.
    apply token_frame_quiet; [done|]. simpl.
    by destruct (OnlineUsersCh (ChatUI (chatH st))).
  - intros st. unfold chat.HandleChatMsgToClient. rewrite AddOnRespListener_run.
    by apply token_frame_quiet.
  - intros st. unfold chat.HandlePostMessageResponse. rewrite AddOnRespListener_run.
    by apply token_frame_quiet.
  - intros st. unfold chat.HandleOnlineUsers. rewrite AddOnRespListener_run.
    by apply token_frame_quiet.
Qed.

Lemma past_line_64_keeps s :
  past_line_64 s → Forall (stmt_keeps token_frame) (main.main_rest s).
Proof.
  intros (k & Hk & ->).
  replace k with (5 + (k - 5)) by lia. rewrite <- drop_drop.
  apply Forall_drop, wiring_keeps_token_frame.
Qed.

Lemma past_line_64_next s stmt rest :
  past_line_64 s → main.main_rest s = stmt :: rest →
  ∃ k, 5 ≤ k ∧ rest = drop k main.body.
Proof.
  intros (k & Hk & Hrest) Heq. exists (k + 1). split; [lia|].
  rewrite Hrest in Heq. by rewrite <- drop_drop, Heq.
Qed.

(** One step of the program keeps the token frame. *)
Lemma step_token_frame a s :
  past_line_64 s →
  ∃ new, main.sys_log (main.step a s) = main.sys_log s ++ new ∧
         token_frame (main.sys_state s) new (main.sys_state (main.step a s)) ∧
         past_line_64 (main.step a s).
Proof.
  intros Hpast.
  assert (Hsame : ∃ new, main.sys_log s = main.sys_log s ++ new ∧
            token_frame (main.sys_state s) new (main.sys_state s) ∧ past_line_64 s).
  { exists []. rewrite app_nil_r. split; [done|]. split; [apply token_frame_refl|done]. }
  unfold main.step. destruct (main.exited s); [done|].
  destruct a as [|r|msg|].
  - destruct (main.main_out s || main.main_waits s); [done|].
    pose proof (past_line_64_keeps s Hpast) as Hkeeps.
    destruct (main.main_rest s) as [|stmt rest] eqn:Hrest; [done|].
    pose proof (past_line_64_next s stmt rest Hpast Hrest) as Hnext.
    assert (Hhere : ∃ k, 5 ≤ k ∧ stmt :: rest = drop k main.body).
    { destruct Hpast as (k & Hk & Heq). exists k. by rewrite <- Heq, Hrest. }
    apply Forall_cons in Hkeeps as [Hstmt _].
    destruct stmt as [m| | |]; simpl in *.
    + specialize (Hstmt (main.sys_state s)). unfold main.finish.
      destruct (m (main.sys_state s)) as [evs [[] st'|why st'|pmsg st']];
        unfold events_of, result_of in *; simpl in *.
      * by exists evs.
      * destruct why; first [exact Hsame | by exists evs].
      * by exists evs.
    + exists [EvGo ListenGoroutine]. split; [done|]. split; [|done].
      by apply token_frame_quiet.
    + exists []. rewrite app_nil_r. split; [done|]. split; [apply token_frame_refl|done].
    + exists []. rewrite app_nil_r. split; [done|]. split; [apply token_frame_refl|done].
  - destruct (negb (main.listening s)); [done|]. unfold main.finish.
    pose proof (Listen_iteration_frame r (main.sys_state s)) as Hframe. simpl in Hframe.
    destruct (connection.Listen_iteration chat.call_resp chat.call_disc r (main.sys_state s))
      as [evs res]; unfold events_of, result_of in *; simpl in *.
    assert (Htf : token_frame (main.sys_state s) evs (final_state res)).
    { destruct Hframe as [(-> & -> & _)|(c & evs' & -> & Hsf)].
      - apply token_frame_refl.
      - apply (token_frame_trans _ [EvReadJSON c r] (main.sys_state s) evs').
        + by apply token_frame_quiet.
        + apply Hsf. }
    destruct res as [[err|] st'|why st'|pmsg st']; simpl in *.
    + exists (evs ++ [EvLog FatalLevel [LErr err]]). rewrite app_assoc.
      split; [done|]. split; [|done].
      apply (token_frame_trans _ evs st' [_]); [done|]. by apply token_frame_quiet.
    + by exists evs.
    + destruct why; try done; by exists evs.
    + by exists evs.
  - destruct (negb (main.msg_send_wired s)); [done|]. unfold main.finish.
    pose proof (sf_PostMessage msg (main.sys_state s)) as [_ Htf].
    destruct (chat.PostMessage msg (main.sys_state s)) as [evs [[] st'|why st'|pmsg st']];
      unfold events_of, result_of in *; simpl in *.
    + by exists evs.
    + destruct why; try done; by exists evs.
    + by exists evs.
  - destruct (negb (main.online_box_wired s)); [done|]. unfold main.finish.
    pose proof (sf_RequestOnlineUsers (main.sys_state s)) as [_ Htf].
    destruct (chat.RequestOnlineUsers (main.sys_state s))
      as [evs [[] st'|why st'|pmsg st']];
      unfold events_of, result_of in *; simpl in *.
    + by exists evs.
    + destruct why; try done; by exists evs.
    + by exists evs.
Qed.

Lemma run_token_frame sched s :
  past_line_64 s →
  ∃ new, main.sys_log (main.run sched s) = main.sys_log s ++ new ∧
         token_frame (main.sys_state s) new (main.sys_state (main.run sched s)).
Proof.
  revert s. induction sched as [|a sched IH]; intros s Hpast; simpl.
  - exists []. rewrite app_nil_r. split; [done|apply token_frame_refl].
  - destruct (step_token_frame a s Hpast) as (new1 & Hlog1 & Hf1 & Hpast1).
    destruct (IH _ Hpast1) as (new2 & Hlog2 & Hf2).
    exists (new1 ++ new2). unfold main.run in *. rewrite Hlog2, Hlog1, app_assoc.
    split; [done|]. by eapply token_frame_trans.
Qed.

End token_facts.

(** C10.  From a disconnect event on, whatever the goroutines do next and in
    whatever order: as long as no token is handed over through [tokenCh],
    the stored token is the one from before the disconnect, and every
    post-message and online-users request written carries it. *)
Theorem token_is_stale_until_the_next_handover `{Libraries}
    (s : main.System) (err : error) (sched : list main.action) :
  past_line_64 s →
  As_CloseError err || As_netError err = true →
  let s' := main.run (main.RunListen (ReadErr err) :: sched) s in
  ∃ new,
    main.sys_log s' = main.sys_log s ++ new ∧
    (token_deliveries new = [] →
       token (chatH (main.sys_state s')) = token (chatH (main.sys_state s)) ∧
       Forall (carries (token (chatH (main.sys_state s)))) (writes new)).
Proof.
  intros Hpast _ s'. subst s'.
  destruct (run_token_frame (main.RunListen (ReadErr err) :: sched) s Hpast)
    as (new & Hlog & Hframe).
  by exists new.
Qed.

Lemma token_is_stale_until_the_next_handover_witness :
  let s := main.run (H:=wire_libraries)
             (replicate 9 main.RunMain
              ++ [main.RunListen (ReadOk (login_response "T" statusOk))]
              ++ replicate 8 main.RunMain)
             (main.start (H:=wire_libraries) example_cfg [DialOk open_conn] []) in
  let s' := main.run (H:=wire_libraries)
              [main.RunListen (ReadErr (CloseError 1006 "abnormal closure"));
               main.SendMessage "hi"] s in
  token (chatH (main.sys_state s)) = "T" ∧
  ∃ new,
    main.sys_log s' = main.sys_log s ++ new ∧
    (token_deliveries new = [] →
       token (chatH (main.sys_state s')) = token (chatH (main.sys_state s)) ∧
       Forall (carries (token (chatH (main.sys_state s)))) (writes new)).
Proof.
  split; [vm_compute; reflexivity|].
  apply (token_is_stale_until_the_next_handover (H:=wire_libraries)
           (main.run (H:=wire_libraries)
              (replicate 9 main.RunMain
               ++ [main.RunListen (ReadOk (login_response "T" statusOk))]
               ++ replicate 8 main.RunMain)
              (main.start (H:=wire_libraries) example_cfg [DialOk open_conn] []))
           (CloseError 1006 "abnormal closure") [main.SendMessage "hi"]).
  - exists 17. split; [lia|vm_compute; reflexivity].
  - reflexivity.
Defined.


(** ** The order of the wiring *)
Ltac case_event e :=
  destruct e;
  repeat match goal with
         | g : goroutine |- _ => destruct g
         | l : chat.RespListener |- _ => destruct l
         end.

Section order_facts.
Local Abbreviation Ev := (event chat.RespListener chat.DisconnectListener).
Implicit Types (e : Ev) (log evs : list Ev).

Lemma seen_app p log1 log2 : seen p (log1 ++ log2) = seen p log1 || seen p log2.
Proof. apply existsb_app. Qed.

Lemma wired_in_order_app go read tok log1 log2 :
  wired_in_order go read tok (log1 ++ log2)
  = wired_in_order go read tok log1
    && wired_in_order (go || seen is_go_listen log1) (read || seen is_read log1)
         (tok || seen is_token_to_main log1) log2.
Proof.
  revert go read tok. induction log1 as [|e log1 IH]; intros go read tok; simpl.
  { by rewrite !orb_false_r. }
  case_event e; simpl; rewrite ?IH; destruct go, read, tok; simpl; reflexivity.
Qed.

Lemma beside_wiring_seen evs :
  Forall (λ e, beside_wiring e = true) evs →
  seen is_go_listen evs = false ∧ seen is_read evs = false
  ∧ seen is_token_to_main evs = false.
Proof.
  induction 1 as [|e evs He _ (IH1 & IH2 & IH3)]; [done|]. simpl.
  rewrite IH1, IH2, IH3.
  unfold beside_wiring in He. apply andb_true_iff in He as [Hw Ht].
  apply negb_true_iff in Hw, Ht. rewrite Ht.
  case_event e; try discriminate Hw; done.
Qed.

Lemma beside_wiring_in_order go read tok evs :
  Forall (λ e, beside_wiring e = true) evs → wired_in_order go read tok evs = true.
Proof.
  induction 1 as [|e evs He _ IH]; [done|]. simpl.
  unfold beside_wiring in He. apply andb_true_iff in He as [Hw Ht].
  apply negb_true_iff in Hw, Ht. rewrite Ht.
  case_event e; try discriminate Hw; try discriminate Ht; done.
Qed.

(** After a read, events that are no wiring events keep the order. *)
Lemma after_read_in_order tok evs :
  Forall (λ e, wiring_event e = false) evs → wired_in_order true true tok evs = true.
Proof.
  intros Hev. revert tok. induction Hev as [|e evs He _ IH]; intros tok; [done|].
  simpl. case_event e; try discriminate He; simpl; auto.
Qed.

Lemma no_wiring_seen evs :
  Forall (λ e, wiring_event e = false) evs →
  seen is_go_listen evs = false ∧ seen is_read evs = false.
Proof.
  induction 1 as [|e evs He _ (IH1 & IH2)]; [done|]. simpl. rewrite IH1, IH2.
  case_event e; try discriminate He; done.
Qed.

Lemma token_to_main_seen evs :
  token_to_main evs → seen is_token_to_main evs = true.
Proof.
  intros [tok Hin]. apply existsb_exists. exists (EvToken MainGoroutine tok).
  split; [by apply list_elem_of_In|done].
Qed.

End order_facts.

(** ** The statements of [main] beside the wiring *)
Section main_frame_facts.
Context `{Libraries}.
Local Abbreviation St := (State chat.RespListener chat.DisconnectListener).
Local Abbreviation Ev := (event chat.RespListener chat.DisconnectListener).
Local Abbreviation M := (M chat.RespListener chat.DisconnectListener).
Implicit Types (st : St) (evs : list Ev) (s : main.System).

Lemma main_frame_refl st : main_frame st [] st.
Proof. intros Hu. by split. Qed.

Lemma main_frame_trans st1 e1 st2 e2 st3 :
  main_frame st1 e1 st2 → main_frame st2 e2 st3 → main_frame st1 (e1 ++ e2) st3.
Proof.
  intros H1 H2 Hu. destruct (H1 Hu) as [Hf1 Hu2]. destruct (H2 Hu2) as [Hf2 Hu3].
  split; [by apply Forall_app|done].
Qed.

Lemma mf_ret {A} (a : A) : keeps main_frame (mret a : M A).
Proof. apply keeps_ret, main_frame_refl. Qed.

Lemma mf_park {A} why : keeps main_frame (park why : M A).
Proof. apply keeps_park, main_frame_refl. Qed.

Lemma mf_panic {A} msg : keeps main_frame (panic msg : M A).
Proof. apply keeps_panic, main_frame_refl. Qed.

Lemma mf_bind {A B} (m : M A) (k : A → M B) :
  keeps main_frame m → (∀ a, keeps main_frame (k a)) → keeps main_frame (m ≫= k).
Proof. apply keeps_bind, main_frame_trans. Qed.

Lemma mf_emit e : beside_wiring e = true → keeps main_frame (emit e : M unit).
Proof. intros He st Hu. split; [by repeat constructor|done]. Qed.

Lemma mf_log lvl args : keeps main_frame (log lvl args : M unit).
Proof. by apply mf_emit. Qed.

Lemma mf_Sleep n : keeps main_frame (time_Sleep n : M unit).
Proof. by apply mf_emit. Qed.

Lemma mf_modify (f : St → St) :
  (∀ st, tokenCh (chatH (f st)) = tokenCh (chatH st)) → keeps main_frame (modify f).
Proof.
  intros Hf st Hu. split; [constructor|]. unfold tokenCh_unbuffered in *. simpl.
  by rewrite Hf.
Qed.

Lemma mf_Connect_loop script : keeps main_frame (connection.Connect_loop script : M unit).
Proof.
  induction script as [|[c|e] script IH]; simpl.
  - apply mf_park.
  - apply keeps_get_bind. intros st.
    apply (mf_bind (modify _)); [by apply mf_modify|]. intros _.
    apply mf_bind; [by apply mf_emit|]. intros _.
    apply mf_bind; [by apply mf_modify|]. intros _. apply mf_log.
  - apply keeps_get_bind. intros st.
    apply (mf_bind (modify _)); [by apply mf_modify|]. intros _.
    apply mf_bind; [by apply mf_emit|]. intros _.
    apply mf_bind; [apply mf_log|]. intros _.
    apply mf_bind; [apply mf_Sleep|]. intros _. apply IH.
Qed.

Lemma mf_Connect : keeps main_frame (connection.Connect : M unit).
Proof. apply keeps_get_bind. intros st. apply mf_Connect_loop. Qed.

Lemma mf_WriteJSON req : keeps main_frame (connection.WriteJSON req : M _).
Proof.
  apply keeps_get_bind. intros st. destruct (conn (connH st)); [|apply mf_panic].
  unfold connection.ws_WriteJSON. apply mf_bind; [by apply mf_emit|].
  intros _. apply mf_ret.
Qed.

Lemma mf_login_and_log : keeps main_frame (chat.login_and_log : M unit).
Proof.
  unfold chat.login_and_log, chat.login. apply mf_bind.
  - apply keeps_get_bind. intros st. apply mf_bind; [apply mf_WriteJSON|].
    intros err. apply mf_ret.
  - intros [e|]; [apply mf_log|apply mf_ret].
Qed.

Lemma mf_PostMessage msg : keeps main_frame (chat.PostMessage msg : M unit).
Proof.
  apply keeps_get_bind. intros st. apply mf_bind; [apply mf_WriteJSON|].
  intros [e|]; [apply mf_log|apply mf_ret].
Qed.

Lemma mf_RequestOnlineUsers : keeps main_frame (chat.RequestOnlineUsers : M unit).
Proof.
  apply keeps_get_bind. intros st. apply mf_bind; [apply mf_WriteJSON|].
  intros [e|]; [apply mf_log|apply mf_ret].
Qed.

Lemma mf_ask_nickname_loop script :
  keeps main_frame
    (stdin.ask_loop script true "Enter your nickname: " stdin.AskNickname_callback
       : M string).
Proof.
  induction script as [|[line err] script IH]; simpl.
  - apply mf_bind; [by apply mf_emit|]. intros _. apply mf_park.
  - apply mf_bind; [by apply mf_emit|]. intros _.
    apply mf_bind; [by apply mf_modify|]. intros _.
    apply mf_bind.
    { unfold stdin.AskNickname_callback.
      destruct (decide _); [apply mf_ret|]. simpl.
      destruct (decide _); [|apply mf_ret].
      apply mf_bind; [apply mf_log|]. intros _. apply mf_ret. }
    intros [|]; [apply IH|].
    destruct err as [e|]; [|apply mf_ret].
    apply mf_bind; [apply mf_log|]. intros _. apply IH.
Qed.

Lemma mf_AskNickname : keeps main_frame (stdin.AskNickname : M string).
Proof.
  unfold stdin.AskNickname, stdin.ask. apply keeps_get_bind. intros st.
  apply mf_ask_nickname_loop.
Qed.

Lemma mf_new_connHandler : keeps main_frame main.new_connHandler.
Proof.
  apply keeps_get_bind. intros st.
  destruct (TLSMode (cfg st)); [by apply mf_modify|apply mf_panic].
Qed.

Lemma mf_ask_nickname_if_empty : keeps main_frame main.ask_nickname_if_empty.
Proof.
  apply keeps_get_bind. intros st. destruct (decide _); [|apply mf_ret].
  apply mf_bind; [apply mf_AskNickname|]. intros n. by apply mf_modify.
Qed.

Lemma mf_NewHandler : keeps main_frame (modify (set_chatH chat.NewHandler) : M unit).
Proof. intros st Hu. split; [constructor|done]. Qed.

Lemma mf_go_Draw_and_wait : keeps main_frame main.go_Draw_and_wait.
Proof.
  unfold main.go_Draw_and_wait. apply mf_bind; [by apply mf_emit|].
  intros _. by apply mf_modify.
Qed.

Lemma mf_go_UpdateOnlineBox : keeps main_frame main.go_UpdateOnlineBox.
Proof.
  unfold main.go_UpdateOnlineBox. apply mf_bind; [by apply mf_emit|].
  intros _. apply mf_modify. intros st.
  by destruct (OnlineUsersCh (ChatUI (chatH st))).
Qed.

(** [main] arrives at [h.token = <-h.tokenCh]: nothing is buffered, it
    waits. *)
Lemma recv_tokenCh_main st :
  tokenCh_unbuffered st →
  ∃ st', chat.recv_tokenCh MainGoroutine st = ([], Ret () st') ∧
         tokenCh_unbuffered st' ∧ main_in_queue st'.
Proof.
  intros [Hcap Hbuf]. unfold chat.recv_tokenCh. rewrite bind_get, Hbuf. mrun.
  eexists. split; [done|]. split; [by split|].
  unfold main_in_queue. simpl. apply elem_of_app. right. by apply list_elem_of_singleton.
Qed.

End main_frame_facts.

(** ** Every step keeps the invariant of the wiring *)
Section wiring_steps.
Context `{Libraries}.
Local Abbreviation St := (State chat.RespListener chat.DisconnectListener).
Local Abbreviation Ev := (event chat.RespListener chat.DisconnectListener).
Local Abbreviation M := (M chat.RespListener chat.DisconnectListener).
Implicit Types (st : St) (evs : list Ev) (s : main.System).

Lemma main_waits_false s :
  main.main_waits s = false → ¬ main_in_queue (main.sys_state s).
Proof. unfold main.main_waits. by intros ?%bool_decide_eq_false. Qed.

Lemma start_wiring_inv c dials lines : wiring_inv_at 0 (main.start c dials lines).
Proof.
  split; [done|]. split; [done|]. split; [by split|].
  split; [done|]. split; intros; lia.
Qed.

Lemma main_do_step k s (m : M unit) :
  wiring_inv_at k s →
  main.exited s = false → main.main_out s = false → main.main_waits s = false →
  main.main_rest s = main.Do m :: drop (S k) main.body →
  k ≠ 3 →
  keeps main_frame m →
  (k = 8 → ∀ st, tokenCh_unbuffered st → main_in_queue (final_state (result_of (m st)))) →
  wiring_inv (main.step main.RunMain s).
Proof.
  intros (Hrest & Hord & Hunb & Hlis & Hgo & Htok) Hex Hout Hwait Hstmt Hk3 Hm Hk8.
  assert (Hinv : wiring_inv_at k s) by done.
  unfold main.step. rewrite Hex, Hout, Hwait, Hstmt. simpl. unfold main.finish.
  specialize (Hm (main.sys_state s) Hunb). specialize (λ Hk, Hk8 Hk (main.sys_state s) Hunb).
  apply main_waits_false in Hwait.
  assert (Htok' : 9 ≤ k → seen is_token_to_main (main.sys_log s) = true).
  { intros Hk. by destruct (Htok Hk). }
  destruct (m (main.sys_state s)) as [evs [[] st'|why st'|pmsg st']];
    unfold events_of, result_of in *; simpl in *; destruct Hm as [Hev Hunb'];
    pose proof (beside_wiring_in_order
                  (false || seen is_go_listen (main.sys_log s))
                  (false || seen is_read (main.sys_log s))
                  (false || seen is_token_to_main (main.sys_log s)) evs Hev) as Hord'.
  - exists (S k). split; [done|]. simpl.
    split; [by rewrite wired_in_order_app, Hord, Hord'|].
    split; [done|].
    split; [intros Hl; rewrite seen_app, (Hlis Hl); done|].
    split; [intros Hk; rewrite seen_app, Hgo by lia; done|].
    intros Hk. destruct (decide (k = 8)) as [->|Hne]; [left; auto|].
    right. rewrite seen_app, Htok' by lia. done.
  - destruct why; try (by exists k);
      (exists k; split; [by rewrite <- Hrest, Hstmt|]; simpl;
       split; [by rewrite wired_in_order_app, Hord, Hord'|];
       split; [done|];
       split; [intros Hl; rewrite seen_app, (Hlis Hl); done|];
       split; [intros Hk; rewrite seen_app, Hgo by lia; done|];
       intros Hk; right; rewrite seen_app, Htok' by lia; done).
  - exists k. split; [by rewrite <- Hrest, Hstmt|]. simpl.
    split; [by rewrite wired_in_order_app, Hord, Hord'|].
    split; [done|].
    split; [intros Hl; rewrite seen_app, (Hlis Hl); done|].
    split; [intros Hk; rewrite seen_app, Hgo by lia; done|].
    intros Hk. right. rewrite seen_app, Htok' by lia. done.
Qed.

Lemma main_reg_step k s (m : M unit) e :
  wiring_inv_at k s →
  main.exited s = false → main.main_out s = false → main.main_waits s = false →
  main.main_rest s = main.Do m :: drop (S k) main.body →
  4 ≤ k → k ≠ 8 →
  (∀ st, ∃ st', m st = ([e], Ret () st') ∧ chatH st' = chatH st) →
  is_registration e = true →
  (is_late_registration e = true → 9 ≤ k) →
  wiring_inv (main.step main.RunMain s).
Proof.
  intros (Hrest & Hord & Hunb & Hlis & Hgo & Htok) Hex Hout Hwait Hstmt Hk4 Hk8 Hm Hreg Hlate.
  unfold main.step. rewrite Hex, Hout, Hwait, Hstmt. simpl. unfold main.finish.
  destruct (Hm (main.sys_state s)) as (st' & -> & Hch). simpl.
  apply main_waits_false in Hwait.
  assert (Htok' : 9 ≤ k → seen is_token_to_main (main.sys_log s) = true).
  { intros Hk. by destruct (Htok Hk). }
  exists (S k). split; [done|]. simpl.
  split.
  { rewrite wired_in_order_app, Hord, Hgo by lia. simpl.
    destruct (is_late_registration e) eqn:Hl.
    - rewrite Htok' by auto. by case_event e.
    - by case_event e. }
  split; [unfold tokenCh_unbuffered; by rewrite Hch|].
  split; [intros Hl; rewrite seen_app, (Hlis Hl); done|].
  split; [intros Hk; rewrite seen_app, Hgo by lia; done|].
  intros Hk. right. rewrite seen_app, Htok' by lia. done.
Qed.

Lemma body_at k stmt rest :
  drop k main.body = stmt :: rest →
  main.body !! k = Some stmt ∧ rest = drop (S k) main.body.
Proof.
  intros Hd. split.
  - rewrite <- (Nat.add_0_r k), <- lookup_drop, Hd. done.
  - replace (S k) with (k + 1) by lia. by rewrite <- drop_drop, Hd.
Qed.

Lemma AddOnRespListener_reg (l : chat.RespListener) st :
  ∃ st', connection.AddOnRespListener l st = ([EvAddOnRespListener l], Ret () st')
         ∧ chatH st' = chatH st.
Proof. rewrite AddOnRespListener_run. by eexists. Qed.

Lemma step_main_wiring_inv s :
  wiring_inv s → wiring_inv (main.step main.RunMain s).
Proof.
  intros [k Hinv].
  destruct (main.exited s) eqn:Hex.
  { unfold main.step. rewrite Hex. by exists k. }
  destruct (main.main_out s) eqn:Hout.
  { unfold main.step. rewrite Hex, Hout. by exists k. }
  destruct (main.main_waits s) eqn:Hwait.
  { unfold main.step. rewrite Hex, Hout, Hwait. by exists k. }
  destruct (main.main_rest s) as [|stmt rest] eqn:Hmr.
  { unfold main.step. rewrite Hex, Hout, Hwait, Hmr. by exists k. }
  pose proof Hinv as (Hrest & Hord & Hunb & Hlis & Hgo & Htok).
  rewrite Hmr in Hrest. symmetry in Hrest.
  apply body_at in Hrest as [Hat ->].
  apply main_waits_false in Hwait as Hnq.
  assert (Htok' : 9 ≤ k → seen is_token_to_main (main.sys_log s) = true).
  { intros Hk. by destruct (Htok Hk). }
  let rec cases n :=
    lazymatch n with
    | O => discriminate Hat
    | S ?n' => destruct k as [|k]; [injection Hat as <-|cases n']
    end in
  cases 17.
  - (* 49 *) eapply main_do_step; eauto using mf_new_connHandler. lia.
  - (* 50 *) eapply main_do_step; eauto using mf_Connect. lia.
  - (* 54 *) eapply main_do_step; eauto using mf_ask_nickname_if_empty. lia.
  - (* 58 *) unfold main.step. rewrite Hex, Hout, Hwait, Hmr.
    exists 4. split; [done|]. simpl.
    split; [by rewrite wired_in_order_app, Hord|].
    split; [done|].
    rewrite seen_app. simpl. rewrite orb_true_r.
    split; [done|]. split; [done|]. intros; lia.
  - (* 64 *) eapply main_do_step; eauto using mf_NewHandler. lia.
  - (* 66 *) eapply main_reg_step;
      eauto using AddOnDisconnectListener_run; try lia; try done.
  - (* 67 *) eapply main_reg_step;
      eauto using AddOnRespListener_reg; try lia; try done.
  - (* 68 *) eapply main_do_step; eauto using mf_login_and_log. lia.
  - (* 68 *) eapply main_do_step; eauto.
    + intros st Hu. destruct (recv_tokenCh_main st Hu) as (st' & -> & Hu' & _).
      by split.
    + intros _ st Hu. by destruct (recv_tokenCh_main st Hu) as (st' & -> & _ & Hq).
  - (* 70 *) eapply main_do_step; eauto; [|lia]. by apply mf_modify.
  - (* 75 *) eapply main_do_step; eauto using mf_go_Draw_and_wait. lia.
  - (* 81 *) eapply main_do_step; eauto using mf_go_UpdateOnlineBox. lia.
  - (* 87 *) unfold main.step. rewrite Hex, Hout, Hwait, Hmr.
    exists 13. split; [done|]. simpl. split; [done|]. split; [done|].
    split; [done|]. split; [intros; apply Hgo; lia|]. intros _. right. apply Htok'. lia.
  - (* 88 *) unfold main.step. rewrite Hex, Hout, Hwait, Hmr.
    exists 14. split; [done|]. simpl. split; [done|]. split; [done|].
    split; [done|]. split; [intros; apply Hgo; lia|]. intros _. right. apply Htok'. lia.
  - (* 90 *) eapply main_reg_step;
      eauto using AddOnRespListener_reg; try lia; try done.
  - (* 91 *) eapply main_reg_step;
      eauto using AddOnRespListener_reg; try lia; try done.
  - (* 92 *) eapply main_reg_step;
      eauto using AddOnRespListener_reg; try lia; try done.
Qed.

End wiring_steps.

Section wiring_run.
Context `{Libraries}.
Local Abbreviation St := (State chat.RespListener chat.DisconnectListener).
Local Abbreviation Ev := (event chat.RespListener chat.DisconnectListener).
Local Abbreviation M := (M chat.RespListener chat.DisconnectListener).
Implicit Types (st : St) (evs : list Ev) (s : main.System).

(** The invariant after more events of the receive loop or of the UI. *)
Lemma wiring_inv_more k s st' evs out listening' wired1 wired2 exited' :
  wiring_inv_at k s →
  wired_in_order (seen is_go_listen (main.sys_log s)) (seen is_read (main.sys_log s))
    (seen is_token_to_main (main.sys_log s)) evs = true →
  tokenCh_unbuffered st' →
  (listening' = true → main.listening s = true) →
  (main_in_queue (main.sys_state s) →
   main_in_queue st' ∨ seen is_token_to_main evs = true) →
  wiring_inv (main.MkSystem st' (main.sys_log s ++ evs) (main.main_rest s) out
                listening' wired1 wired2 exited').
Proof.
  intros (Hrest & Hord & Hunb & Hlis & Hgo & Htok) Hord' Hunb' Hl Hq.
  exists k. split; [done|]. simpl.
  split; [by rewrite wired_in_order_app, Hord|].
  split; [done|].
  split; [intros Hl'; rewrite seen_app, (Hlis (Hl Hl')); done|].
  split; [intros Hk; rewrite seen_app, Hgo by lia; done|].
  intros Hk. rewrite seen_app. destruct (Htok Hk) as [Hin| ->]; [|by right].
  destruct (Hq Hin) as [Hin'| ->]; [by left|right]. by rewrite orb_true_r.
Qed.

Lemma step_listen_wiring_inv r s :
  wiring_inv s → wiring_inv (main.step (main.RunListen r) s).
Proof.
  intros [k Hinv]. pose proof Hinv as (Hrest & Hord & Hunb & Hlis & Hgo & Htok).
  unfold main.step. destruct (main.exited s); [by exists k|].
  destruct (main.listening s) eqn:Hl; simpl; [|by exists k].
  specialize (Hlis eq_refl). unfold main.finish.
  pose proof (Listen_iteration_frame r (main.sys_state s)) as Hframe. simpl in Hframe.
  destruct (connection.Listen_iteration chat.call_resp chat.call_disc r (main.sys_state s))
    as [evs res]; unfold events_of, result_of in *; simpl in *.
  assert (Hmore : ∀ extra, Forall (λ e, beside_wiring e = true) extra →
            wired_in_order (seen is_go_listen (main.sys_log s))
              (seen is_read (main.sys_log s))
              (seen is_token_to_main (main.sys_log s)) (evs ++ extra) = true
            ∧ tokenCh_unbuffered (final_state res)
            ∧ (main_in_queue (main.sys_state s) →
               main_in_queue (final_state res)
               ∨ seen is_token_to_main (evs ++ extra) = true)).
  { intros extra Hextra.
    destruct Hframe as [(-> & -> & _)|(c & evs' & -> & (Hw & Hu & Hq) & _)].
    - simpl. split; [by apply beside_wiring_in_order|]. split; [done|by left].
    - split; [|split; [auto|]].
      + rewrite wired_in_order_app. simpl. rewrite Hlis. simpl.
        rewrite after_read_in_order by done. simpl.
        by apply beside_wiring_in_order.
      + intros Hin. destruct (Hq Hin) as [?|Htm]; [by left|right].
        rewrite seen_app. simpl. by rewrite (token_to_main_seen _ Htm). }
  destruct res as [[err|] st'|why st'|pmsg st']; simpl in *.
  - destruct (Hmore [EvLog FatalLevel [LErr err]]) as (Ho & Hu & Hq); [by repeat constructor|].
    rewrite <- app_assoc. eapply wiring_inv_more; eauto.
  - destruct (Hmore []) as (Ho & Hu & Hq); [constructor|]. rewrite app_nil_r in Ho, Hq.
    eapply wiring_inv_more; eauto.
  - destruct (Hmore []) as (Ho & Hu & Hq); [constructor|]. rewrite app_nil_r in Ho, Hq.
    destruct why; try (by exists k); eapply wiring_inv_more; eauto.
  - destruct (Hmore []) as (Ho & Hu & Hq); [constructor|]. rewrite app_nil_r in Ho, Hq.
    eapply wiring_inv_more; eauto.
Qed.

Lemma step_ui_wiring_inv s (m : M unit) :
  keeps main_frame m → keeps session_frame m → wiring_inv s →
  wiring_inv
    (main.finish s (m (main.sys_state s))
       (λ _ st log, main.MkSystem st log (main.main_rest s) (main.main_out s)
                      (main.listening s) (main.msg_send_wired s)
                      (main.online_box_wired s) false)
       (λ st log, main.MkSystem st log (main.main_rest s) (main.main_out s)
                    (main.listening s) (main.msg_send_wired s)
                    (main.online_box_wired s) false)).
Proof.
  intros Hm Hsf [k Hinv]. pose proof Hinv as (Hrest & Hord & Hunb & Hlis & Hgo & Htok).
  unfold main.finish. specialize (Hm (main.sys_state s) Hunb).
  destruct (Hsf (main.sys_state s)) as [(_ & _ & Hq) _].
  destruct (m (main.sys_state s)) as [evs [[] st'|why st'|pmsg st']];
    unfold events_of, result_of in *; simpl in *; destruct Hm as [Hev Hunb'];
    try (destruct why; try (by exists k));
    (eapply wiring_inv_more; eauto using beside_wiring_in_order;
     intros Hin; destruct (Hq Hin) as [?|Htm]; [by left|right];
     by apply token_to_main_seen).
Qed.

Lemma step_wiring_inv a s : wiring_inv s → wiring_inv (main.step a s).
Proof.
  intros Hinv. destruct a as [|r|msg|].
  - by apply step_main_wiring_inv.
  - by apply step_listen_wiring_inv.
  - unfold main.step. destruct (main.exited s); [done|].
    destruct (negb (main.msg_send_wired s)); [done|].
    apply step_ui_wiring_inv; [apply mf_PostMessage|apply sf_PostMessage|done].
  - unfold main.step. destruct (main.exited s); [done|].
    destruct (negb (main.online_box_wired s)); [done|].
    apply step_ui_wiring_inv;
      [apply mf_RequestOnlineUsers|apply sf_RequestOnlineUsers|done].
Qed.

Lemma run_wiring_inv sched s : wiring_inv s → wiring_inv (main.run sched s).
Proof.
  revert s. induction sched as [|a sched IH]; intros s Hinv; [done|].
  simpl. apply IH, step_wiring_inv, Hinv.
Qed.

(** A token for [main] in a log in the order of the wiring comes after a
    read. *)
Lemma token_seen_after_read go read tok (log : list Ev) :
  wired_in_order go read tok log = true →
  seen is_token_to_main log = true →
  read = true ∨ seen is_read log = true.
Proof.
  revert go read tok. induction log as [|e log IH]; intros go read tok; [done|].
  simpl. case_event e; simpl; intros Ho Hs;
    repeat match goal with
           | H : _ && _ = true |- _ => apply andb_true_iff in H as [??]
           end;
    try (destruct (IH _ _ _ Ho Hs) as [?|?]; by auto);
    try (by left); try (by right);
    try match goal with
        | H : wired_in_order _ _ _ log = true |- _ =>
            destruct (IH _ _ _ H Hs) as [?|?]; by auto
        end.
Qed.

Lemma seen_elem (p : Ev → bool) (log : list Ev) :
  seen p log = true → ∃ e, e ∈ log ∧ p e = true.
Proof.
  intros (e & Hin & Hp)%existsb_exists. exists e. split; [by apply list_elem_of_In|done].
Qed.

End wiring_run.

(** The claim of C6 fails on the run in which [main] executes its wiring
    up to the wait for the token, the receive loop reads the ok login
    response and hands over the token, and [main] finishes its wiring: the
    whole wiring is done, every registration comes after the start of the
    receive loop, and three of them after its first read. *)
Lemma wiring_registers_while_the_loop_runs :
  let ok := login_response "T" statusOk in
  let s := main.run (H:=wire_libraries)
             (replicate 9 main.RunMain ++ [main.RunListen (ReadOk ok)]
              ++ replicate 8 main.RunMain)
             (main.start (H:=wire_libraries) example_cfg [DialOk open_conn] []) in
  main.main_rest s = [] ∧
  onResponse (connH (main.sys_state s))
  = [chat.LoginResponseFn; chat.ChatMsgToClientFn; chat.PostMessageResponseFn;
     chat.OnlineUsersFn] ∧
  none_after is_go_listen is_registration (main.sys_log s) = false ∧
  none_after is_read is_registration (main.sys_log s) = false ∧
  registered_before_the_loop (main.sys_log s) = false.
Proof. vm_compute. repeat split. Qed.

(** C6, amended.  In every run of the program, whatever the configuration,
    the dial outcomes, the input and the order of the steps: a listener is
    registered only after the receive loop has been started, and the
    chat-message, post-message-response and online-users listeners only
    after the receive loop has read from the connection and a token has
    been handed to [main]. *)
Theorem listeners_are_registered_after_the_loop_starts `{Libraries}
    (c : Config) (dials : list DialResult) (lines : list (string * option error))
    (sched : list main.action)
    (pre : list (event chat.RespListener chat.DisconnectListener))
    (e : event chat.RespListener chat.DisconnectListener)
    (post : list (event chat.RespListener chat.DisconnectListener)) :
  main.sys_log (main.run sched (main.start c dials lines)) = pre ++ e :: post →
  is_registration e = true →
  EvGo ListenGoroutine ∈ pre ∧
  (is_late_registration e = true →
     (∃ conn r, EvReadJSON conn r ∈ pre) ∧ (∃ tok, EvToken MainGoroutine tok ∈ pre)).
Proof.
  intros Hlog Hreg.
  destruct (run_wiring_inv sched (main.start c dials lines)) as (k & _ & Hord & _).
  { exists 0. apply start_wiring_inv. }
  rewrite Hlog, wired_in_order_app in Hord.
  apply andb_true_iff in Hord as [Hpre Hord]. simpl in Hord.
  assert (Hgo : seen is_go_listen pre = true
                ∧ (is_late_registration e = true → seen is_token_to_main pre = true)).
  { revert Hord. case_event e; try discriminate Hreg; simpl;
      intros Ho;
      repeat match goal with
             | H : _ && _ = true |- _ => apply andb_true_iff in H as [??]
             end; split; try done; intros; done. }
  destruct Hgo as [Hgo Hlate]. split.
  - apply seen_elem in Hgo as (e' & Hin & He'). by case_event e'.
  - intros Hl. specialize (Hlate Hl).
    destruct (token_seen_after_read _ _ _ _ Hpre Hlate) as [?|Hread]; [done|].
    split.
    + apply seen_elem in Hread as (e' & Hin & He'). case_event e'; try done; by eexists _, _.
    + apply seen_elem in Hlate as (e' & Hin & He'). case_event e'; try done; by eexists.
Qed.

Lemma listeners_are_registered_after_the_loop_starts_witness :
  let log := main.sys_log
               (main.run (H:=wire_libraries)
                  (replicate 9 main.RunMain
                   ++ [main.RunListen (ReadOk (login_response "T" statusOk))]
                   ++ replicate 8 main.RunMain)
                  (main.start (H:=wire_libraries) example_cfg [DialOk open_conn] [])) in
  log !! 12 = Some (EvAddOnRespListener chat.ChatMsgToClientFn) ∧
  EvGo ListenGoroutine ∈ take 12 log ∧
  (∃ conn r, EvReadJSON conn r ∈ take 12 log) ∧
  (∃ tok, EvToken MainGoroutine tok ∈ take 12 log).
Proof.
  intros log. split; [vm_compute; reflexivity|].
  destruct (listeners_are_registered_after_the_loop_starts (H:=wire_libraries)
              example_cfg [DialOk open_conn] []
              (replicate 9 main.RunMain
               ++ [main.RunListen (ReadOk (login_response "T" statusOk))]
               ++ replicate 8 main.RunMain)
              (take 12 log) (EvAddOnRespListener chat.ChatMsgToClientFn)
              (drop 13 log)) as [Hgo Hlate].
  - vm_compute; reflexivity.
  - reflexivity.
  - split; [exact Hgo|]. apply Hlate. reflexivity.
Defined.


(** ** The connection handle *)
Section handle_facts.
Context {RL DL : Type}.
Implicit Types (st : State RL DL) (evs : list (event RL DL)).
Local Abbreviation keeps_handle := (keeps (RL:=RL) (DL:=DL) handle_frame).

Lemma dialled_app evs1 evs2 h :
  dialled (evs1 ++ evs2) h = dialled evs2 (dialled evs1 h).
Proof. apply foldl_app. Qed.

(** A handle that is there stays there. *)
Lemma dialled_is_Some evs h : is_Some h → is_Some (dialled evs h).
Proof.
  revert h. induction evs as [|e evs IH]; intros h Hh; [done|].
  simpl. apply IH. destruct e as [| |u [c|err]| | | | | | | | | | |]; eauto.
Qed.

Lemma handle_frame_refl st : handle_frame st [] st.
Proof. done. Qed.

Lemma handle_frame_trans st1 e1 st2 e2 st3 :
  handle_frame st1 e1 st2 → handle_frame st2 e2 st3 →
  handle_frame st1 (e1 ++ e2) st3.
Proof.
  unfold handle_frame. intros H1 H2. by rewrite dialled_app, <- H1.
Qed.

Lemma hf_ret {A} (a : A) : keeps_handle (mret a).
Proof. apply keeps_ret, handle_frame_refl. Qed.

Lemma hf_park {A} why : keeps_handle (park why : M RL DL A).
Proof. apply keeps_park, handle_frame_refl. Qed.

Lemma hf_panic {A} msg : keeps_handle (panic msg : M RL DL A).
Proof. apply keeps_panic, handle_frame_refl. Qed.

Lemma hf_bind {A B} (m : M RL DL A) (k : A → M RL DL B) :
  keeps_handle m → (∀ a, keeps_handle (k a)) → keeps_handle (m ≫= k).
Proof. apply keeps_bind, handle_frame_trans. Qed.

Lemma hf_emit e : (∀ h, dialled [e] h = h) → keeps_handle (emit e).
Proof.
  intros He st. unfold handle_frame. rewrite emit_run.
  unfold events_of, result_of. cbn [fst snd final_state]. by rewrite He.
Qed.

Lemma hf_log lvl args : keeps_handle (log lvl args).
Proof. by apply hf_emit. Qed.

Lemma hf_Sleep n : keeps_handle (time_Sleep n).
Proof. by apply hf_emit. Qed.

Lemma hf_modify f :
  (∀ st, conn (connH (f st)) = conn (connH st)) → keeps_handle (modify f).
Proof. intros Hf st. apply Hf. Qed.

Lemma hf_Connect_loop script : keeps_handle (connection.Connect_loop script).
Proof.
  induction script as [|[c|e] script IH]; simpl.
  - apply hf_park.
  - intros st. by mrun.
  - apply keeps_get_bind. intros st.
    apply (hf_bind (modify _)); [by apply hf_modify|]. intros _.
    apply hf_bind; [by apply hf_emit|]. intros _.
    apply hf_bind; [apply hf_log|]. intros _.
    apply hf_bind; [apply hf_Sleep|]. intros _. apply IH.
Qed.

Lemma hf_Connect : keeps_handle connection.Connect.
Proof. apply keeps_get_bind. intros st. apply hf_Connect_loop. Qed.

Lemma hf_WriteJSON req : keeps_handle (connection.WriteJSON req).
Proof.
  unfold connection.WriteJSON. apply keeps_get_bind. intros st.
  destruct (conn (connH st)) as [c|]; [|apply hf_panic].
  unfold connection.ws_WriteJSON.
  apply hf_bind; [by apply hf_emit|]. intros _. apply hf_ret.
Qed.

Lemma hf_AddOnRespListener l : keeps_handle (connection.AddOnRespListener l).
Proof.
  unfold connection.AddOnRespListener.
  apply hf_bind; [by apply hf_emit|]. intros _. by apply hf_modify.
Qed.

Lemma hf_AddOnDisconnectListener l :
  keeps_handle (connection.AddOnDisconnectListener l).
Proof.
  unfold connection.AddOnDisconnectListener.
  apply hf_bind; [by apply hf_emit|]. intros _. by apply hf_modify.
Qed.

Section listen.
Variable call_resp : RL → Envelope → M RL DL unit.
Variable call_disc : DL → error → M RL DL unit.
Hypothesis call_resp_handle : ∀ l resp, keeps_handle (call_resp l resp).
Hypothesis call_disc_handle : ∀ l err, keeps_handle (call_disc l err).

Lemma hf_range_onResponse ls resp :
  keeps_handle (connection.range_onResponse call_resp ls resp).
Proof.
  induction ls as [|l ls IH]; simpl; [apply hf_ret|].
  apply hf_bind; [by apply hf_emit|]. intros _.
  apply hf_bind; [apply call_resp_handle|]. intros _. apply IH.
Qed.

Lemma hf_range_onDisconnect ls err :
  keeps_handle (connection.range_onDisconnect call_disc ls err).
Proof.
  induction ls as [|l ls IH]; simpl; [apply hf_ret|].
  apply hf_bind; [by apply hf_emit|]. intros _.
  apply hf_bind; [apply call_disc_handle|]. intros _. apply IH.
Qed.

Lemma hf_Listen_iteration r :
  keeps_handle (connection.Listen_iteration call_resp call_disc r).
Proof.
  unfold connection.Listen_iteration. apply keeps_get_bind. intros st.
  destruct (conn (connH st)) as [c|]; [|apply handle_frame_refl].
  apply hf_bind; [by apply hf_emit|]. intros _.
  destruct r as [resp|err].
  - apply hf_bind; [apply hf_range_onResponse|]. intros _. apply hf_ret.
  - destruct (As_CloseError err || As_netError err).
    + apply hf_bind; [apply hf_range_onDisconnect|]. intros _. apply hf_ret.
    + apply hf_ret.
Qed.

Lemma hf_Listen rs : keeps_handle (connection.Listen call_resp call_disc rs).
Proof.
  induction rs as [|r rs IH]; simpl; [apply hf_park|].
  apply hf_bind; [apply hf_Listen_iteration|]. intros [e|]; [apply hf_ret|apply IH].
Qed.

End listen.
End handle_facts.

(** The functions of package [chat] reach [h.conn] through the methods of
    the transport only. *)
Section handle_chat.
Context `{Libraries} {RL DL : Type}.
Implicit Types (st : State RL DL) (evs : list (event RL DL)).
Local Abbreviation keeps_handle := (keeps (RL:=RL) (DL:=DL) handle_frame).

Lemma hf_login_and_log : keeps_handle chat.login_and_log.
Proof.
  unfold chat.login_and_log, chat.login.
  apply hf_bind.
  - apply keeps_get_bind. intros st.
    apply hf_bind; [apply hf_WriteJSON|]. intros err. apply hf_ret.
  - intros [e|]; [apply hf_log|apply hf_ret].
Qed.

Lemma hf_PostMessage msg : keeps_handle (chat.PostMessage msg).
Proof.
  unfold chat.PostMessage. apply keeps_get_bind. intros st.
  apply hf_bind; [apply hf_WriteJSON|]. intros [e|]; [apply hf_log|apply hf_ret].
Qed.

Lemma hf_RequestOnlineUsers : keeps_handle chat.RequestOnlineUsers.
Proof.
  unfold chat.RequestOnlineUsers. apply keeps_get_bind. intros st.
  apply hf_bind; [apply hf_WriteJSON|]. intros [e|]; [apply hf_log|apply hf_ret].
Qed.

Lemma hf_ask_nickname_loop script :
  keeps_handle (stdin.ask_loop script true "Enter your nickname: "
                  stdin.AskNickname_callback).
Proof.
  induction script as [|[line err] script IH]; simpl.
  - apply hf_bind; [by apply hf_emit|]. intros _. apply hf_park.
  - apply hf_bind; [by apply hf_emit|]. intros _.
    apply (hf_bind (modify _)); [by apply hf_modify|]. intros _.
    apply hf_bind.
    { unfold stdin.AskNickname_callback.
      destruct (decide _); [apply hf_ret|]. simpl.
      destruct (decide _); [|apply hf_ret].
      apply hf_bind; [apply hf_log|]. intros _. apply hf_ret. }
    intros [|]; [apply IH|].
    destruct err as [e|]; [|apply hf_ret].
    apply hf_bind; [apply hf_log|]. intros _. apply IH.
Qed.

Lemma hf_AskNickname : keeps_handle stdin.AskNickname.
Proof.
  unfold stdin.AskNickname, stdin.ask. apply keeps_get_bind. intros st.
  apply hf_ask_nickname_loop.
Qed.

Lemma hf_send_OnlineUsersCh users : keeps_handle (chat.send_OnlineUsersCh users).
Proof.
  unfold chat.send_OnlineUsersCh. apply keeps_get_bind. intros st.
  destruct (chansend _ users) as [r ch|ch| |].
  - apply (hf_bind (modify _)); [by apply hf_modify|]. intros _. by apply hf_emit.
  - by apply hf_modify.
  - apply hf_park.
  - apply hf_park.
Qed.

Lemma hf_send_tokenCh tok : keeps_handle (chat.send_tokenCh tok).
Proof.
  unfold chat.send_tokenCh. apply keeps_get_bind. intros st.
  destruct (chansend _ tok) as [r ch|ch| |].
  - apply (hf_bind (modify _)); [by apply hf_modify|]. intros _. by apply hf_emit.
  - by apply hf_modify.
  - apply hf_park.
  - apply hf_park.
Qed.

Lemma hf_recv_tokenCh g : keeps_handle (chat.recv_tokenCh g).
Proof.
  unfold chat.recv_tokenCh. apply keeps_get_bind. intros st.
  destruct (chan_buf _) as [|tok buf].
  - by apply hf_modify.
  - apply (hf_bind (modify _)); [by apply hf_modify|]. intros _. by apply hf_emit.
Qed.

Lemma hf_onDisconnect_fn err : keeps_handle (chat.onDisconnect_fn err).
Proof.
  unfold chat.onDisconnect_fn.
  apply hf_bind; [apply hf_log|]. intros _.
  apply hf_bind.
  { destruct (negb _); [apply hf_send_OnlineUsersCh|apply hf_ret]. }
  intros _. apply hf_bind; [apply hf_Sleep|]. intros _.
  apply hf_bind; [apply hf_Connect|]. intros _.
  apply hf_bind; [apply hf_login_and_log|]. intros _.
  apply hf_bind; [by apply hf_emit|]. intros _.
  apply hf_recv_tokenCh.
Qed.

Lemma hf_loginResponse_fn resp : keeps_handle (chat.loginResponse_fn resp).
Proof.
  unfold chat.loginResponse_fn.
  destruct (negb _); [apply hf_ret|].
  destruct (Decode_loginResp resp) as [r|e]; [|apply hf_log].
  destruct (decide (loginResp_Status r = statusOk)) as [Hok|Hnok].
  { apply hf_bind; [apply hf_log|]. intros _. apply hf_send_tokenCh. }
  destruct (decide (loginResp_Status r = statusNameAlreadyTaken)) as [Htaken|Hnt];
    [|apply hf_log].
  apply hf_bind; [apply hf_log|]. intros _.
  apply hf_bind; [apply hf_AskNickname|]. intros nick.
  apply (hf_bind (modify _)); [by apply hf_modify|]. intros _.
  apply hf_login_and_log.
Qed.

Lemma hf_chatMsgToClient_fn resp : keeps_handle (chat.chatMsgToClient_fn resp).
Proof.
  unfold chat.chatMsgToClient_fn.
  destruct (negb _); [apply hf_ret|].
  destruct (Decode_chatMsgToClient resp) as [r|e]; [|apply hf_log].
  apply keeps_get_bind. intros st. apply hf_bind.
  - unfold ui.PrintToChatBox. destruct (Gui _) as [[|]|].
    + apply hf_bind; [by apply hf_emit|]. intros _. apply hf_ret.
    + apply hf_ret.
    + apply hf_panic.
  - intros [e|]; [apply hf_log|apply hf_ret].
Qed.

Lemma hf_postMessageResponse_fn resp :
  keeps_handle (chat.postMessageResponse_fn resp).
Proof.
  unfold chat.postMessageResponse_fn.
  destruct (negb _); [apply hf_ret|].
  destruct (Decode_postMsgResp resp) as [r|e]; [|apply hf_log].
  destruct (decide _); [apply hf_log|apply hf_ret].
Qed.

Lemma hf_onlineUsers_fn resp : keeps_handle (chat.onlineUsers_fn resp).
Proof.
  unfold chat.onlineUsers_fn.
  destruct (negb _); [apply hf_ret|].
  destruct (Decode_onlineUsers resp) as [r|e]; [|apply hf_log].
  destruct (decide _); [apply hf_send_OnlineUsersCh|apply hf_log].
Qed.

End handle_chat.

(** ** The handle in a run of the program *)
Section handle_run.
Context `{Libraries}.
Local Abbreviation St := (State chat.RespListener chat.DisconnectListener).
Local Abbreviation Ev := (event chat.RespListener chat.DisconnectListener).
Local Abbreviation M := (M chat.RespListener chat.DisconnectListener).
Implicit Types (st : St) (evs : list Ev) (s : main.System).

Lemma hf_chat_Listen_iteration r :
  keeps handle_frame (connection.Listen_iteration chat.call_resp chat.call_disc r).
Proof.
  apply hf_Listen_iteration.
  - intros [] resp; simpl.
    + apply hf_loginResponse_fn.
    + apply hf_chatMsgToClient_fn.
    + apply hf_postMessageResponse_fn.
    + apply hf_onlineUsers_fn.
  - intros [] err. apply hf_onDisconnect_fn.
Qed.

Lemma hf_chat_Listen rs : keeps handle_frame (chat.Listen rs).
Proof.
  induction rs as [|r rs IH]; simpl; [apply hf_park|].
  apply hf_bind; [apply hf_chat_Listen_iteration|].
  intros [e|]; [apply hf_ret|apply IH].
Qed.

(** The statements of [main] after the handler has been created. *)
Lemma main_keeps_handle_frame :
  Forall (stmt_keeps handle_frame) (drop 1 main.body).
Proof.
  repeat apply Forall_cons_2; try apply Forall_nil_2; simpl; try exact I.
  - apply hf_Connect.
  - unfold main.ask_nickname_if_empty. apply keeps_get_bind. intros st.
    destruct (decide _); [|apply hf_ret].
    apply hf_bind; [apply hf_AskNickname|]. intros nick. by apply hf_modify.
  - intros st. apply handle_frame_refl.
  - by apply hf_modify.
  - apply hf_AddOnDisconnectListener.
  - apply hf_AddOnRespListener.
  - apply hf_login_and_log.
  - apply hf_recv_tokenCh.
  - by apply hf_modify.
  - unfold main.go_Draw_and_wait.
    apply hf_bind; [by apply hf_emit|]. intros _. by apply hf_modify.
  - unfold main.go_UpdateOnlineBox.
    apply hf_bind; [by apply hf_emit|]. intros _. apply hf_modify.
    intros st. by destruct (OnlineUsersCh (ChatUI (chatH st))).
  - apply hf_AddOnRespListener.
  - apply hf_AddOnRespListener.
  - apply hf_AddOnRespListener.
Qed.

Lemma main_stmt_handle k stmt :
  main.body !! k = Some stmt → 1 ≤ k → stmt_keeps handle_frame stmt.
Proof.
  intros Hat Hk.
  eapply (Forall_lookup_1 _ _ (k - 1)); [apply main_keeps_handle_frame|].
  rewrite lookup_drop. by replace (1 + (k - 1)) with k by lia.
Qed.

(** The receive loop is started by the fourth statement. *)
Lemma GoListen_at k : main.body !! k = Some main.GoListen → k = 3.
Proof.
  intros Hat.
  let rec cases n :=
    lazymatch n with
    | O => discriminate Hat
    | S ?n' => destruct k as [|k]; [try discriminate Hat; try done|cases n']
    end in
  cases 17.
Qed.

(** [connection.NewHandler], the first statement, makes a handler with no
    handle. *)
Lemma new_connHandler_handle st :
  conn (connH st) = None →
  events_of (main.new_connHandler st) = [] ∧
  conn (connH (final_state (result_of (main.new_connHandler st)))) = None.
Proof.
  intros Hc. unfold main.new_connHandler. rewrite bind_get.
  by destruct (TLSMode (cfg st)).
Qed.

Lemma start_handle_inv c dials lines : handle_inv_at 0 (main.start c dials lines).
Proof. by repeat split. Qed.

(** A step that ran code keeping to the frame, whatever its end. *)
Lemma handle_frame_log st evs st' log :
  conn (connH st) = dialled log None → handle_frame st evs st' →
  conn (connH st') = dialled (log ++ evs) None.
Proof. intros Hc Hf. by rewrite dialled_app, <- Hc. Qed.

Lemma step_main_handle_inv s : handle_inv s → handle_inv (main.step main.RunMain s).
Proof.
  intros [k Hinv]. unfold main.step.
  destruct (main.exited s) eqn:Hex; [by exists k|].
  destruct (main.main_out s || main.main_waits s) eqn:Hgo; [by exists k|].
  destruct (main.main_rest s) as [|stmt rest] eqn:Hmr; [by exists k|].
  pose proof Hinv as (Hrest & Hlis & Hmsg & Hbox & Hnone & Hconn).
  rewrite Hmr in Hrest. symmetry in Hrest.
  apply body_at in Hrest as [Hat ->].
  destruct stmt as [m| | |].
  - unfold main.finish.
    assert (Hm : conn (connH (final_state (result_of (m (main.sys_state s)))))
                 = dialled (main.sys_log s ++ events_of (m (main.sys_state s))) None ∧
                 (k = 0 →
                  conn (connH (final_state (result_of (m (main.sys_state s))))) = None)).
    { destruct k as [|k].
      - injection Hat as <-.
        destruct (new_connHandler_handle (main.sys_state s)) as [-> Hn]; [by apply Hnone|].
        rewrite app_nil_r, Hn, <- Hconn. split; [|done]. symmetry. by apply Hnone.
      - split; [|done].
        pose proof (main_stmt_handle (S k) (main.Do m) Hat ltac:(lia)) as Hk.
        simpl in Hk. apply (handle_frame_log (main.sys_state s)); [done|apply Hk]. }
    destruct Hm as [Hm Hm0].
    destruct (m (main.sys_state s)) as [evs [[] st'|why st'|pmsg st']];
      unfold events_of, result_of in *; simpl in *.
    + exists (S k). split; [done|]. split; [intros Hl; specialize (Hlis Hl); lia|].
      split; [intros; lia|]. split; [intros; lia|]. split; [intros; lia|done].
    + destruct why; try (by exists k);
        (exists k; split; [by rewrite (drop_S _ _ _ Hat)|]; by repeat split).
    + exists k. split; [by rewrite (drop_S _ _ _ Hat)|]. by repeat split.
  - apply GoListen_at in Hat as ->. exists 4.
    split; [done|]. split; [done|]. split; [intros; lia|]. split; [intros; lia|].
    split; [intros; lia|]. cbn [main.sys_log main.sys_state].
    by rewrite dialled_app, <- Hconn.
  - exists (S k). simpl. split; [done|]. split; [intros Hl; specialize (Hlis Hl); lia|].
    split; [intros; lia|]. split; [intros; lia|]. split; [intros; lia|done].
  - exists (S k). simpl. split; [done|]. split; [intros Hl; specialize (Hlis Hl); lia|].
    split; [intros; lia|]. split; [intros; lia|]. split; [intros; lia|done].
Qed.

Lemma step_listen_handle_inv r s :
  handle_inv s → handle_inv (main.step (main.RunListen r) s).
Proof.
  intros [k Hinv]. unfold main.step.
  destruct (main.exited s) eqn:Hex; [by exists k|].
  destruct (main.listening s) eqn:Hl; [|by exists k]. simpl.
  pose proof Hinv as (Hrest & Hlis & Hmsg & Hbox & Hnone & Hconn).
  specialize (Hlis Hl).
  pose proof (handle_frame_log _ _ _ _ Hconn
                (hf_chat_Listen_iteration r (main.sys_state s))) as Hm.
  unfold main.finish.
  destruct (connection.Listen_iteration chat.call_resp chat.call_disc r (main.sys_state s))
    as [evs res].
  unfold events_of, result_of in *. cbn [fst snd] in *.
  destruct res as [[e|] st'|why st'|pmsg st']; cbn [final_state] in *.
  - exists k. split; [done|]. split; [done|]. split; [done|]. split; [done|].
    split; [intros; lia|]. cbn [main.sys_state main.sys_log].
    by rewrite dialled_app, <- Hm.
  - exists k. split; [done|]. split; [done|]. split; [done|]. split; [done|].
    split; [intros; lia|done].
  - destruct why; try (by exists k);
      (exists k; split; [done|]; split; [done|]; split; [done|]; split; [done|];
       split; [intros; lia|done]).
  - exists k. split; [done|]. split; [done|]. split; [done|]. split; [done|].
    split; [intros; lia|done].
Qed.

Lemma step_ui_handle_inv (m : M unit) s :
  keeps handle_frame m → 
  (∃ k, handle_inv_at k s ∧ 1 ≤ k) →
  handle_inv
    (main.finish s (m (main.sys_state s))
       (λ _ st log, main.MkSystem st log (main.main_rest s) (main.main_out s)
                      (main.listening s) (main.msg_send_wired s)
                      (main.online_box_wired s) false)
       (λ st log, main.MkSystem st log (main.main_rest s) (main.main_out s)
                    (main.listening s) (main.msg_send_wired s)
                    (main.online_box_wired s) false)).
Proof.
  intros Hm (k & Hinv & Hk). pose proof Hinv as (Hrest & Hlis & Hmsg & Hbox & Hnone & Hconn).
  pose proof (handle_frame_log _ _ _ _ Hconn (Hm (main.sys_state s))) as Hf.
  unfold main.finish.
  destruct (m (main.sys_state s)) as [evs res].
  unfold events_of, result_of in *. cbn [fst snd] in *.
  destruct res as [[] st'|why st'|pmsg st']; cbn [final_state] in *.
  - exists k. split; [done|]. split; [done|]. split; [done|]. split; [done|].
    split; [intros; lia|done].
  - destruct why; try (by exists k);
      (exists k; split; [done|]; split; [done|]; split; [done|]; split; [done|];
       split; [intros; lia|done]).
  - exists k. split; [done|]. split; [done|]. split; [done|]. split; [done|].
    split; [intros; lia|done].
Qed.

Lemma step_handle_inv a s : handle_inv s → handle_inv (main.step a s).
Proof.
  destruct a as [|r|msg|].
  - apply step_main_handle_inv.
  - apply step_listen_handle_inv.
  - intros [k Hinv]. unfold main.step.
    destruct (main.exited s) eqn:Hex; [by exists k|].
    destruct (main.msg_send_wired s) eqn:Hw; [|by exists k]. simpl.
    pose proof (step_ui_handle_inv (chat.PostMessage msg) s (hf_PostMessage msg)) as Hstep.
    rewrite Hw in Hstep. apply Hstep. exists k. split; [done|].
    destruct Hinv as (_ & _ & Hmsg & _). by apply Hmsg.
  - intros [k Hinv]. unfold main.step.
    destruct (main.exited s) eqn:Hex; [by exists k|].
    destruct (main.online_box_wired s) eqn:Hw; [|by exists k]. simpl.
    pose proof (step_ui_handle_inv chat.RequestOnlineUsers s hf_RequestOnlineUsers)
      as Hstep.
    rewrite Hw in Hstep. apply Hstep. exists k. split; [done|].
    destruct Hinv as (_ & _ & _ & Hbox & _). by apply Hbox.
Qed.

Lemma run_handle_inv sched s : handle_inv s → handle_inv (main.run sched s).
Proof.
  revert s. induction sched as [|a sched IH]; intros s Hinv; [done|].
  simpl. apply IH. by apply step_handle_inv.
Qed.

End handle_run.

(** ** Sending *)

(** The claim of C9 fails before the first connect: the handler has no
    connection, the send dereferences the nil handle, and no error is
    returned to the caller. *)
Lemma WriteJSON_without_handle_panics :
  let st : State nat nat := fresh_state in
  let req := ReqPostMsg {| postMsgReq_Type := typePostMessageReq;
                           postMsgReq_Token := "t"; postMsgReq_Msg := "hi" |} in
  conn (connH st) = None ∧
  ¬ ∃ e st', result_of (connection.WriteJSON req st) = Ret (Some e) st'.
Proof.
  split; [done|]. intros (e & st' & Hrun). discriminate Hrun.
Qed.

(** C9, amended.
    - A send on a handle that is present and not open makes one attempt to
      write the frame, returns the connection's error to the caller and
      leaves the state as it was: no retry, no dial, no reconnect.
    - A send with no handle makes no attempt and returns nothing: it
      panics on the nil handle.
    - No method of the transport takes the handle out: after [Connect],
      [WriteJSON], [AddOnRespListener], [AddOnDisconnectListener] and
      [Listen] the handle is the connection of the last dial that succeeded
      during the call, and the handle as it was when none did.  This holds
      of [Listen] with any listeners that keep to it, and the listeners and
      requests of package [chat] do; a handle that is there stays there.
    - In every run of the program, whatever the schedule, the handle is the
      connection of the last dial that has succeeded so far: it is absent
      before the first successful dial only, and while the disconnect
      listener reconnects it is the old connection. *)
Theorem WriteJSON_not_open `{Libraries} {RL DL : Type} :
  (∀ (req : request) (st : State RL DL) (c : WsConn) (e : error),
     conn (connH st) = Some c → writeErr c = Some e →
     connection.WriteJSON req st = ([EvWriteJSON c req (Some e)], Ret (Some e) st)) ∧
  (∀ (req : request) (st : State RL DL),
     conn (connH st) = None →
     connection.WriteJSON req st
     = ([], Panicked "invalid memory address or nil pointer dereference" st)) ∧
  keeps handle_frame (connection.Connect (RL:=RL) (DL:=DL)) ∧
  (∀ req, keeps handle_frame (connection.WriteJSON (RL:=RL) (DL:=DL) req)) ∧
  (∀ l, keeps handle_frame (connection.AddOnRespListener (RL:=RL) (DL:=DL) l)) ∧
  (∀ l, keeps handle_frame (connection.AddOnDisconnectListener (RL:=RL) (DL:=DL) l)) ∧
  (∀ (call_resp : RL → Envelope → M RL DL unit) (call_disc : DL → error → M RL DL unit),
     (∀ l resp, keeps handle_frame (call_resp l resp)) →
     (∀ l err, keeps handle_frame (call_disc l err)) →
     ∀ rs, keeps handle_frame (connection.Listen call_resp call_disc rs)) ∧
  (∀ rs, keeps handle_frame (chat.Listen rs)) ∧
  (∀ msg, keeps handle_frame (chat.PostMessage (RL:=RL) (DL:=DL) msg)) ∧
  keeps handle_frame (chat.RequestOnlineUsers (RL:=RL) (DL:=DL)) ∧
  (∀ (st : State RL DL) evs st',
     handle_frame st evs st' → is_Some (conn (connH st)) → is_Some (conn (connH st'))) ∧
  (∀ (c : Config) (dials : list DialResult) (lines : list (string * option error))
     (sched : list main.action),
     let s := main.run sched (main.start c dials lines) in
     conn (connH (main.sys_state s)) = dialled (main.sys_log s) None).
Proof.
  split.
  { intros req st c e Hc He. unfold connection.WriteJSON, connection.ws_WriteJSON.
    rewrite bind_get, Hc, bind_emit, He. reflexivity. }
  split.
  { intros req st Hc. unfold connection.WriteJSON. by rewrite bind_get, Hc. }
  split; [apply hf_Connect|]. split; [apply hf_WriteJSON|].
  split; [apply hf_AddOnRespListener|]. split; [apply hf_AddOnDisconnectListener|].
  split; [intros call_resp call_disc Hr Hd rs; by apply hf_Listen|].
  split; [apply hf_chat_Listen|]. split; [apply hf_PostMessage|].
  split; [apply hf_RequestOnlineUsers|].
  split.
  { intros st evs st' Hf Hsome. rewrite Hf. by apply dialled_is_Some. }
  intros c dials lines sched s.
  destruct (run_handle_inv sched (main.start c dials lines)) as (k & Hinv).
  { exists 0. apply start_handle_inv. }
  by destruct Hinv as (_ & _ & _ & _ & _ & Hconn).
Qed.

Lemma WriteJSON_not_open_witness :
  let req := ReqPostMsg {| postMsgReq_Type := typePostMessageReq;
                           postMsgReq_Token := "t"; postMsgReq_Msg := "hi" |} in
  let refused := ErrorString "connection refused" in
  let st : State nat nat := connected_state closed_conn in
  let down : State nat nat := set_dialQ [DialErr refused; DialErr refused] st in
  connection.WriteJSON req st
  = ([EvWriteJSON closed_conn req (Some (NetError "use of closed network connection"))],
     Ret (Some (NetError "use of closed network connection")) st) ∧
  conn (connH (final_state (result_of (connection.Connect down)))) = Some closed_conn ∧
  conn (connH (main.sys_state
                 (main.run (H:=wire_libraries)
                    (replicate 9 main.RunMain
                     ++ [main.RunListen (ReadOk (login_response "T" statusOk))]
                     ++ replicate 8 main.RunMain
                     ++ [main.RunListen (ReadErr (CloseError 1006 "abnormal closure"))])
                    (main.start (H:=wire_libraries) example_cfg
                       [DialOk open_conn; DialErr refused;
                        DialOk {| connId := 2; writeErr := None |}] []))))
  = Some {| connId := 2; writeErr := None |}.
Proof.
  intros req refused st down.
  destruct (WriteJSON_not_open (H:=wire_libraries) (RL:=nat) (DL:=nat))
    as (Hsend & _ & Hconnect & _ & _ & _ & _ & _ & _ & _ & _ & Hrun).
  split; [|split].
  - apply Hsend; reflexivity.
  - exact (Hconnect down).
  - rewrite Hrun. vm_compute. reflexivity.
Defined.


(** ** The JSON round trip *)
Section json_facts.
Import json.
#[local] Arguments String.append !_ _ / : simpl nomatch.

Lemma append_assoc (a b c : string) : (a +:+ b) +:+ c = a +:+ (b +:+ c).
Proof. induction a as [|x a IH]; [done|]. simpl. by f_equal. Qed.

Lemma append_nil_r (a : string) : a +:+ "" = a.
Proof. induction a as [|x a IH]; [done|]. simpl. by f_equal. Qed.

Lemma length_append (a b : string) :
  String.length (a +:+ b) = String.length a + String.length b.
Proof. induction a as [|x a IH]; [done|]. simpl. by f_equal. Qed.

(** A rune that [DecodeRune] finds is a prefix of the input, starts with a
    byte beyond ASCII, and is found again whatever follows it. *)
Lemma DecodeRune_spec s r rest :
  DecodeRune s = Some (r, rest) →
  s = r +:+ rest ∧
  (∃ b0 r', r = String b0 r' ∧ (194 ≤ code b0)%N) ∧
  ∀ rest', DecodeRune (r +:+ rest') = Some (r, rest').
Proof.
  unfold DecodeRune.
  destruct s as [|b0 [|b1 s2]]; try discriminate.
  destruct (lead_class (code b0)) as [[[size lo] hi]|] eqn:Hlead; [|discriminate].
  assert (Hb0 : (194 ≤ code b0)%N).
  { unfold lead_class in Hlead. destruct (N.ltb_spec (code b0) 194); [discriminate|done]. }
  destruct (in_range lo hi b1) eqn:Hr1; [|discriminate].
  destruct (decide (size = 2)) as [->|Hn2].
  { intros [= <- <-]. split; [done|]. split; [by eexists _, _|].
    intros rest'. simpl. by rewrite Hlead, Hr1. }
  destruct s2 as [|b2 s3]; [discriminate|].
  destruct (is_cont b2) eqn:Hc2; [|discriminate].
  destruct (decide (size = 3)) as [->|Hn3].
  { intros [= <- <-]. split; [done|]. split; [by eexists _, _|].
    intros rest'. simpl. by rewrite Hlead, Hr1, Hc2. }
  destruct s3 as [|b3 s4]; [discriminate|].
  destruct (is_cont b3) eqn:Hc3; [|discriminate].
  intros [= <- <-]. split; [done|]. split; [by eexists _, _|].
  intros rest'. simpl. rewrite Hlead, Hr1, Hc2, Hc3.
  by rewrite !decide_False by done.
Qed.

Lemma pieces_fuel_ok fuel s : Forall piece_ok (pieces_fuel fuel s).
Proof.
  revert s. induction fuel as [|fuel IH]; intros s; simpl; [constructor|].
  destruct s as [|a s']; [constructor|].
  destruct (N.ltb_spec (code a) 128).
  { constructor; [done|apply IH]. }
  destruct (DecodeRune (String a s')) as [[r rest]|] eqn:Hdec.
  - apply DecodeRune_spec in Hdec as (_ & Hlead & Hagain).
    constructor; [by split|apply IH].
  - constructor; [done|apply IH].
Qed.

(** The bytes of the pieces are the bytes of the string. *)
Lemma pieces_fuel_raw fuel s :
  String.length s ≤ fuel → concat_map piece_raw (pieces_fuel fuel s) = s.
Proof.
  revert s. induction fuel as [|fuel IH]; intros s Hlen.
  { destruct s; [done|simpl in Hlen; lia]. }
  simpl. destruct s as [|a s']; [done|]. simpl in Hlen.
  destruct (code a <? 128)%N.
  { simpl. rewrite IH by lia. done. }
  destruct (DecodeRune (String a s')) as [[r rest]|] eqn:Hdec.
  - apply DecodeRune_spec in Hdec as (Hs & (b0 & r' & -> & _) & _).
    simpl. rewrite IH; [done|].
    apply (f_equal String.length) in Hs. simpl in Hs. rewrite length_append in Hs. lia.
  - simpl. rewrite IH by lia. done.
Qed.

(** The decoder undoes the escape of one piece. *)
Lemma unquote_escape_ascii a fuel rest :
  (code a < 128)%N →
  unquote_fuel (S fuel) (escape_ascii a +:+ rest)
  = prepend (String a "") (unquote_fuel fuel rest).
Proof.
  destruct a as [b0 b1 b2 b3 b4 b5 b6 b7]. intros Ha.
  destruct b7; [by destruct b0, b1, b2, b3, b4, b5, b6|].
  destruct b0, b1, b2, b3, b4, b5, b6; reflexivity.
Qed.

Lemma unquote_escape_piece p fuel rest :
  piece_ok p →
  unquote_fuel (S fuel) (escape_piece p +:+ rest)
  = prepend (piece_value p) (unquote_fuel fuel rest).
Proof.
  destruct p as [a|r|a]; simpl.
  - apply unquote_escape_ascii.
  - intros [(b0 & r' & -> & Hb0) Hagain].
    case_bool_decide as Hls; [by rewrite Hls|].
    case_bool_decide as Hps; [by rewrite Hps|].
    specialize (Hagain rest). simpl in Hagain |- *.
    rewrite bool_decide_false; last first.
    { intros ->. vm_compute in Hb0. done. }
    rewrite bool_decide_false; last first.
    { intros ->. vm_compute in Hb0. done. }
    destruct (N.ltb_spec (code b0) 32); [lia|].
    destruct (N.ltb_spec (code b0) 128); [lia|].
    by rewrite Hagain.
  - intros _. reflexivity.
Qed.

Lemma unquote_escape_pieces ps fuel rest :
  Forall piece_ok ps → length ps < fuel →
  unquote_fuel fuel (concat_map escape_piece ps +:+ String quote rest)
  = Some (concat_map piece_value ps, rest).
Proof.
  intros Hok. revert fuel. induction Hok as [|p ps Hp _ IH]; intros fuel Hlen.
  - destruct fuel; [simpl in Hlen; lia|]. reflexivity.
  - destruct fuel as [|fuel]; [simpl in Hlen; lia|]. simpl in Hlen.
    simpl concat_map. rewrite append_assoc, unquote_escape_piece by done.
    rewrite IH by lia. reflexivity.
Qed.

Lemma escape_piece_length p : piece_ok p → 1 ≤ String.length (escape_piece p).
Proof.
  destruct p as [a|r|a]; simpl.
  - intros _. unfold escape_ascii. repeat case_match; simpl; lia.
  - intros [(b0 & r' & -> & _) _]. repeat case_match; simpl; lia.
  - intros _. lia.
Qed.

Lemma piece_value_length p : piece_ok p → 1 ≤ String.length (piece_value p).
Proof.
  destruct p as [a|r|a]; simpl; [lia| |lia].
  intros [(b0 & r' & -> & _) _]. simpl. lia.
Qed.

Lemma concat_map_length f ps :
  Forall (λ p, 1 ≤ String.length (f p)) ps →
  length ps ≤ String.length (concat_map f ps).
Proof.
  induction 1 as [|p ps Hp _ IH]; simpl; [lia|]. rewrite length_append. lia.
Qed.

(** A string literal is read back as the string, coerced. *)
Lemma parse_string_encode s rest :
  parse_string (encode_string s +:+ rest) = Some (coerce s, rest).
Proof.
  unfold encode_string.
  change (parse_string (String quote ?x +:+ rest))
    with (unquote_fuel (S (String.length (x +:+ rest))) (x +:+ rest)).
  rewrite append_assoc.
  change (String quote "" +:+ rest) with (String quote rest).
  apply unquote_escape_pieces; [apply pieces_fuel_ok|].
  rewrite length_append.
  assert (length (pieces s) ≤ String.length (concat_map escape_piece (pieces s)))
    as Hlen.
  { apply concat_map_length.
    eapply Forall_impl; [apply pieces_fuel_ok|]. apply escape_piece_length. }
  lia.
Qed.

(** A valid string is left as it is. *)
Lemma coerce_valid s : ValidString s = true → coerce s = s.
Proof.
  unfold ValidString, coerce. intros Hv.
  rewrite <- (pieces_fuel_raw (String.length s) s) at 2 by done.
  fold (pieces s). induction (pieces s) as [|p ps IH]; [done|].
  simpl in Hv. apply andb_prop in Hv as [Hp Hv]. simpl.
  rewrite IH by done. by destruct p.
Qed.

(** Coercing twice is coercing once. *)
Lemma pieces_fuel_values ps fuel :
  Forall piece_ok ps → length ps ≤ fuel →
  pieces_fuel fuel (concat_map piece_value ps) = mend <$> ps.
Proof.
  intros Hok. revert fuel. induction Hok as [|p ps Hp _ IH]; intros fuel Hlen.
  - by destruct fuel.
  - destruct fuel as [|fuel]; [simpl in Hlen; lia|]. simpl in Hlen.
    simpl concat_map. destruct p as [a|r|a]; simpl in Hp |- *.
    + destruct (N.ltb_spec (code a) 128); [|lia]. by rewrite IH by lia.
    + destruct Hp as [(b0 & r' & -> & Hb0) Hagain]. simpl.
      destruct (N.ltb_spec (code b0) 128); [lia|].
      specialize (Hagain (concat_map piece_value ps)). simpl in Hagain.
      rewrite Hagain. by rewrite IH by lia.
    + by rewrite IH by lia.
Qed.

Lemma mend_value ps :
  concat_map piece_value (mend <$> ps) = concat_map piece_value ps.
Proof.
  induction ps as [|p ps IH]; [done|]. rewrite fmap_cons. simpl.
  rewrite IH. by destruct p.
Qed.

Lemma coerce_coerce s : coerce (coerce s) = coerce s.
Proof.
  unfold coerce at 1. unfold pieces. unfold coerce.
  rewrite pieces_fuel_values.
  - apply mend_value.
  - apply pieces_fuel_ok.
  - apply concat_map_length. eapply Forall_impl; [apply pieces_fuel_ok|].
    apply piece_value_length.
Qed.

(** *** Objects *)


Lemma parse_value_string fuel s rest :
  parse_value (S fuel) (encode_string s +:+ rest) = Some (JStr (coerce s), rest).
Proof.
  pose proof (parse_string_encode s rest) as Hp. revert Hp.
  unfold encode_string.
  change (String quote ?x +:+ rest) with (String quote (x +:+ rest)).
  generalize ((concat_map escape_piece (pieces s) +:+ String quote "") +:+ rest).
  intros y Hp. cbn -[parse_string]. change (is_ws quote) with false.
  cbn -[parse_string]. change (bool_decide (quote = "{"%char)) with false.
  change (bool_decide (quote = "["%char)) with false.
  rewrite bool_decide_true by done. cbn -[parse_string]. by rewrite Hp.
Qed.

Lemma parse_value_3 fuel c rest :
  c = ","%char ∨ c = "}"%char →
  parse_value (S fuel) ("3" +:+ String c rest)
  = Some (JNum typePostMessageReq, String c rest).
Proof. by intros [-> | ->]. Qed.

(** A text that is read back as a value, when a field or the object ends
    after it. *)
Lemma parse_members_more fuel acc s k r2 v r4 :
  parse_string (skip_ws s) = Some (k, String ":" r2) →
  parse_value fuel r2 = Some (v, String "," r4) →
  parse_members (S fuel) acc s = parse_members fuel (<[k := v]> acc) r4.
Proof. intros Hk Hv. simpl. rewrite Hk. simpl. by rewrite Hv. Qed.

Lemma parse_members_last fuel acc s k r2 v r4 :
  parse_string (skip_ws s) = Some (k, String ":" r2) →
  parse_value fuel r2 = Some (v, String "}" r4) →
  parse_members (S fuel) acc s = Some (<[k := v]> acc, r4).
Proof. intros Hk Hv. simpl. rewrite Hk. simpl. by rewrite Hv. Qed.

Lemma parse_key k rest :
  parse_string (skip_ws (encode_string k +:+ rest)) = Some (coerce k, rest).
Proof. rewrite <- parse_string_encode. reflexivity. Qed.

Lemma encode_key_head k rest :
  ∃ y, encode_string k +:+ rest = String quote y.
Proof. by eexists. Qed.

Lemma join_fields_one k t : join_fields [(k, t)] = encode_string k +:+ ":" +:+ t.
Proof. reflexivity. Qed.

Lemma join_fields_cons k t f fs :
  join_fields ((k, t) :: f :: fs)
  = encode_string k +:+ ":" +:+ t +:+ "," +:+ join_fields (f :: fs).
Proof. by destruct f. Qed.

Lemma parse_members_join fs :
  fs ≠ [] → Forall (λ f, reads_back f.1.2 f.2) fs →
  ∀ fuel acc rest, length fs < fuel →
  parse_members fuel acc (join_fields fs.*1 +:+ String "}" rest)
  = Some (foldl (λ acc f, <[coerce f.1.1 := f.2]> acc) acc fs, rest).
Proof.
  intros Hne Hfs. induction Hfs as [|[[k t] v] fs Hf Hfs IH]; [done|].
  intros fuel acc rest Hlen. simpl in Hlen, Hf.
  destruct fuel as [|[|fuel]]; [lia..|].
  destruct fs as [|f' fs].
  - change (join_fields ([(k, t, v)].*1)) with (join_fields [(k, t)]).
    rewrite join_fields_one, !append_assoc.
    erewrite parse_members_last; [done|apply parse_key|].
    apply Hf. by right.
  - change (join_fields (((k, t, v) :: f' :: fs).*1))
      with (join_fields ((k, t) :: f'.1 :: fs.*1)).
    rewrite join_fields_cons, !append_assoc.
    erewrite parse_members_more; [|apply parse_key|].
    2:{ apply Hf. by left. }
    change (f'.1 :: fs.*1) with ((f' :: fs).*1).
    rewrite IH; [done|done|simpl in *; lia].
Qed.

Lemma join_fields_length fs : length fs ≤ String.length (join_fields fs).
Proof.
  induction fs as [|[k t] [|f fs] IH]; [done|simpl; lia|].
  rewrite join_fields_cons, !length_append. simpl length in *.
  change (String.length ",") with 1. lia.
Qed.

Lemma parse_value_object fuel z :
  parse_value (S fuel) (String "{" (String quote z))
  = match parse_members fuel ∅ (String quote z) with
    | Some (m, rest) => Some (JObj m, rest)
    | None => None
    end.
Proof. reflexivity. Qed.

Lemma Decode_map_object fs rest :
  fs ≠ [] → Forall (λ f, reads_back f.1.2 f.2) fs →
  Decode_map (encode_object fs.*1 +:+ rest)
  = Some (foldl (λ acc f, <[coerce f.1.1 := f.2]> acc) ∅ fs).
Proof.
  intros Hne Hfs. unfold Decode_map, encode_object.
  rewrite !append_assoc.
  change ("{" +:+ ?x) with (String "{" x).
  change ("}" +:+ ?x) with (String "}" x).
  pose proof (parse_members_join fs Hne Hfs) as Hm.
  pose proof (join_fields_length fs.*1) as Hlen. rewrite length_fmap in Hlen.
  destruct fs as [|[[k t] v] fs]; [done|].
  assert (∃ y, join_fields (((k, t, v) :: fs).*1) = String quote y) as [y Hy].
  { destruct fs as [|f fs]; [by eexists|].
    change (join_fields (((k, t, v) :: f :: fs).*1))
      with (join_fields ((k, t) :: f.1 :: fs.*1)).
    rewrite join_fields_cons. by eexists. }
  specialize (Hm (String.length (String "{" (join_fields ((k, t, v) :: fs).*1 +:+ String "}" rest))) ∅ rest).
  rewrite Hy in *.
  change (String quote y +:+ ?x) with (String quote (y +:+ x)) in *.
  rewrite parse_value_object, Hm; [done|].
  simpl String.length in *. rewrite length_append. lia.
Qed.

(** *** The post-message request *)

Lemma reads_back_string s : reads_back (encode_string s) (JStr (coerce s)).
Proof. intros fuel c rest _. apply parse_value_string. Qed.

Lemma reads_back_3 : reads_back "3" (JNum typePostMessageReq).
Proof. intros fuel c rest Hc. by apply parse_value_3. Qed.

Lemma Marshal_post_request tok msg :
  Marshal (post_request tok msg)
  = Some (encode_object [("type", "3"); ("token", encode_string tok);
                         ("msg", encode_string msg)]).
Proof. reflexivity. Qed.

Lemma Decode_Encode_post_request tok msg :
  ∃ frame, Encode (post_request tok msg) = Some frame ∧
    Decode_map frame = Some (post_envelope (coerce tok) (coerce msg)).
Proof.
  unfold Encode. rewrite Marshal_post_request. eexists. split; [reflexivity|].
  rewrite (Decode_map_object
             [("type", "3", JNum typePostMessageReq);
              ("token", encode_string tok, JStr (coerce tok));
              ("msg", encode_string msg, JStr (coerce msg))]); [|done|].
  - by f_equal.
  - repeat apply Forall_cons_2; try apply Forall_nil_2;
      [apply reads_back_3|apply reads_back_string..].
Qed.

Lemma sorted_keys_post_envelope tok msg :
  sorted_keys (post_envelope tok msg) = ["msg"; "token"; "type"].
Proof. by vm_compute. Qed.

Lemma Marshal_map_post_envelope tok msg :
  Marshal_map (post_envelope tok msg)
  = Some (encode_object [("msg", encode_string msg);
                         ("token", encode_string tok); ("type", "3")]).
Proof.
  unfold Marshal_map. rewrite sorted_keys_post_envelope. reflexivity.
Qed.

Lemma Decode_Encode_post_envelope tok msg :
  ∃ frame, Encode_map (post_envelope tok msg) = Some frame ∧
    Decode_map frame = Some (post_envelope (coerce tok) (coerce msg)).
Proof.
  unfold Encode_map. rewrite Marshal_map_post_envelope. eexists.
  split; [reflexivity|].
  rewrite (Decode_map_object
             [("msg", encode_string msg, JStr (coerce msg));
              ("token", encode_string tok, JStr (coerce tok));
              ("type", "3", JNum typePostMessageReq)]); [|done|].
  - by f_equal.
  - repeat apply Forall_cons_2; try apply Forall_nil_2;
      [apply reads_back_string..|apply reads_back_3].
Qed.

End json_facts.

(** A message with a byte outside every rune does not come back as it was
    sent: the byte 255 is written as [\ufffd] and read as U+FFFD. *)
Lemma post_request_stray_byte_is_replaced :
  ∃ frame,
    json.Encode (json.post_request "tok" (String "255" "")) = Some frame ∧
    json.Decode_map frame = Some (json.post_envelope "tok" json.replacement) ∧
    json.Decode_map frame ≠ Some (json.post_envelope "tok" (String "255" "")).
Proof.
  eexists. split; [by vm_compute|]. split; [by vm_compute|].
  intros Heq. apply (f_equal (λ o, o ≫= lookup "msg")) in Heq.
  vm_compute in Heq. discriminate.
Qed.

(** C7, amended: for every token [tok] and message text [msg], the frame
    [WriteJSON] makes of the post-message request is read by [ReadJSON] as
    the envelope with the fields type 3, token and msg, where the two strings
    are coerced to valid UTF-8 (each byte outside a rune becomes U+FFFD);
    they are [tok] and [msg] themselves when these are valid UTF-8.
    Writing the envelope that was read and reading it again gives the same
    envelope. *)
Theorem post_request_round_trip (tok msg : string) :
  ∃ frame env,
    json.Encode (json.post_request tok msg) = Some frame ∧
    json.Decode_map frame = Some env ∧
    env = json.post_envelope (json.coerce tok) (json.coerce msg) ∧
    (json.ValidString tok = true → json.ValidString msg = true →
     env = json.post_envelope tok msg) ∧
    ∃ frame', json.Encode_map env = Some frame' ∧
      json.Decode_map frame' = Some env.
Proof.
  destruct (Decode_Encode_post_request tok msg) as (frame & Henc & Hdec).
  exists frame, (json.post_envelope (json.coerce tok) (json.coerce msg)).
  split; [done|]. split; [done|]. split; [done|]. split.
  - intros Ht Hm. by rewrite !coerce_valid.
  - destruct (Decode_Encode_post_envelope (json.coerce tok) (json.coerce msg))
      as (frame' & Henc' & Hdec').
    exists frame'. split; [done|]. by rewrite Hdec', !coerce_coerce.
Qed.

Lemma post_request_round_trip_witness :
  ∃ frame,
    json.Encode (json.post_request "c0ffee" "hello <world>") = Some frame ∧
    json.Decode_map frame = Some (json.post_envelope "c0ffee" "hello <world>").
Proof.
  destruct (post_request_round_trip "c0ffee" "hello <world>")
    as (frame & env & Henc & Hdec & _ & Hvalid & _).
  exists frame. split; [exact Henc|].
  rewrite Hdec. f_equal. apply Hvalid; reflexivity.
Defined.



(** * More properties of the packages *)

(** ** [Connect] *)

Lemma sleeps_connect_events {RL DL : Type} (u : URL) (es : list error) (c : WsConn) :
  sleeps (connect_events (RL:=RL) (DL:=DL) u es c) = replicate (length es) 5%Z.
Proof.
  unfold connect_events, sleeps. rewrite omap_app. simpl.
  rewrite app_nil_r.
  induction es as [|e es IH]; [done|].
  rewrite bind_cons, omap_app, IH. reflexivity.
Qed.

(** X1.  [Connect] dials until a dial succeeds.  When the dials fail with [es]
    and the next one gives [c]: every failure is logged and followed by a
    pause of five seconds, as many pauses as failures; then [c] is the
    connection of the handler, whatever it was before, and the registries,
    the address and the rest of the program state are as they were. *)
Theorem Connect_retries_until_a_dial_succeeds {RL DL : Type}
    (es : list error) (c : WsConn) (rest : list DialResult) (st : State RL DL) :
  dialQ st = (DialErr <$> es) ++ DialOk c :: rest →
  let out := connection.Connect st in
  events_of out = connect_events (url (connH st)) es c ∧
  sleeps (events_of out) = replicate (length es) 5%Z ∧
  ∃ st',
    result_of out = Ret () st' ∧
    conn (connH st') = Some c ∧
    url (connH st') = url (connH st) ∧
    onResponse (connH st') = onResponse (connH st) ∧
    onDisconnect (connH st') = onDisconnect (connH st) ∧
    chatH st' = chatH st ∧ cfg st' = cfg st ∧ stdinQ st' = stdinQ st ∧
    dialQ st' = rest.
Proof.
  intros Hq out. subst out. rewrite (Connect_run es c rest) by done.
  unfold events_of, result_of. simpl.
  split; [done|]. split; [apply sleeps_connect_events|].
  eexists. split; [reflexivity|]. by destruct st.
Qed.

Lemma Connect_retries_until_a_dial_succeeds_witness :
  let e := NetError "connection refused" in
  let st : State nat nat := set_dialQ [DialErr e; DialErr e; DialOk open_conn] fresh_state in
  sleeps (events_of (connection.Connect st)) = [5%Z; 5%Z] ∧
  ∃ st', result_of (connection.Connect st) = Ret () st' ∧ conn (connH st') = Some open_conn.
Proof.
  intros e st.
  destruct (Connect_retries_until_a_dial_succeeds [e; e] open_conn [] st eq_refl)
    as (_ & Hs & st' & Hret & Hc & _).
  split; [exact Hs|]. exists st'. by split.
Defined.

(** ** The receive loop over a run of reads *)
Section listen_facts.
Context {RL DL : Type}.
Variable call_resp : RL → Envelope → M RL DL unit.
Variable call_disc : DL → error → M RL DL unit.

Lemma Listen_iteration_returns_error r (st st' : State RL DL) e :
  result_of (connection.Listen_iteration call_resp call_disc r st) = Ret (Some e) st' →
  ∃ err, r = ReadErr err ∧ As_CloseError err || As_netError err = false ∧
         e = WithMessage err "Read JSON from connection".
Proof.
  unfold connection.Listen_iteration. rewrite bind_get.
  destruct (conn (connH st)) as [c|]; [|discriminate].
  rewrite bind_emit. destruct r as [resp|err].
  - rewrite bind_run.
    destruct (connection.range_onResponse call_resp _ resp st)
      as [evs [[] st1|why st1|msg st1]]; discriminate.
  - destruct (As_CloseError err || As_netError err) eqn:Hclass.
    + rewrite bind_run.
      destruct (connection.range_onDisconnect call_disc _ err st)
        as [evs [[] st1|why st1|msg st1]]; discriminate.
    + intros [= <- <-]. by exists err.
Qed.

End listen_facts.

(** X2.  [Listen] returns only on a read error that is neither a close error nor
    a network error, and what it returns is that error, wrapped: whatever
    the listeners do and whatever is read, it never returns without an
    error, and a close or network error never ends it. *)
Theorem Listen_returns_only_an_unknown_read_error {RL DL : Type}
    (call_resp : RL → Envelope → M RL DL unit)
    (call_disc : DL → error → M RL DL unit)
    (rs : list ReadResult) (st st' : State RL DL) (e : error) :
  result_of (connection.Listen call_resp call_disc rs st) = Ret e st' →
  ∃ err, ReadErr err ∈ rs ∧
         As_CloseError err || As_netError err = false ∧
         e = WithMessage err "Read JSON from connection" ∧
         last (reads (events_of (connection.Listen call_resp call_disc rs st)))
         = Some (ReadErr err).
Proof.
  revert st. induction rs as [|r rs IH]; intros st; [discriminate|].
  simpl. rewrite bind_run.
  destruct (connection.Listen_iteration call_resp call_disc r st)
    as [evs [[e1|] st1|why st1|msg st1]] eqn:Hit; try discriminate.
  - intros [= <- <-].
    destruct (Listen_iteration_returns_error call_resp call_disc r st st1 e1)
      as (err & -> & Hclass & ->); [by rewrite Hit|].
    exists err. split; [left|]. split; [done|]. split; [done|].
    revert Hit. unfold connection.Listen_iteration. rewrite bind_get.
    destruct (conn (connH st)) as [c|]; [|discriminate].
    rewrite bind_emit, Hclass. intros [= <- _]. reflexivity.
  - intros Hret.
    destruct (connection.Listen call_resp call_disc rs st1) as [evs2 r2] eqn:Hloop.
    unfold after, result_of, events_of in *. simpl in *.
    destruct (IH st1) as (err & Hin & Hclass & -> & Hlast); [by rewrite Hloop|].
    rewrite Hloop in Hlast. simpl in Hlast.
    exists err. split; [by right|]. split; [done|]. split; [done|].
    unfold reads in *. rewrite omap_app.
    destruct (omap _ evs2) as [|x xs] eqn:Hx; [done|].
    by rewrite last_app, Hlast.
Qed.

Lemma Listen_returns_only_an_unknown_read_error_witness :
  let bad := ErrorString "invalid character" in
  let rs := [ReadOk ∅; ReadErr (NetError "timeout"); ReadErr bad; ReadOk ∅] in
  ∃ st',
    result_of (connection.Listen idle_resp idle_disc rs (connected_state open_conn))
    = Ret (WithMessage bad "Read JSON from connection") st' ∧
    ∃ err, ReadErr err ∈ rs ∧ As_CloseError err || As_netError err = false ∧
      WithMessage bad "Read JSON from connection"
      = WithMessage err "Read JSON from connection".
Proof.
  intros bad rs. eexists. split; [reflexivity|].
  destruct (Listen_returns_only_an_unknown_read_error idle_resp idle_disc rs
              (connected_state open_conn) _ _ eq_refl)
    as (err & Hin & Hclass & Heq & _).
  by exists err.
Defined.

(** ** Registration and dispatch of disconnect listeners *)
Section disconnect_registry.
Context {RL DL : Type}.

Lemma register_disc_run (ls : list DL) (st : State RL DL) :
  register_disc ls st = (EvAddOnDisconnectListener <$> ls, Ret () (add_disc ls st)).
Proof.
  revert st. induction ls as [|l ls IH]; intros st; simpl.
  - unfold add_disc. destruct st as [[c u rs ds] ch cf dq sq]. simpl.
    by rewrite app_nil_r.
  - rewrite bind_run. unfold connection.AddOnDisconnectListener. mrun. simpl.
    rewrite IH. unfold after, add_disc, set_connH. simpl.
    by rewrite <- app_assoc.
Qed.

Lemma Listen_iteration_disconnect call_resp call_disc err (st : State RL DL) c :
  conn (connH st) = Some c →
  As_CloseError err || As_netError err = true →
  connection.Listen_iteration call_resp call_disc (ReadErr err) st
  = after [EvReadJSON c (ReadErr err)]
      ((connection.range_onDisconnect call_disc (onDisconnect (connH st)) err
          ≫= λ _, mret None) st).
Proof.
  intros Hc Hclass. unfold connection.Listen_iteration.
  rewrite bind_get, Hc, bind_emit, Hclass. reflexivity.
Qed.

End disconnect_registry.

(** X3.  After disconnect listeners have been registered one after the other,
    the iteration that reads a close error or a network error invokes them
    with that error in the order of registration, after the ones that were
    registered before, each in the state the one before it left; when every
    one of them returns, the iteration ends without an error to return.
    The response registry is not touched by the registration. *)
Theorem disconnect_listeners_called_in_registration_order {RL DL : Type}
    (call_resp : RL → Envelope → M RL DL unit)
    (call_disc : DL → error → M RL DL unit)
    (ls : list DL) (err : error) (st : State RL DL) (c : WsConn)
    (Hconn : conn (connH st) = Some c)
    (Hclass : As_CloseError err || As_netError err = true) :
  ∃ st1,
    result_of (register_disc ls st) = Ret () st1 ∧
    onDisconnect (connH st1) = onDisconnect (connH st) ++ ls ∧
    onResponse (connH st1) = onResponse (connH st) ∧
    let it := connection.Listen_iteration call_resp call_disc (ReadErr err) st1 in
    let d := invoked_in_order call_disc EvDisconnectListener err
               (onDisconnect (connH st) ++ ls) st1 in
    it = (EvReadJSON c (ReadErr err) :: events_of d, iteration_end (result_of d)) ∧
    ((∀ l s, l ∈ onDisconnect (connH st) ++ ls →
             returns (result_of (call_disc l err s))) →
     ∃ st2, result_of it = Ret None st2).
Proof.
  exists (add_disc ls st). rewrite register_disc_run.
  split; [done|]. split; [done|]. split; [done|].
  intros it d.
  assert (Hit : it = (EvReadJSON c (ReadErr err) :: events_of d,
                      iteration_end (result_of d))).
  { subst it d. by rewrite (Listen_iteration_lost call_resp call_disc err _ c). }
  split; [exact Hit|].
  intros Hret. rewrite Hit. unfold result_of at 1. simpl.
  pose proof (invoked_in_order_returns call_disc EvDisconnectListener err
                (onDisconnect (connH st) ++ ls) (add_disc ls st) Hret) as Hd.
  fold d in Hd. destruct (result_of d) as [[] st2|why st2|msg st2]; try done.
  by exists st2.
Qed.

Lemma disconnect_listeners_called_in_registration_order_witness :
  let err := CloseError 1006 "unexpected EOF" in
  ∃ st1,
    result_of (register_disc [4; 2] (connected_state open_conn)) = Ret () st1 ∧
    onDisconnect (connH st1) = [4; 2] ∧
    connection.Listen_iteration noting_resp noting_disc (ReadErr err) st1
    = ([EvReadJSON open_conn (ReadErr err);
        EvDisconnectListener 4 err; EvLog InfoLevel [LNum (Fint 4)];
        EvDisconnectListener 2 err; EvLog InfoLevel [LNum (Fint 2)]],
       Ret None st1).
Proof.
  intros err.
  destruct (disconnect_listeners_called_in_registration_order noting_resp noting_disc
              [4; 2] err (connected_state open_conn) open_conn
              eq_refl eq_refl) as (st1 & Hreg & Hd & _ & Hit & _).
  exists st1. split; [exact Hreg|]. split; [exact Hd|].
  injection Hreg as <-. exact Hit.
Defined.

(** ** A listener that does not return *)

(** X4.  The listeners run in the goroutine of the loop.  When the response
    listeners before [l] in the registry return and [l], invoked with the
    envelope in the state they left, does not return (it waits on a
    channel, or panics), [Listen] stays in [l]: its events are the read,
    what the listeners before [l] did, the call of [l] and what [l] did so
    far; the listeners behind [l] are not invoked; and nothing of what the
    connection would deliver next is read. *)
Theorem Listen_stays_in_a_listener_that_does_not_return {RL DL : Type}
    (call_resp : RL → Envelope → M RL DL unit)
    (call_disc : DL → error → M RL DL unit)
    (resp : Envelope) (rs : list ReadResult) (st : State RL DL) (c : WsConn)
    (before behind : list RL) (l : RL)
    (e1 e : list (event RL DL)) (s1 : State RL DL) (r : res (State RL DL) unit) :
  conn (connH st) = Some c →
  onResponse (connH st) = before ++ l :: behind →
  invoked_in_order call_resp EvRespListener resp before st = (e1, Ret () s1) →
  call_resp l resp s1 = (e, r) →
  ¬ returns r →
  let loop := connection.Listen call_resp call_disc (ReadOk resp :: rs) st in
  events_of loop = EvReadJSON c (ReadOk resp) :: e1 ++ EvRespListener l resp :: e ∧
  ¬ returns (result_of loop) ∧
  final_state (result_of loop) = final_state r ∧
  reads (events_of loop) = ReadOk resp :: reads (e1 ++ e) ∧
  ∀ rs', connection.Listen call_resp call_disc (ReadOk resp :: rs') st = loop.
Proof.
  intros Hc Hreg Hbefore Hl Hstuck loop.
  assert (Hloop : ∀ rs', connection.Listen call_resp call_disc (ReadOk resp :: rs') st
            = loop_goes_on (EvReadJSON c (ReadOk resp) :: e1 ++ EvRespListener l resp :: e)
                r (connection.Listen call_resp call_disc rs')).
  { intros rs'. apply Listen_after_dispatch.
    rewrite (Listen_iteration_ReadOk call_resp call_disc resp st c Hc), Hreg.
    by rewrite (invoked_in_order_stuck call_resp EvRespListener resp before l behind
                  st e1 s1 e r). }
  assert (Hreads : reads (EvReadJSON c (ReadOk resp) :: e1 ++ EvRespListener l resp :: e)
                   = ReadOk resp :: reads (e1 ++ e)).
  { unfold reads. simpl. by rewrite !omap_app. }
  subst loop.
  destruct r as [[] s|why s|msg s]; [by destruct Hstuck| |].
  - assert (Hrun : ∀ rs', connection.Listen call_resp call_disc (ReadOk resp :: rs') st
              = (EvReadJSON c (ReadOk resp) :: e1 ++ EvRespListener l resp :: e,
                 Blocked why s)).
    { intros rs'. by rewrite Hloop. }
    rewrite Hrun. split; [done|]. split; [by intros []|]. split; [done|].
    split; [exact Hreads|]. intros rs'. by rewrite Hrun.
  - assert (Hrun : ∀ rs', connection.Listen call_resp call_disc (ReadOk resp :: rs') st
              = (EvReadJSON c (ReadOk resp) :: e1 ++ EvRespListener l resp :: e,
                 Panicked msg s)).
    { intros rs'. by rewrite Hloop. }
    rewrite Hrun. split; [done|]. split; [by intros []|]. split; [done|].
    split; [exact Hreads|]. intros rs'. by rewrite Hrun.
Qed.

Lemma Listen_stays_in_a_listener_that_does_not_return_witness :
  let st : State nat nat := add_resp [1; 0; 2] (connected_state open_conn) in
  connection.Listen noting_resp noting_disc [ReadOk ∅; ReadOk ∅; ReadOk ∅] st
  = ([EvReadJSON open_conn (ReadOk ∅);
      EvRespListener 1 ∅; EvLog InfoLevel [LNum (Fint 1)];
      EvRespListener 0 ∅],
     Blocked OnSend st).
Proof.
  intros st.
  destruct (Listen_stays_in_a_listener_that_does_not_return noting_resp noting_disc
              ∅ [ReadOk ∅; ReadOk ∅] st open_conn [1] [2] 0
              [EvRespListener 1 ∅; EvLog InfoLevel [LNum (Fint 1)]] [] st
              (Blocked OnSend st) eq_refl eq_refl eq_refl eq_refl)
    as (Hev & Hres & Hst & _).
  - intros Hret. exact Hret.
  - destruct (connection.Listen noting_resp noting_disc [ReadOk ∅; ReadOk ∅; ReadOk ∅] st)
      as [evs res] eqn:Hrun.
    unfold events_of, result_of in *. simpl in Hev, Hres, Hst. subst evs.
    f_equal. vm_compute in Hrun. by injection Hrun as <-.
Defined.


(** ** The prompt loop of package stdin *)
Section ask_more.
Context `{Libraries} {RL DL : Type}.
Implicit Types st : State RL DL.
Local Abbreviation M := (M RL DL).

Lemma prompts_app (a b : list (event RL DL)) :
  stdinUtil.prompts (a ++ b) = stdinUtil.prompts a ++ stdinUtil.prompts b.
Proof. apply omap_app. Qed.

Lemma read_errors_logged_app (a b : list (event RL DL)) :
  stdinUtil.read_errors_logged (a ++ b)
  = stdinUtil.read_errors_logged a ++ stdinUtil.read_errors_logged b.
Proof. apply omap_app. Qed.

Lemma warnings_quiet (evs : list (event RL DL)) :
  Forall (λ e, match e with EvLog WarnLevel _ => True | _ => False end) evs →
  stdinUtil.prompts evs = [] ∧ stdinUtil.read_errors_logged evs = [].
Proof.
  induction 1 as [|e evs He _ [IH1 IH2]]; [done|].
  destruct e as [[] args| | | | | | | | | | | | |]; try done.
Qed.

Lemma ask_loop_skips trim prompt callback reject skipped script st :
  stdinUtil.decides callback reject →
  Forall (λ e, stdinUtil.taken trim reject e = false) skipped →
  ∃ evs,
    stdin.ask_loop (skipped ++ script) trim prompt callback st
    = after evs (stdin.ask_loop script trim prompt callback
                   (if skipped is [] then st else set_stdinQ script st)) ∧
    stdinUtil.prompts evs = replicate (length skipped) prompt ∧
    stdinUtil.read_errors_logged evs = stdinUtil.errors_passed trim reject skipped.
Proof.
  intros Hdec Hskip. revert st.
  induction Hskip as [|[l e] skipped Hrej _ IH]; intros st.
  { exists []. by rewrite after_nil. }
  simpl. mrun. rewrite bind_run.
  destruct (Hdec (if trim then strings_TrimSpace l else l)
              (set_stdinQ (skipped ++ script) st)) as (cevs & -> & Hw).
  apply warnings_quiet in Hw as [Hp Hr].
  destruct (IH (set_stdinQ (skipped ++ script) st)) as (evs & Hrun & Hpe & Hre).
  assert (Hst : (if skipped is [] then set_stdinQ (skipped ++ script) st
                 else set_stdinQ script (set_stdinQ (skipped ++ script) st))
                = set_stdinQ script st).
  { by destruct skipped. }
  rewrite Hst in Hrun.
  unfold stdinUtil.taken, stdinUtil.input_of in Hrej. simpl in Hrej.
  unfold stdinUtil.errors_passed. simpl. unfold stdinUtil.input_of.
  destruct (reject (if trim then strings_TrimSpace l else l)) eqn:Hrj; simpl in *.
  - rewrite Hrun. mrun. eexists. split; [reflexivity|].
    rewrite !prompts_app, !read_errors_logged_app, Hp, Hr, Hpe, Hre. done.
  - destruct e as [e|]; [|by rewrite bool_decide_true in Hrej].
    mrun. rewrite Hrun. mrun. eexists. split; [reflexivity|].
    rewrite !prompts_app, !read_errors_logged_app, Hp, Hr, Hpe, Hre. done.
Qed.

Lemma AskServerAddress_callback_decides :
  stdinUtil.decides (RL:=RL) (DL:=DL) stdinUtil.AskServerAddress_callback
    stdinUtil.rejects_address.
Proof. intros input st. exists []. by split. Qed.

Lemma askYesNo_callback_decides ToLower :
  stdinUtil.decides (RL:=RL) (DL:=DL) (stdinUtil.askYesNo_callback ToLower)
    (stdinUtil.rejects_yes_no ToLower).
Proof.
  intros input st. exists []. split; [|done].
  unfold stdinUtil.askYesNo_callback, stdinUtil.rejects_yes_no.
  destruct (decide (input = "")) as [->|Hne]; [done|].
  rewrite (bool_decide_false (input = "")) by done. simpl.
  destruct (decide _) as [Hyn|Hyn].
  - by rewrite bool_decide_true.
  - by rewrite bool_decide_false.
Qed.

End ask_more.

Lemma ask_loop_taken `{Libraries} {RL DL : Type}
    (trim : bool) (prompt : string) (callback : string → M RL DL bool)
    (reject : string → bool)
    (skipped : list (string * option error)) (line : string)
    (rest : list (string * option error)) (st : State RL DL) :
  stdinUtil.decides callback reject →
  Forall (λ e, stdinUtil.taken trim reject e = false) skipped →
  reject (stdinUtil.input_of trim line) = false →
  ∃ evs,
    stdin.ask_loop (skipped ++ (line, None) :: rest) trim prompt callback st
    = (evs, Ret (stdinUtil.input_of trim line) (set_stdinQ rest st)) ∧
    stdinUtil.prompts evs = replicate (S (length skipped)) prompt ∧
    stdinUtil.read_errors_logged evs = stdinUtil.errors_passed trim reject skipped.
Proof.
  intros Hdec Hskip Hacc.
  destruct (ask_loop_skips trim prompt callback reject skipped
              ((line, None) :: rest) st Hdec Hskip) as (evs & -> & Hp & Hr).
  simpl. mrun.
  assert (Hst : set_stdinQ rest (if skipped is [] then st
                                 else set_stdinQ ((line, None) :: rest) st)
                = set_stdinQ rest st) by (by destruct skipped).
  rewrite Hst. rewrite bind_run.
  destruct (Hdec (if trim then strings_TrimSpace line else line) (set_stdinQ rest st))
    as (cevs & -> & Hw).
  apply warnings_quiet in Hw as [Hcp Hcr].
  unfold stdinUtil.input_of in Hacc. rewrite Hacc. mrun.
  eexists. split; [reflexivity|].
  rewrite !prompts_app, !read_errors_logged_app, Hp, Hr, Hcp, Hcr. simpl.
  rewrite !app_nil_r. split; [|done].
  by rewrite <- replicate_S_end.
Qed.

(** X5.  [ask] returns the first line that was read without error and that the
    callback does not reject, trimmed if asked; that line is taken off
    standard input with the lines before it.  The prompt is printed once
    for that line and once for every line skipped.  Of the lines skipped,
    the read error is logged only for those the callback did not reject: a
    line that is rejected is skipped before its read error is looked at. *)
Theorem ask_returns_the_first_line_taken `{Libraries} {RL DL : Type}
    (trim : bool) (prompt : string) (callback : string → M RL DL bool)
    (reject : string → bool)
    (skipped : list (string * option error)) (line : string)
    (rest : list (string * option error)) (st : State RL DL) :
  stdinUtil.decides callback reject →
  stdinQ st = skipped ++ (line, None) :: rest →
  Forall (λ e, stdinUtil.taken trim reject e = false) skipped →
  reject (stdinUtil.input_of trim line) = false →
  ∃ evs,
    stdin.ask trim prompt callback st
    = (evs, Ret (stdinUtil.input_of trim line) (set_stdinQ rest st)) ∧
    stdinUtil.prompts evs = replicate (S (length skipped)) prompt ∧
    stdinUtil.read_errors_logged evs = stdinUtil.errors_passed trim reject skipped.
Proof.
  intros Hdec Hq Hskip Hacc. unfold stdin.ask. rewrite bind_get, Hq.
  by apply (ask_loop_taken trim prompt callback reject).
Qed.

Lemma ask_returns_the_first_line_taken_witness :
  let eof := ErrorString "EOF" in
  let st : State nat nat :=
    set_stdinQ [("", Some eof); (" host:1 ", Some eof); ("example.org:8080", None)]
      fresh_state in
  ∃ evs,
    stdinUtil.AskServerAddress (H:=wire_libraries) st
    = (evs, Ret "example.org:8080" (set_stdinQ [] st)) ∧
    length (stdinUtil.prompts evs) = 3 ∧
    stdinUtil.read_errors_logged evs = [eof].
Proof.
  intros eof st.
  destruct (ask_returns_the_first_line_taken (H:=wire_libraries) true
              "Enter server address in format of 'host:port': "
              stdinUtil.AskServerAddress_callback stdinUtil.rejects_address
              [("", Some eof); (" host:1 ", Some eof)] "example.org:8080" [] st
              AskServerAddress_callback_decides eq_refl)
    as (evs & Hrun & Hp & Hr).
  - repeat constructor.
  - reflexivity.
  - exists evs. split; [exact Hrun|]. rewrite Hp, Hr. split; reflexivity.
Defined.

(** X6.  When no line of standard input is taken (every line is rejected by the
    callback or comes with a read error), [ask] does not return: it has
    consumed all of the input, printed the prompt for every line and once
    more, and logged the read errors of the lines it did not reject only.
    So at the end of input, where every read gives the empty line and
    [io.EOF], a prompt that rejects the empty line repeats without a word
    in the log. *)
Theorem ask_does_not_return_when_no_line_is_taken `{Libraries} {RL DL : Type}
    (trim : bool) (prompt : string) (callback : string → M RL DL bool)
    (reject : string → bool) (st : State RL DL) :
  stdinUtil.decides callback reject →
  Forall (λ e, stdinUtil.taken trim reject e = false) (stdinQ st) →
  let out := stdin.ask trim prompt callback st in
  ¬ returns (result_of out) ∧
  stdinQ (final_state (result_of out)) = [] ∧
  stdinUtil.prompts (events_of out) = replicate (S (length (stdinQ st))) prompt ∧
  stdinUtil.read_errors_logged (events_of out)
  = stdinUtil.errors_passed trim reject (stdinQ st).
Proof.
  intros Hdec Hskip out. subst out. unfold stdin.ask. rewrite bind_get.
  destruct (ask_loop_skips trim prompt callback reject (stdinQ st) [] st Hdec Hskip)
    as (evs & Hrun & Hp & Hr).
  rewrite app_nil_r in Hrun. rewrite Hrun. simpl. mrun.
  unfold events_of, result_of. simpl.
  split; [by intros []|]. split.
  { destruct (stdinQ st) eqn:Hq; [done|]. by destruct st. }
  rewrite !prompts_app, !read_errors_logged_app, Hp, Hr. simpl.
  rewrite app_nil_r. split; [|done]. by rewrite <- replicate_S_end.
Qed.

Lemma ask_does_not_return_when_no_line_is_taken_witness :
  let eof := ErrorString "EOF" in
  let st : State nat nat := set_stdinQ [("", Some eof); ("", Some eof)] fresh_state in
  let out := stdinUtil.AskServerAddress (H:=wire_libraries) st in
  ¬ returns (result_of out) ∧
  length (stdinUtil.prompts (events_of out)) = 3 ∧
  stdinUtil.read_errors_logged (events_of out) = [].
Proof.
  intros eof st out.
  destruct (ask_does_not_return_when_no_line_is_taken (H:=wire_libraries) true
              "Enter server address in format of 'host:port': "
              stdinUtil.AskServerAddress_callback stdinUtil.rejects_address st
              AskServerAddress_callback_decides)
    as (Hret & _ & Hp & Hr).
  - repeat constructor.
  - split; [exact Hret|]. subst out. unfold stdinUtil.AskServerAddress.
    rewrite Hp, Hr. split; reflexivity.
Defined.

(** X7.  [AskTLSMode] takes the first line that, trimmed and in lower case, is
    [y] or [n], and answers true only when the line, trimmed, is the
    lower-case [y] itself: the comparison is made on the line as typed.  An
    upper-case [Y] is taken as an answer and gives false. *)
Theorem AskTLSMode_is_true_only_for_lower_case_y `{Libraries} {RL DL : Type}
    (ToLower : string → string)
    (skipped : list (string * option error)) (line : string)
    (rest : list (string * option error)) (st : State RL DL) :
  stdinQ st = skipped ++ (line, None) :: rest →
  Forall (λ e, stdinUtil.taken true (stdinUtil.rejects_yes_no ToLower) e = false)
         skipped →
  strings_TrimSpace line ≠ "" →
  ToLower (strings_TrimSpace line) = "y" ∨ ToLower (strings_TrimSpace line) = "n" →
  result_of (stdinUtil.AskTLSMode ToLower st)
  = Ret (Some (bool_decide (strings_TrimSpace line = "y"))) (set_stdinQ rest st).
Proof.
  intros Hq Hskip Hne Hyn.
  unfold stdinUtil.AskTLSMode, stdinUtil.askYesNo, stdin.ask.
  rewrite bind_run, bind_run, bind_get, Hq.
  destruct (ask_loop_taken true
              "Connect to server using TLS protocol? (y/n): "
              (stdinUtil.askYesNo_callback ToLower) (stdinUtil.rejects_yes_no ToLower)
              skipped line rest st (askYesNo_callback_decides ToLower) Hskip)
    as (evs & -> & _).
  { unfold stdinUtil.rejects_yes_no, stdinUtil.input_of.
    rewrite (bool_decide_false (_ = "")) by done. simpl.
    apply bool_decide_eq_false. intros [Hy Hn]. by destruct Hyn. }
  reflexivity.
Qed.

Lemma AskTLSMode_is_true_only_for_lower_case_y_witness :
  let st : State nat nat := set_stdinQ [("maybe", None); (" Y ", None)] fresh_state in
  result_of (stdinUtil.AskTLSMode (H:=wire_libraries) stdinUtil.ToLower_ascii st)
  = Ret (Some false) (set_stdinQ [] st).
Proof.
  intros st.
  refine (AskTLSMode_is_true_only_for_lower_case_y (H:=wire_libraries)
            stdinUtil.ToLower_ascii [("maybe", None)] " Y " [] st eq_refl _ _ _).
  - repeat constructor.
  - discriminate.
  - left. reflexivity.
Defined.


(** What [ask] returns was not rejected by the callback. *)
Section ask_returns.
Context `{Libraries} {RL DL : Type}.

Lemma ask_loop_returns_accepted script trim prompt
    (callback : string → M RL DL bool) reject (st st' : State RL DL) v :
  stdinUtil.decides callback reject →
  result_of (stdin.ask_loop script trim prompt callback st) = Ret v st' →
  reject v = false.
Proof.
  intros Hdec. revert st.
  induction script as [|[line err] script IH]; intros st; simpl.
  { mrun. discriminate. }
  mrun. rewrite bind_run.
  destruct (Hdec (if trim then strings_TrimSpace line else line)
              (set_stdinQ script st)) as (cevs & -> & _).
  destruct (reject (if trim then strings_TrimSpace line else line)) eqn:Hrj.
  - unfold after, result_of. simpl. apply IH.
  - destruct err as [e|].
    + mrun. unfold after, result_of. simpl. apply IH.
    + mrun. unfold after, result_of. simpl. by intros [= <- _].
Qed.

Lemma AskNickname_callback_decides :
  stdinUtil.decides (RL:=RL) (DL:=DL) stdin.AskNickname_callback
    stdinUtil.rejects_nickname.
Proof.
  intros input st. unfold stdin.AskNickname_callback, stdinUtil.rejects_nickname.
  destruct (decide (input = "")) as [->|Hne].
  { exists []. by split. }
  rewrite (bool_decide_false (input = "")) by done. simpl.
  destruct (decide (20 < String.length input)) as [Hlong|Hshort].
  - eexists. mrun. rewrite bool_decide_true by done. split; [reflexivity|].
    by repeat constructor.
  - exists []. rewrite bool_decide_false by done. by split.
Qed.

Lemma AskNickname_returns_accepted (st st' : State RL DL) v :
  result_of (stdin.AskNickname st) = Ret v st' →
  v ≠ "" ∧ String.length v ≤ 20.
Proof.
  unfold stdin.AskNickname, stdin.ask. rewrite bind_get. intros Hret.
  apply (ask_loop_returns_accepted _ _ _ _ stdinUtil.rejects_nickname) in Hret;
    [|apply AskNickname_callback_decides].
  unfold stdinUtil.rejects_nickname in Hret.
  apply orb_false_iff in Hret as [H1 H2].
  apply bool_decide_eq_false in H1, H2. split; [done|lia].
Qed.

End ask_returns.


(** ** The disconnect listener with a UI *)

(** X8.  With a UI attached whose [UpdateOnlineBox] waits for a list, and dials
    that fail with [es] before one gives [c]: the listener logs the loss,
    hands the empty list to the UI, pauses five seconds, connects (a pause
    of five seconds after every failed dial), sends one login request with
    the nickname of the session on the new connection, and starts the
    goroutine that waits for the token, in this order; it returns with [c]
    as the connection and the token as it was. *)
Theorem onDisconnect_fn_clears_the_list_then_logs_in_again {RL DL : Type}
    (err : error) (st : State RL DL) ch g q es c rest :
  OnlineUsersCh (ChatUI (chatH st)) = Some ch →
  chan_recvq ch = g :: q →
  dialQ st = (DialErr <$> es) ++ DialOk c :: rest →
  chan_buf (tokenCh (chatH st)) = [] →
  let out := chat.onDisconnect_fn err st in
  events_of out
  = [EvLog ErrorLevel [LErr (WithMessage err "Lost connection to server");
                       LStr " Retrying in 5 seconds."];
     EvOnlineUsers [];
     EvSleep 5]
    ++ connect_events (url (connH st)) es c
    ++ EvWriteJSON c (ReqLogin {| loginReq_Type := typeLoginReq;
                                  loginReq_Nickname := Nickname (cfg st) |})
         (writeErr c)
       :: match writeErr c with
          | Some e => [EvLog ErrorLevel [LErr (WithMessage e "Send login request")]]
          | None => []
          end
    ++ [EvGo TokenReceiver] ∧
  ui_lists (events_of out) = [[]] ∧
  ∃ st',
    result_of out = Ret () st' ∧
    conn (connH st') = Some c ∧
    token (chatH st') = token (chatH st) ∧
    chan_recvq (tokenCh (chatH st')) = chan_recvq (tokenCh (chatH st)) ++ [TokenReceiver].
Proof.
  intros Hch Hq Hdial Hbuf out. subst out.
  rewrite (onDisconnect_fn_with_ui err st ch g q es c rest) by done.
  unfold events_of, result_of. simpl. split; [done|]. split.
  - unfold ui_lists. simpl. rewrite omap_app. unfold connect_events.
    rewrite omap_app. simpl.
    assert (Hes : omap (λ e : event RL DL,
                     match e with EvOnlineUsers us => Some us | _ => None end)
                   (es ≫= λ e, [EvDial (url (connH st)) (DialErr e);
                                EvLog ErrorLevel [LErr (WithMessage e "Connect to server");
                                                  LStr " Retrying in 5 seconds."];
                                EvSleep 5]) = []).
    { clear Hdial. induction es as [|e es IH]; [done|].
      by rewrite bind_cons, omap_app, IH. }
    rewrite Hes. simpl. by destruct (writeErr c).
  - eexists. split; [reflexivity|]. simpl. split; [done|]. split; [done|].
    by destruct (tokenCh (chatH st)).
Qed.

Lemma onDisconnect_fn_clears_the_list_then_logs_in_again_witness :
  let err := CloseError 1006 "unexpected EOF" in
  let ui : Chat :=
    {| Gui := Some true;
       OnlineUsersCh := Some (Chan 0 [] [UpdateOnlineBoxGoroutine]) |} in
  let st : State nat nat :=
    set_dialQ [DialErr (NetError "refused"); DialOk open_conn]
      (set_chatH (chat.set_ChatUI ui chat.NewHandler) (connected_state closed_conn)) in
  let out := chat.onDisconnect_fn err st in
  ui_lists (events_of out) = [[]] ∧
  writes (events_of out)
  = [ReqLogin {| loginReq_Type := typeLoginReq; loginReq_Nickname := "bob" |}] ∧
  ∃ st', result_of out = Ret () st' ∧ conn (connH st') = Some open_conn.
Proof.
  intros err ui st out.
  destruct (onDisconnect_fn_clears_the_list_then_logs_in_again err st
              (Chan 0 [] [UpdateOnlineBoxGoroutine]) UpdateOnlineBoxGoroutine []
              [NetError "refused"] open_conn [] eq_refl eq_refl eq_refl eq_refl)
    as (Hev & Hui & st' & Hret & Hc & _).
  split; [exact Hui|]. split.
  - subst out. rewrite Hev. reflexivity.
  - exists st'. by split.
Defined.

(** ** What the response listeners do and never do *)
Section listeners_more.
Context `{Libraries}.
Local Abbreviation St := (State chat.RespListener chat.DisconnectListener).
Implicit Types st : St.

Lemma any_eq_float64_true v c :
  any_eq_float64 v c = true → v = Some (JNum c).
Proof.
  destruct v as [[| |f| | |]|]; try discriminate. simpl.
  by intros ->%bool_decide_eq_true.
Qed.

End listeners_more.

(** X9.  The functions registered as response listeners each look at the type
    of the envelope first.  A listener that does anything at all (an event,
    a change of the state, or not returning) was given an envelope whose
    [type] is a number equal to the type constant of that listener, and
    every other listener returns at once on that envelope.  So an envelope
    is handled by at most one listener, and an envelope without [type], or
    with a [type] that is no number, by none. *)
Theorem an_envelope_is_handled_by_at_most_one_listener `{Libraries}
    (l : chat.RespListener) (resp : Envelope)
    (st : State chat.RespListener chat.DisconnectListener) :
  chat.call_resp l resp st ≠ ([], Ret () st) →
  resp !! "type" = Some (JNum (listener_type l)) ∧
  ∀ l', l' ≠ l → chat.call_resp l' resp st = ([], Ret () st).
Proof.
  intros Hacts.
  assert (Hty : any_eq_float64 (resp !! "type") (listener_type l) = true).
  { destruct (any_eq_float64 (resp !! "type") (listener_type l)) eqn:Hty; [done|].
    destruct Hacts.
    destruct l; simpl in *;
      unfold chat.loginResponse_fn, chat.chatMsgToClient_fn,
        chat.postMessageResponse_fn, chat.onlineUsers_fn; by rewrite Hty. }
  apply any_eq_float64_true in Hty. split; [done|].
  intros l' Hne.
  destruct l, l'; try done; simpl;
    unfold chat.loginResponse_fn, chat.chatMsgToClient_fn,
      chat.postMessageResponse_fn, chat.onlineUsers_fn; rewrite Hty; reflexivity.
Qed.

Lemma an_envelope_is_handled_by_at_most_one_listener_witness :
  let resp := online_users_response statusInvalidToken [] in
  let st : State chat.RespListener chat.DisconnectListener := connected_state open_conn in
  resp !! "type" = Some (JNum typeOnlineUsers) ∧
  chat.call_resp (H:=wire_libraries) chat.LoginResponseFn resp st = ([], Ret () st) ∧
  chat.call_resp (H:=wire_libraries) chat.ChatMsgToClientFn resp st = ([], Ret () st) ∧
  chat.call_resp (H:=wire_libraries) chat.PostMessageResponseFn resp st = ([], Ret () st).
Proof.
  intros resp st.
  destruct (an_envelope_is_handled_by_at_most_one_listener (H:=wire_libraries)
              chat.OnlineUsersFn resp st) as [Hty Hothers].
  - intros Heq. discriminate Heq.
  - split; [exact Hty|]. repeat split; apply Hothers; discriminate.
Defined.

(** ** Kinds of events a piece of code emits *)
Section emits_only_facts.
Context `{Libraries} {RL DL : Type}.
Variable P : event RL DL → bool.
Implicit Types st : State RL DL.
Local Abbreviation keeps_P := (keeps (RL:=RL) (DL:=DL) (emits_only P)).

Lemma emits_only_refl st : emits_only P st [] st.
Proof. constructor. Qed.

Lemma emits_only_trans st1 e1 st2 e2 st3 :
  emits_only P st1 e1 st2 → emits_only P st2 e2 st3 → emits_only P st1 (e1 ++ e2) st3.
Proof. intros H1 H2. by apply Forall_app. Qed.

Lemma eo_ret {A} (a : A) : keeps_P (mret a).
Proof. apply keeps_ret, emits_only_refl. Qed.

Lemma eo_bind {A B} (m : M RL DL A) (k : A → M RL DL B) :
  keeps_P m → (∀ a, keeps_P (k a)) → keeps_P (m ≫= k).
Proof. apply keeps_bind, emits_only_trans. Qed.

Lemma eo_emit e : P e = true → keeps_P (emit e).
Proof. intros He st. by repeat constructor. Qed.

Lemma eo_log lvl args : P (EvLog lvl args) = true → keeps_P (log lvl args).
Proof. intros He st. by repeat constructor. Qed.

Lemma eo_modify f : keeps_P (modify f).
Proof. intros st. constructor. Qed.

Lemma eo_park {A} why : keeps_P (park why : M RL DL A).
Proof. intros st. constructor. Qed.

Lemma eo_panic {A} msg : keeps_P (panic msg : M RL DL A).
Proof. intros st. constructor. Qed.

Hypothesis P_log : ∀ lvl args, P (EvLog lvl args) = true.

Lemma eo_ask_loop script trim prompt (callback : string → M RL DL bool) :
  P (EvPrint prompt) = true →
  (∀ input, keeps_P (callback input)) →
  keeps_P (stdin.ask_loop script trim prompt callback).
Proof.
  intros Hp Hcb. induction script as [|[line err] script IH]; simpl.
  - apply eo_bind; [by apply eo_emit|]. intros _. apply eo_park.
  - apply eo_bind; [by apply eo_emit|]. intros _.
    apply eo_bind; [apply eo_modify|]. intros _.
    apply eo_bind; [apply Hcb|]. intros [|]; [apply IH|].
    destruct err as [e|]; [|apply eo_ret].
    apply eo_bind; [apply eo_log, P_log|]. intros _. apply IH.
Qed.

Lemma eo_AskNickname :
  (∀ s, P (EvPrint s) = true) → keeps_P stdin.AskNickname.
Proof.
  intros Hp. unfold stdin.AskNickname, stdin.ask. apply keeps_get_bind. intros st.
  apply eo_ask_loop; [apply Hp|]. intros input.
  unfold stdin.AskNickname_callback.
  destruct (decide (input = "")); [apply eo_ret|]. simpl.
  destruct (decide (20 < String.length input)); [|apply eo_ret].
  apply eo_bind; [apply eo_log, P_log|]. intros _. apply eo_ret.
Qed.

Lemma eo_WriteJSON req :
  (∀ c r, P (EvWriteJSON c req r) = true) → keeps_P (connection.WriteJSON req).
Proof.
  intros Hw st. unfold emits_only.
  destruct (WriteJSON_frame req st) as [_ [->|(c & r & ->)]]; by repeat constructor.
Qed.

Lemma eo_login_and_log :
  (∀ c req r, P (EvWriteJSON c req r) = true) → keeps_P chat.login_and_log.
Proof.
  intros Hw. unfold chat.login_and_log, chat.login.
  apply eo_bind.
  - apply keeps_get_bind. intros st.
    apply eo_bind; [by apply eo_WriteJSON|]. intros err. apply eo_ret.
  - intros [e|]; [apply eo_log, P_log|apply eo_ret].
Qed.

Lemma eo_send_OnlineUsersCh users :
  P (EvOnlineUsers users) = true → keeps_P (chat.send_OnlineUsersCh users).
Proof.
  intros Hu. unfold chat.send_OnlineUsersCh. apply keeps_get_bind. intros st.
  destruct (chansend _ users) as [r ch|ch| |].
  - mrun. unfold emits_only, events_of. simpl. by repeat constructor.
  - mrun. constructor.
  - apply eo_park.
  - apply eo_park.
Qed.

Lemma eo_chatMsgToClient_fn resp :
  (∀ n m s, P (EvPrintToChatBox n m s) = true) → keeps_P (chat.chatMsgToClient_fn resp).
Proof.
  intros Hp. unfold chat.chatMsgToClient_fn.
  destruct (negb _); [apply eo_ret|].
  destruct (Decode_chatMsgToClient resp) as [r|e]; [|apply eo_log, P_log].
  apply keeps_get_bind. intros st. apply eo_bind.
  - unfold ui.PrintToChatBox. destruct (Gui _) as [[|]|].
    + apply eo_bind; [by apply eo_emit|]. intros _. apply eo_ret.
    + apply eo_ret.
    + apply eo_panic.
  - intros [e|]; [apply eo_log, P_log|apply eo_ret].
Qed.

Lemma eo_postMessageResponse_fn resp : keeps_P (chat.postMessageResponse_fn resp).
Proof.
  unfold chat.postMessageResponse_fn.
  destruct (negb _); [apply eo_ret|].
  destruct (Decode_postMsgResp resp) as [r|e]; [|apply eo_log, P_log].
  destruct (decide _); [apply eo_log, P_log|apply eo_ret].
Qed.

Lemma eo_onlineUsers_fn resp :
  (∀ us, P (EvOnlineUsers us) = true) → keeps_P (chat.onlineUsers_fn resp).
Proof.
  intros Hu. unfold chat.onlineUsers_fn.
  destruct (negb _); [apply eo_ret|].
  destruct (Decode_onlineUsers resp) as [r|e]; [|apply eo_log, P_log].
  destruct (decide _); [by apply eo_send_OnlineUsersCh|apply eo_log, P_log].
Qed.

End emits_only_facts.

Section handover_facts.
Context {RL DL : Type}.

Lemma no_handover_no_delivery (evs : list (event RL DL)) :
  Forall (λ e, negb (is_handover e) = true) evs → token_deliveries evs = [].
Proof.
  induction 1 as [|e evs He _ IH]; [done|].
  destruct e; try done.
Qed.

Lemma no_write_no_request (evs : list (event RL DL)) :
  Forall (λ e, negb (is_write e) = true) evs → writes evs = [].
Proof.
  induction 1 as [|e evs He _ IH]; [done|].
  destruct e; try done.
Qed.

End handover_facts.

(** X10.  Of all that the response listeners do, only the login listener on an
    ok login response hands a token over through [tokenCh]: when a token
    reaches a goroutine during the call of a listener, the listener is the
    login listener, the envelope decoded to status ok, the token is the one
    of the response, the goroutine is the one that waited longest, and the
    token is the session token when the listener is done. *)
Theorem only_an_ok_login_response_hands_a_token_over `{Libraries}
    (l : chat.RespListener) (resp : Envelope)
    (st : State chat.RespListener chat.DisconnectListener)
    (g : goroutine) (tok : string) :
  let out := chat.call_resp l resp st in
  (g, tok) ∈ token_deliveries (events_of out) →
  l = chat.LoginResponseFn ∧
  resp !! "type" = Some (JNum typeLoginResp) ∧
  (∃ r, Decode_loginResp resp = DecodeOk r ∧ loginResp_Status r = statusOk ∧
        loginResp_Token r = tok) ∧
  head (chan_recvq (tokenCh (chatH st))) = Some g ∧
  token_deliveries (events_of out) = [(g, tok)] ∧
  token (chatH (final_state (result_of out))) = tok.
Proof.
  intros out Hin. subst out.
  set (P := λ e : event chat.RespListener chat.DisconnectListener, negb (is_handover e)).
  assert (Hquiet : ∀ m : M chat.RespListener chat.DisconnectListener unit,
            keeps (emits_only P) m →
            (g, tok) ∈ token_deliveries (events_of (m st)) → False).
  { intros m Hm Hin'. specialize (Hm st). unfold emits_only in Hm.
    apply no_handover_no_delivery in Hm. rewrite Hm in Hin'. by apply elem_of_nil in Hin'. }
  destruct l; simpl in Hin |- *.
  - revert Hin. unfold chat.loginResponse_fn.
    destruct (any_eq_float64 (resp !! "type") typeLoginResp) eqn:Hty; simpl;
      [|by intros ?%elem_of_nil].
    apply any_eq_float64_true in Hty.
    destruct (Decode_loginResp resp) as [r|e]; [|by intros ?%elem_of_nil].
    destruct (decide (loginResp_Status r = statusOk)) as [Hok|Hnok].
    + rewrite bind_log. unfold chat.send_tokenCh. rewrite bind_get. unfold chansend.
      destruct (chan_recvq (tokenCh (chatH st))) as [|g' q] eqn:Hq.
      * destruct (decide _); mrun; by intros ?%elem_of_nil.
      * mrun. unfold events_of, result_of. simpl.
        intros Hin%list_elem_of_singleton. injection Hin as -> ->.
        split; [done|]. split; [done|]. split; [by exists r|]. done.
    + intros Hin. exfalso. revert Hin.
      destruct (decide (loginResp_Status r = statusNameAlreadyTaken)).
      * apply Hquiet.
        apply eo_bind; [by apply eo_log|]. intros _.
        apply eo_bind; [by apply eo_AskNickname|]. intros nickname.
        apply eo_bind; [apply eo_modify|]. intros _.
        by apply eo_login_and_log.
      * apply Hquiet. by apply eo_log.
  - exfalso. revert Hin. apply Hquiet. by apply eo_chatMsgToClient_fn.
  - exfalso. revert Hin. apply Hquiet. by apply eo_postMessageResponse_fn.
  - exfalso. revert Hin. apply Hquiet. by apply eo_onlineUsers_fn.
Qed.

Lemma only_an_ok_login_response_hands_a_token_over_witness :
  let st : State chat.RespListener chat.DisconnectListener :=
    set_chatH (chat.set_tokenCh (Chan 0 [] [MainGoroutine]) chat.NewHandler)
      (connected_state open_conn) in
  let out := chat.call_resp (H:=wire_libraries) chat.LoginResponseFn
               (login_response "s3cret" statusOk) st in
  token_deliveries (events_of out) = [(MainGoroutine, "s3cret")] ∧
  token (chatH (final_state (result_of out))) = "s3cret".
Proof.
  intros st out.
  destruct (only_an_ok_login_response_hands_a_token_over (H:=wire_libraries)
              chat.LoginResponseFn (login_response "s3cret" statusOk) st
              MainGoroutine "s3cret") as (_ & _ & _ & _ & Hd & Htok).
  - apply list_elem_of_singleton. reflexivity.
  - split; [exact Hd|exact Htok].
Defined.

(** X11.  The response listeners write to the connection only to log in again:
    when a request is written during the call of a listener, the listener
    is the login listener, the envelope decoded to status name-taken, and
    the request is a login request with the nickname just asked for, which
    is not empty, not longer than twenty bytes, and the nickname of the
    session from then on. *)
Theorem a_listener_writes_only_to_log_in_again `{Libraries}
    (l : chat.RespListener) (resp : Envelope)
    (st : State chat.RespListener chat.DisconnectListener) (req : request) :
  let out := chat.call_resp l resp st in
  req ∈ writes (events_of out) →
  l = chat.LoginResponseFn ∧
  (∃ r, Decode_loginResp resp = DecodeOk r ∧
        loginResp_Status r = statusNameAlreadyTaken) ∧
  ∃ nickname,
    req = ReqLogin {| loginReq_Type := typeLoginReq; loginReq_Nickname := nickname |} ∧
    nickname ≠ "" ∧ String.length nickname ≤ 20 ∧
    Nickname (cfg (final_state (result_of out))) = nickname ∧
    writes (events_of out) = [req].
Proof.
  intros out Hin. subst out.
  set (P := λ e : event chat.RespListener chat.DisconnectListener, negb (is_write e)).
  assert (Hquiet : ∀ {A} (m : M chat.RespListener chat.DisconnectListener A) st0,
            keeps (emits_only P) m → writes (events_of (m st0)) = []).
  { intros A m st0 Hm. specialize (Hm st0). by apply no_write_no_request in Hm. }
  assert (Hnone : ∀ m : M chat.RespListener chat.DisconnectListener unit,
            keeps (emits_only P) m → req ∈ writes (events_of (m st)) → False).
  { intros m Hm Hin'. rewrite (Hquiet _ m st Hm) in Hin'. by apply elem_of_nil in Hin'. }
  destruct l; simpl in Hin |- *.
  - revert Hin. unfold chat.loginResponse_fn.
    destruct (any_eq_float64 (resp !! "type") typeLoginResp) eqn:Hty; simpl;
      [|by intros ?%elem_of_nil].
    destruct (Decode_loginResp resp) as [r|e]; [|by intros ?%elem_of_nil].
    destruct (decide (loginResp_Status r = statusOk)) as [Hok|Hnok].
    { intros Hin. exfalso. revert Hin. apply Hnone.
      apply eo_bind; [by apply eo_log|]. intros _.
      unfold chat.send_tokenCh. apply keeps_get_bind. intros st0.
      destruct (chansend _ _) as [g ch|ch| |].
      - mrun. unfold emits_only, events_of. simpl. by repeat constructor.
      - mrun. constructor.
      - constructor.
      - constructor. }
    destruct (decide (loginResp_Status r = statusNameAlreadyTaken)) as [Htaken|Hnt].
    2:{ by intros ?%elem_of_nil. }
    rewrite bind_log, bind_run.
    pose proof (Hquiet _ stdin.AskNickname st (eo_AskNickname P (λ _ _, eq_refl)
                                                 (λ _, eq_refl))) as Hask.
    pose proof (AskNickname_returns_accepted st) as Hacc.
    destruct (stdin.AskNickname st) as [evs [n st1|why st1|msg st1]];
      unfold events_of, result_of, after in *; simpl in *;
      try (rewrite Hask; by intros ?%elem_of_nil).
    destruct (Hacc st1 n eq_refl) as [Hne Hlen].
    rewrite bind_modify.
    set (st2 := set_cfg (chat.set_Nickname n (cfg st1)) st1).
    unfold chat.login_and_log, chat.login. rewrite bind_run, bind_get, bind_run.
    destruct (WriteJSON_frame
                (ReqLogin {| loginReq_Type := typeLoginReq;
                             loginReq_Nickname := Nickname (cfg st2) |}) st2)
      as [Hst Hev].
    destruct (connection.WriteJSON _ st2) as [wevs [err st3|why st3|msg st3]];
      unfold events_of, result_of, after in *; simpl in *; subst st3.
    + assert (Hw : writes (evs ++ wevs
                    ++ (match errors_Wrap err "Send login request" with
                        | Some e => log ErrorLevel [LErr e]
                        | None => mret ()
                        end st2).1) = writes wevs).
      { rewrite !writes_app, Hask. simpl.
        destruct (errors_Wrap err "Send login request"); simpl; by rewrite app_nil_r. }
      assert (Hfin : final_state
                       (match errors_Wrap err "Send login request" with
                        | Some e => log ErrorLevel [LErr e]
                        | None => mret ()
                        end st2).2 = st2).
      { by destruct (errors_Wrap err "Send login request"). }
      simpl. rewrite app_nil_r.
      destruct ((match errors_Wrap err "Send login request" with
                 | Some e => log ErrorLevel [LErr e]
                 | None => mret ()
                 end st2)) as [levs lres] eqn:Hlog. simpl in *.
      rewrite Hw. destruct Hev as [->|(c & r' & ->)]; [by intros ?%elem_of_nil|].
      simpl. intros Hin%list_elem_of_singleton. subst req.
      split; [done|]. split; [by exists r|]. exists n.
      split; [done|]. split; [done|]. split; [done|]. by rewrite Hfin.
    + rewrite writes_app, Hask. simpl.
      destruct Hev as [->|(c & r' & ->)]; [by intros ?%elem_of_nil|].
      simpl. intros Hin%list_elem_of_singleton. subst req.
      split; [done|]. split; [by exists r|]. by exists n.
    + rewrite writes_app, Hask. simpl.
      destruct Hev as [->|(c & r' & ->)]; [by intros ?%elem_of_nil|].
      simpl. intros Hin%list_elem_of_singleton. subst req.
      split; [done|]. split; [by exists r|]. by exists n.
  - exfalso. revert Hin. apply Hnone. by apply eo_chatMsgToClient_fn.
  - exfalso. revert Hin. apply Hnone. by apply eo_postMessageResponse_fn.
  - exfalso. revert Hin. apply Hnone. by apply eo_onlineUsers_fn.
Qed.

Lemma a_listener_writes_only_to_log_in_again_witness :
  let st : State chat.RespListener chat.DisconnectListener :=
    set_stdinQ [("", None);
                (String " " (String "a" (String "l" (String "010" EmptyString))), None)]
      (connected_state open_conn) in
  let out := chat.call_resp (H:=wire_libraries) chat.LoginResponseFn
               (login_response "" statusNameAlreadyTaken) st in
  writes (events_of out)
  = [ReqLogin {| loginReq_Type := typeLoginReq; loginReq_Nickname := "al" |}] ∧
  Nickname (cfg (final_state (result_of out))) = "al".
Proof.
  intros st out.
  destruct (a_listener_writes_only_to_log_in_again (H:=wire_libraries)
              chat.LoginResponseFn (login_response "" statusNameAlreadyTaken) st
              (ReqLogin {| loginReq_Type := typeLoginReq; loginReq_Nickname := "al" |}))
    as (_ & _ & n & Hreq & _ & _ & Hn & Hw).
  - apply list_elem_of_singleton. reflexivity.
  - injection Hreq as <-. split; [exact Hw|exact Hn].
Defined.

(** ** The requests of the UI callbacks *)

(** X12.  [PostMessage] and [RequestOnlineUsers] make one attempt to write one
    request, which carries the session token (and the message as given,
    empty or not).  A failed write is reported in the log, wrapped, and
    nowhere else: the function returns all the same, the state is as it
    was, and nothing is written again. *)
Theorem a_failed_request_of_the_UI_is_logged_and_dropped {RL DL : Type}
    (msg : string) (st : State RL DL) (c : WsConn) :
  conn (connH st) = Some c →
  let post := ReqPostMsg {| postMsgReq_Type := typePostMessageReq;
                            postMsgReq_Token := token (chatH st);
                            postMsgReq_Msg := msg |} in
  let users := ReqOnlineUsers {| onlineUsersReq_Type := typeOnlineUsersReq;
                                 onlineUsersReq_Token := token (chatH st) |} in
  chat.PostMessage msg st
  = (EvWriteJSON c post (writeErr c)
     :: match writeErr c with
        | Some e => [EvLog ErrorLevel [LErr (WithMessage e "Send post message request")]]
        | None => []
        end,
     Ret () st) ∧
  chat.RequestOnlineUsers st
  = (EvWriteJSON c users (writeErr c)
     :: match writeErr c with
        | Some e => [EvLog ErrorLevel [LErr (WithMessage e "Send online users request")]]
        | None => []
        end,
     Ret () st).
Proof.
  intros Hc post users. subst post users.
  unfold chat.PostMessage, chat.RequestOnlineUsers.
  rewrite !bind_get, !bind_run, !(WriteJSON_run _ c) by done.
  by destruct (writeErr c).
Qed.

Lemma a_failed_request_of_the_UI_is_logged_and_dropped_witness :
  let st : State nat nat := connected_state closed_conn in
  let e := NetError "use of closed network connection" in
  chat.PostMessage "" st
  = ([EvWriteJSON closed_conn
        (ReqPostMsg {| postMsgReq_Type := typePostMessageReq;
                       postMsgReq_Token := ""; postMsgReq_Msg := "" |}) (Some e);
      EvLog ErrorLevel [LErr (WithMessage e "Send post message request")]],
     Ret () st).
Proof.
  intros st e.
  exact (proj1 (a_failed_request_of_the_UI_is_logged_and_dropped
                  "" st closed_conn eq_refl)).
Defined.

(** ** Chat messages from the server *)

(** X13.  The listener of chat messages, on an envelope of its type that decodes
    to [r]: with the chat box on the screen it prints one line, with the
    nickname, the text and the system flag of [r], and nothing else
    happens; with a UI whose chat box view does not exist it prints nothing
    and logs the error of the lookup; the state is as it was either way.
    With no UI attached the call dereferences the nil GUI. *)
Theorem chatMsgToClient_fn_prints_one_line `{Libraries} {RL DL : Type}
    (resp : Envelope) (r : chatMsgToClient) (st : State RL DL) :
  any_eq_float64 (resp !! "type") typeChatMessageToClient = true →
  Decode_chatMsgToClient resp = DecodeOk r →
  let out := chat.chatMsgToClient_fn resp st in
  match Gui (ChatUI (chatH st)) with
  | Some true =>
      out = ([EvPrintToChatBox (chatMsgToClient_Nickname r) (chatMsgToClient_Msg r)
                (chatMsgToClient_IsSystem r)], Ret () st)
  | Some false =>
      out = ([EvLog ErrorLevel
                [LErr (WithMessage (ErrorString "unknown view") "Get view chat_box")]],
             Ret () st)
  | None => events_of out = [] ∧ ¬ returns (result_of out)
  end.
Proof.
  intros Hty Hdec out. subst out. unfold chat.chatMsgToClient_fn.
  rewrite Hty, Hdec. simpl. rewrite bind_get. unfold ui.PrintToChatBox.
  destruct (Gui (ChatUI (chatH st))) as [[|]|].
  - by mrun.
  - by mrun.
  - mrun. split; [done|]. by intros [].
Qed.

Lemma chatMsgToClient_fn_prints_one_line_witness :
  let resp : Envelope :=
    <["type" := JNum typeChatMessageToClient]>
      (<["nickname" := JStr "ann"]> (<["msg" := JStr "hi"]> ∅)) in
  let ui : Chat := {| Gui := Some true; OnlineUsersCh := None |} in
  let st : State nat nat :=
    set_chatH (chat.set_ChatUI ui chat.NewHandler) (connected_state open_conn) in
  chat.chatMsgToClient_fn (H:=wire_libraries) resp st
  = ([EvPrintToChatBox "ann" "hi" false], Ret () st).
Proof.
  intros resp ui st.
  exact (chatMsgToClient_fn_prints_one_line (H:=wire_libraries) resp
           {| chatMsgToClient_Type := typeChatMessageToClient;
              chatMsgToClient_Nickname := "ann"; chatMsgToClient_Msg := "hi";
              chatMsgToClient_IsSystem := false |} st eq_refl eq_refl).
Defined.


(** ** The login and online-users requests on the wire *)

Lemma reads_back_1 : json.reads_back "1" (JNum typeLoginReq).
Proof. intros fuel c rest [-> | ->]; reflexivity. Qed.

Lemma reads_back_6 : json.reads_back "6" (JNum typeOnlineUsersReq).
Proof. intros fuel c rest [-> | ->]; reflexivity. Qed.

(** X14.  The frame [WriteJSON] makes of the login request is read by [ReadJSON]
    as the envelope with the fields type 1 and nickname, the nickname
    coerced to valid UTF-8; it is the nickname as given when that is valid
    UTF-8, whatever characters it holds (quotes, backslashes, control
    characters, angle brackets, line separators). *)
Theorem login_request_round_trip (nickname : string) :
  ∃ frame env,
    json.Encode (login_request nickname) = Some frame ∧
    json.Decode_map frame = Some env ∧
    env = login_envelope (json.coerce nickname) ∧
    (json.ValidString nickname = true → env = login_envelope nickname).
Proof.
  eexists _, _. split; [reflexivity|]. split; [|split; [reflexivity|]].
  - unfold json.Marshal. simpl.
    rewrite (Decode_map_object
               [("type", "1", JNum typeLoginReq);
                ("nickname", json.encode_string nickname, JStr (json.coerce nickname))]);
      [|done|].
    + by f_equal.
    + repeat apply Forall_cons_2; try apply Forall_nil_2;
        [apply reads_back_1|apply reads_back_string].
  - intros Hv. by rewrite coerce_valid.
Qed.

Lemma login_request_round_trip_witness :
  let nickname := String "034" (String "b" (String "092" (String "010" "<ob>"))) in
  ∃ frame,
    json.Encode (login_request nickname) = Some frame ∧
    json.Decode_map frame = Some (login_envelope nickname).
Proof.
  intros nickname.
  destruct (login_request_round_trip nickname) as (frame & env & Henc & Hdec & _ & Hv).
  exists frame. split; [exact Henc|]. rewrite Hdec. f_equal. apply Hv. reflexivity.
Defined.

(** X15.  The frame [WriteJSON] makes of the online-users request is read by
    [ReadJSON] as the envelope with the fields type 6 and token, the token
    coerced to valid UTF-8; it is the token as given when that is valid
    UTF-8. *)
Theorem online_users_request_round_trip (tok : string) :
  ∃ frame env,
    json.Encode (online_users_request tok) = Some frame ∧
    json.Decode_map frame = Some env ∧
    env = online_users_envelope (json.coerce tok) ∧
    (json.ValidString tok = true → env = online_users_envelope tok).
Proof.
  eexists _, _. split; [reflexivity|]. split; [|split; [reflexivity|]].
  - unfold json.Marshal. simpl.
    rewrite (Decode_map_object
               [("type", "6", JNum typeOnlineUsersReq);
                ("token", json.encode_string tok, JStr (json.coerce tok))]);
      [|done|].
    + by f_equal.
    + repeat apply Forall_cons_2; try apply Forall_nil_2;
        [apply reads_back_6|apply reads_back_string].
  - intros Hv. by rewrite coerce_valid.
Qed.

Lemma online_users_request_round_trip_witness :
  ∃ frame,
    json.Encode (online_users_request "c0ffee") = Some frame ∧
    json.Decode_map frame = Some (online_users_envelope "c0ffee").
Proof.
  destruct (online_users_request_round_trip "c0ffee")
    as (frame & env & Henc & Hdec & _ & Hv).
  exists frame. split; [exact Henc|]. rewrite Hdec. f_equal. apply Hv. reflexivity.
Defined.


(** ** The key handlers of the UI *)
Section ui_facts.
Import ui_chat.

Lemma int_small (z : Z) : (- 2 ^ 63 ≤ z < 2 ^ 63)%Z → int z = z.
Proof.
  intros Hz. unfold int.
  rewrite Z.mod_small by lia. lia.
Qed.

Lemma int_range (z : Z) : (- 2 ^ 63 ≤ int z < 2 ^ 63)%Z.
Proof.
  unfold int. pose proof (Z.mod_pos_bound (z + 2 ^ 63) (2 ^ 64)). lia.
Qed.

End ui_facts.

(** X16.  [scroll] leaves the origin where it is or moves it by [step] to a row
    below the first one: it never sets the origin to row 0 (nor above), so
    a view that has been scrolled down cannot be scrolled back up to its
    first line.  It moves the origin only when it turns [Autoscroll] off;
    the column of the origin and the size stay. *)
Theorem scroll_never_goes_back_to_the_first_row (step : Z) (v : ui_chat.View) :
  let v' := ui_chat.scroll step v in
  (ui_chat.originY v' = ui_chat.originY v ∨
   (ui_chat.originY v' = ui_chat.int (ui_chat.originY v + step) ∧
    0 < ui_chat.originY v' ∧ ui_chat.Autoscroll v' = false))%Z ∧
  ui_chat.originX v' = ui_chat.originX v ∧
  ui_chat.sizeY v' = ui_chat.sizeY v ∧
  ui_chat.newlines v' = ui_chat.newlines v ∧
  ((0 < ui_chat.originY v)%Z → (0 < ui_chat.originY v')%Z) ∧
  (ui_chat.originY v = 1%Z → ui_chat.originY (ui_chat.scrollUp v) = 1%Z).
Proof.
  intros v'. subst v'.
  assert (Hgen : ∀ s,
    let v' := ui_chat.scroll s v in
    (ui_chat.originY v' = ui_chat.originY v ∨
     (ui_chat.originY v' = ui_chat.int (ui_chat.originY v + s) ∧
      0 < ui_chat.originY v' ∧ ui_chat.Autoscroll v' = false))%Z ∧
    ui_chat.originX v' = ui_chat.originX v ∧
    ui_chat.sizeY v' = ui_chat.sizeY v ∧
    ui_chat.newlines v' = ui_chat.newlines v).
  { intros s. unfold ui_chat.scroll, ui_chat.SetOrigin. simpl.
    destruct (_ >? _)%Z; [simpl; auto|].
    destruct (ui_chat.int (ui_chat.originY v + s) >? 0)%Z eqn:Hpos; [|simpl; auto].
    apply Z.gtb_lt in Hpos.
    destruct (ui_chat.originX v <? 0)%Z; simpl; [auto|].
    destruct (ui_chat.int (ui_chat.originY v + s) <? 0)%Z eqn:Hneg; simpl; [auto|].
    split; [right|]; auto. }
  destruct (Hgen step) as (Hy & Hx & Hs & Hn).
  split; [exact Hy|]. split; [exact Hx|]. split; [exact Hs|]. split; [exact Hn|].
  split.
  - intros Hpos. destruct Hy as [->|(_ & Hy & _)]; done.
  - intros H1. destruct (Hgen (-1)%Z) as ([Hy'|(Hy' & Hp & _)] & _).
    + unfold ui_chat.scrollUp. by rewrite Hy'.
    + exfalso. rewrite Hy', H1 in Hp. vm_compute in Hp. discriminate.
Qed.

(** ** Tab and F2 *)
Section keys.
Import ui_chat.

Lemma roomy_fits maxX maxY :
  roomy (KeyF2 maxX maxY) →
  ((int (maxX - 20) >=? int (maxX - 1)) || (0 >=? int (maxY - 8)))%Z = false.
Proof.
  intros [Hx Hy]. rewrite !int_small by lia.
  apply orb_false_iff. split; rewrite Z.geb_leb; apply Z.leb_gt; lia.
Qed.

(** The three ways of [toggleOnlineBox]. *)
Lemma toggleOnlineBox_opens maxX maxY c :
  has_view (gui c) onlineBoxName = false →
  ((int (maxX - 20) >=? int (maxX - 1)) || (0 >=? int (maxY - 8)))%Z = false →
  toggleOnlineBox maxX maxY c
  = (Done None
       {| gui := {| views := views (gui c) ++ [onlineBoxName];
                    currentView := currentView (gui c);
                    Cursor := Cursor (gui c) |};
          visibleViews := visibleViews c ++ [onlineBoxName];
          currentViewIdx := currentViewIdx c |}, true).
Proof.
  intros Hno Hfits. unfold toggleOnlineBox, SetView. by rewrite Hno, Hfits.
Qed.

Lemma toggleOnlineBox_too_small maxX maxY c :
  has_view (gui c) onlineBoxName = false →
  ((int (maxX - 20) >=? int (maxX - 1)) || (0 >=? int (maxY - 8)))%Z = true →
  toggleOnlineBox maxX maxY c
  = (Done (Some (WithMessage (ErrorString "invalid dimensions")
                   "Create view for online_box")) c, false).
Proof.
  intros Hno Hsmall. unfold toggleOnlineBox, SetView. rewrite Hno, Hsmall. simpl.
  by destruct c as [[vs cur cursor] vis idx].
Qed.

Lemma toggleOnlineBox_closes maxX maxY c :
  has_view (gui c) onlineBoxName = true →
  toggleOnlineBox maxX maxY c
  = (Done None
       {| gui := {| views := filter (λ x, x ≠ onlineBoxName) (views (gui c));
                    currentView := currentView (gui c);
                    Cursor := Cursor (gui c) |};
          visibleViews := lo_Without (visibleViews c) onlineBoxName;
          currentViewIdx := currentViewIdx c |}, false).
Proof.
  intros Hyes. unfold toggleOnlineBox, DeleteView. by rewrite Hyes.
Qed.

Lemma nextView_navigable c :
  navigable c → ∃ c', nextView (currentView (gui c)) c = Done None c' ∧ navigable c'.
Proof.
  intros (Hvis & Hviews & Hidx & [name Hcur]).
  destruct c as [[vs cur cursor] vis idx]. simpl in *. subst vs cur.
  assert (Hi : idx = 0%Z ∨ idx = 1%Z ∨ idx = 2%Z) by lia.
  destruct Hvis as [-> | ->]; destruct Hi as [-> | [-> | ->]];
    (eexists; split; [vm_compute; reflexivity|]);
    (split; [simpl; auto|]); (split; [done|]); (split; [simpl; lia|]); by eexists.
Qed.

Lemma press_navigable k c :
  navigable c →
  (∃ c', press k c = Done None c' ∧ navigable c') ∨
  (∃ e, press k c = Done (Some e) c ∧ ¬ roomy k).
Proof.
  intros Hnav. destruct k as [|maxX maxY]; simpl.
  { left. by apply nextView_navigable. }
  pose proof Hnav as (Hvis & Hviews & Hidx & Hcur).
  destruct Hvis as [Hvis | Hvis].
  - assert (Hno : has_view (gui c) onlineBoxName = false).
    { unfold has_view. rewrite Hviews, Hvis. by vm_compute. }
    destruct ((int (maxX - 20) >=? int (maxX - 1)) || (0 >=? int (maxY - 8)))%Z eqn:Hfit.
    + right. rewrite toggleOnlineBox_too_small by done. eexists. split; [done|].
      intros Hr. apply roomy_fits in Hr. congruence.
    + left. rewrite toggleOnlineBox_opens by done. eexists. split; [done|].
      split; [right; simpl; by rewrite Hvis|]. split; [simpl; by rewrite Hviews|].
      by split.
  - assert (Hyes : has_view (gui c) onlineBoxName = true).
    { unfold has_view. rewrite Hviews, Hvis. by vm_compute. }
    left. rewrite toggleOnlineBox_closes by done. eexists. split; [done|].
    split; [left; simpl; rewrite Hvis; by vm_compute|].
    split; [simpl; rewrite Hviews, Hvis; by vm_compute|]. by split.
Qed.

Lemma presses_navigable ks c :
  navigable c →
  match presses ks c with
  | Done err c' => navigable c' ∧ (Forall roomy ks → err = None)
  | Panic _ => False
  end.
Proof.
  revert c. induction ks as [|k ks IH]; intros c Hnav; simpl; [done|].
  destruct (press_navigable k c Hnav) as [(c' & -> & Hnav')|(e & -> & Hr)].
  - specialize (IH c' Hnav'). destruct (presses ks c') as [err c''|msg]; [|done].
    destruct IH as [? Herr]. split; [done|]. intros Hall. apply Herr.
    by apply Forall_cons in Hall as [_ ?].
  - split; [done|]. intros Hall. by apply Forall_cons in Hall as [? _].
Qed.

Lemma after_layout_navigable : navigable after_layout.
Proof. split; [by left|]. split; [done|]. split; [simpl; lia|]. by eexists. Qed.

End keys.

(** X17.  From the UI as the first layout pass leaves it, Tab and F2 in any
    number and order never panic: [nextView] never divides by zero and
    never indexes outside [visibleViews], although closing the online box
    can leave [currentViewIdx] one past the end.  The views on the screen
    are the chat box and the input field, with or without the online box.
    No handler returns an error as long as the terminal has more than eight
    rows whenever F2 is pressed. *)
Theorem Tab_and_F2_never_panic (ks : list ui_chat.key) :
  match ui_chat.presses ks ui_chat.after_layout with
  | ui_chat.Done err c =>
      ui_chat.navigable c ∧ (Forall ui_chat.roomy ks → err = None)
  | ui_chat.Panic _ => False
  end.
Proof. apply presses_navigable, after_layout_navigable. Qed.

(** X18.  Opening the online box and closing it again gives back the UI as it
    was: the visible views, the views of the GUI, the index and the focus.
    The on-open listeners are run by the press that opens the box and not
    by the one that closes it.  This holds for every UI in which the online
    box is neither a view nor listed as visible. *)
Theorem toggleOnlineBox_twice_is_the_UI_as_it_was
    (maxX maxY maxX' maxY' : Z) (c : ui_chat.Chat) :
  ui_chat.onlineBoxName ∉ ui_chat.views (ui_chat.gui c) →
  ui_chat.onlineBoxName ∉ ui_chat.visibleViews c →
  ui_chat.roomy (ui_chat.KeyF2 maxX maxY) →
  ∃ c1,
    ui_chat.toggleOnlineBox maxX maxY c = (ui_chat.Done None c1, true) ∧
    ui_chat.visibleViews c1 = ui_chat.visibleViews c ++ [ui_chat.onlineBoxName] ∧
    ui_chat.toggleOnlineBox maxX' maxY' c1 = (ui_chat.Done None c, false).
Proof.
  intros Hv Hvis Hroomy.
  assert (Hno : ui_chat.has_view (ui_chat.gui c) ui_chat.onlineBoxName = false).
  { unfold ui_chat.has_view. by rewrite bool_decide_false. }
  rewrite toggleOnlineBox_opens by (done || by apply roomy_fits).
  eexists. split; [reflexivity|]. split; [done|].
  rewrite toggleOnlineBox_closes.
  2:{ unfold ui_chat.has_view. simpl.
      rewrite bool_decide_true; [done|]. apply elem_of_app. right. by left. }
  simpl.
  assert (Hsame : ∀ l : list string, ui_chat.onlineBoxName ∉ l →
            filter (λ x, x ≠ ui_chat.onlineBoxName) (l ++ [ui_chat.onlineBoxName]) = l).
  { intros l Hl. rewrite filter_app.
    replace (filter _ [ui_chat.onlineBoxName]) with (@nil string) by (by vm_compute).
    rewrite app_nil_r. induction l as [|x l IH]; [done|].
    apply not_elem_of_cons in Hl as [Hx Hl].
    rewrite filter_cons_True by done. by rewrite IH. }
  unfold ui_chat.lo_Without. rewrite !Hsame by done.
  by destruct c as [[vs cur cursor] vis idx].
Qed.

Lemma toggleOnlineBox_twice_is_the_UI_as_it_was_witness :
  ∃ c1,
    ui_chat.toggleOnlineBox 80 24 ui_chat.after_layout = (ui_chat.Done None c1, true) ∧
    ui_chat.toggleOnlineBox 80 24 c1 = (ui_chat.Done None ui_chat.after_layout, false).
Proof.
  destruct (toggleOnlineBox_twice_is_the_UI_as_it_was 80 24 80 24 ui_chat.after_layout)
    as (c1 & Hopen & _ & Hclose).
  - intros Hin. vm_compute in Hin. by repeat (apply elem_of_cons in Hin as [Hin|Hin];
      [discriminate Hin|]); apply elem_of_nil in Hin.
  - intros Hin. by repeat (apply elem_of_cons in Hin as [Hin|Hin];
      [discriminate Hin|]); apply elem_of_nil in Hin.
  - split; simpl; lia.
  - exists c1. by split.
Defined.

(** ** The layout functions *)
Section layout_facts.
Import ui_chat.

Lemma layout_fits maxX maxY :
  (1 < maxX < 2 ^ 31)%Z → (8 < maxY < 2 ^ 31)%Z →
  ((0 >=? int (maxX - 1)) || (0 >=? int (maxY - 8)))%Z = false ∧
  ((0 >=? int (maxX - 1)) || (int (maxY - 7) >=? int (maxY - 1)))%Z = false.
Proof.
  intros Hx Hy. rewrite !int_small by lia.
  split; apply orb_false_iff; split; rewrite Z.geb_leb; apply Z.leb_gt; lia.
Qed.

End layout_facts.

(** X22.  On a terminal of more than one column and more than eight rows:
    the first pass of the layout functions over the UI that [NewChat]
    returns makes the chat box and the input field, lists them as visible
    in this order, and gives the focus to the input field; every later pass
    finds the views, returns before it appends anything and changes
    nothing, whether or not the online box is open and wherever the focus
    is.  So [visibleViews] holds each of the two names once, however often
    the layout runs. *)
Theorem layout_lists_each_view_once (maxX maxY : Z) (c : ui_chat.Chat) :
  (1 < maxX < 2 ^ 31)%Z → (8 < maxY < 2 ^ 31)%Z →
  ui_chat.layout maxX maxY ui_chat.NewChat = (ui_chat.after_layout, None) ∧
  (ui_chat.navigable c → ui_chat.layout maxX maxY c = (c, None)).
Proof.
  intros Hx Hy. destruct (layout_fits maxX maxY Hx Hy) as [Hchat Hinput].
  unfold ui_chat.layout, ui_chat.chatBoxLayout, ui_chat.inputFieldLayout,
    ui_chat.SetView.
  split.
  - simpl. rewrite Hchat. simpl. rewrite Hinput. reflexivity.
  - intros (Hvis & Hviews & Hidx & Hcur).
    destruct c as [[vs cur cursor] vis idx]. simpl in *. subst vs.
    rewrite Hchat.
    destruct Hvis as [-> | ->]; simpl; rewrite Hinput; reflexivity.
Qed.

Lemma layout_lists_each_view_once_witness :
  ui_chat.layout 80 24 ui_chat.NewChat = (ui_chat.after_layout, None) ∧
  ui_chat.layout 80 24 ui_chat.after_layout = (ui_chat.after_layout, None).
Proof.
  destruct (layout_lists_each_view_once 80 24 ui_chat.after_layout) as [Hfirst Hlater];
    [lia..|].
  split; [exact Hfirst|]. apply Hlater.
  split; [by left|]. split; [done|]. split; [simpl; lia|]. by eexists.
Defined.

(** ** Enter in the input field *)

(** X19.  With [PostMessage] as the only on-message-send listener, as [main]
    wires it: Enter makes one attempt to write one post-message request,
    whose text is the buffer of the input field with the white space around
    it trimmed (the empty text when the field is empty or blank) and whose
    token is the session token.  The input field is cleared whether or not
    the write succeeded; a failed write is in the log only, so the text is
    lost. *)
Theorem sendMessage_posts_the_trimmed_buffer_and_clears_it `{Libraries} {RL DL : Type}
    (buffer : string) (st : State RL DL) (c : WsConn) :
  conn (connH st) = Some c →
  let post := ReqPostMsg {| postMsgReq_Type := typePostMessageReq;
                            postMsgReq_Token := token (chatH st);
                            postMsgReq_Msg := strings_TrimSpace buffer |} in
  ui_chat.sendMessage [chat.PostMessage] (Some buffer) None st
  = (EvWriteJSON c post (writeErr c)
     :: match writeErr c with
        | Some e => [EvLog ErrorLevel [LErr (WithMessage e "Send post message request")]]
        | None => []
        end,
     Ret (None, Some "") st).
Proof.
  intros Hc post. subst post. unfold ui_chat.sendMessage. simpl.
  rewrite bind_bind, bind_run.
  unfold chat.PostMessage.
  rewrite bind_get, bind_run, (WriteJSON_run _ c) by done.
  destruct (writeErr c); by mrun.
Qed.

Lemma sendMessage_posts_the_trimmed_buffer_and_clears_it_witness :
  let st : State nat nat := connected_state closed_conn in
  let e := NetError "use of closed network connection" in
  ui_chat.sendMessage (H:=wire_libraries) [chat.PostMessage] (Some "  hello  ") None st
  = ([EvWriteJSON closed_conn
        (ReqPostMsg {| postMsgReq_Type := typePostMessageReq;
                       postMsgReq_Token := ""; postMsgReq_Msg := "hello" |}) (Some e);
      EvLog ErrorLevel [LErr (WithMessage e "Send post message request")]],
     Ret (None, Some "") st).
Proof.
  intros st e.
  exact (sendMessage_posts_the_trimmed_buffer_and_clears_it (H:=wire_libraries)
           "  hello  " st closed_conn eq_refl).
Defined.


(** ** A disconnect before the UI is attached *)
Section early_disconnect.
Context `{Libraries}.
Local Abbreviation St := (State chat.RespListener chat.DisconnectListener).
Implicit Types (st : St) (s : main.System).

Lemma onDisconnect_fn_nil_channel err st :
  OnlineUsersCh (ChatUI (chatH st)) = None →
  chat.onDisconnect_fn err st
  = ([EvLog ErrorLevel [LErr (WithMessage err "Lost connection to server");
                        LStr " Retrying in 5 seconds."]],
     Blocked OnNilChannel st).
Proof.
  intros Hch. unfold chat.onDisconnect_fn.
  rewrite ChatUI_guard_always_holds. mrun.
  unfold chat.send_OnlineUsersCh. mrun. rewrite Hch. simpl. by mrun.
Qed.

Lemma run_fixed sched s : (∀ a, main.step a s = s) → main.run sched s = s.
Proof.
  intros Hfix. induction sched as [|a sched IH]; [done|].
  simpl. by rewrite Hfix.
Qed.

End early_disconnect.

(** X20.  While [main] waits for the token in [LoginAndWaitForToken], no UI is
    attached yet.  When the connection is lost then (the read fails with a
    close error or a network error), the disconnect listener logs the loss
    and stays in its send on the nil channel of the zero [ui.Chat]; the
    receive loop is in that listener for good, no login response can be
    read any more, [main] never gets its token, the UI is never started:
    whatever is scheduled from then on, nothing happens any more. *)
Theorem a_disconnect_during_login_stops_the_program `{Libraries}
    (s : main.System) (err : error) (c : WsConn)
    (ds : list chat.DisconnectListener) (sched : list main.action) :
  main.exited s = false →
  main.listening s = true →
  main.main_waits s = true →
  main.msg_send_wired s = false →
  main.online_box_wired s = false →
  conn (connH (main.sys_state s)) = Some c →
  onDisconnect (connH (main.sys_state s)) = chat.OnDisconnectFn :: ds →
  OnlineUsersCh (ChatUI (chatH (main.sys_state s))) = None →
  As_CloseError err || As_netError err = true →
  let s1 := main.step (main.RunListen (ReadErr err)) s in
  main.sys_log s1
  = main.sys_log s
    ++ [EvReadJSON c (ReadErr err);
        EvDisconnectListener chat.OnDisconnectFn err;
        EvLog ErrorLevel [LErr (WithMessage err "Lost connection to server");
                          LStr " Retrying in 5 seconds."]] ∧
  main.sys_state s1 = main.sys_state s ∧
  main.listening s1 = false ∧
  main.exited s1 = false ∧
  main.run sched s1 = s1.
Proof.
  intros Hex Hlis Hwait Hw1 Hw2 Hc Hds Hui Hclass s1.
  assert (Hs1 : s1 = main.MkSystem (main.sys_state s)
                  (main.sys_log s
                   ++ [EvReadJSON c (ReadErr err);
                       EvDisconnectListener chat.OnDisconnectFn err;
                       EvLog ErrorLevel [LErr (WithMessage err "Lost connection to server");
                                         LStr " Retrying in 5 seconds."]])
                  (main.main_rest s) (main.main_out s) false false false false).
  { subst s1. unfold main.step. rewrite Hex, Hlis. simpl.
    rewrite (Listen_iteration_disconnect _ _ _ _ c) by done.
    rewrite Hds. simpl. rewrite bind_bind, bind_emit, bind_bind.
    rewrite bind_run. unfold chat.call_disc.
    rewrite onDisconnect_fn_nil_channel by done.
    unfold main.finish, after. simpl. by rewrite Hw1, Hw2. }
  rewrite Hs1. simpl. split; [done|]. split; [done|]. split; [done|]. split; [done|].
  apply run_fixed. intros a. unfold main.step. simpl.
  destruct a; simpl; try done.
  unfold main.main_waits in *. simpl. rewrite Hwait. by rewrite orb_true_r.
Qed.

Lemma a_disconnect_during_login_stops_the_program_witness :
  let s := main.run (H:=wire_libraries) (replicate 9 main.RunMain)
             (main.start (H:=wire_libraries) example_cfg [DialOk open_conn] []) in
  let err := CloseError 1006 "unexpected EOF" in
  let s1 := main.step (H:=wire_libraries) (main.RunListen (ReadErr err)) s in
  main.main_waits s = true ∧
  main.run (H:=wire_libraries)
    [main.RunListen (ReadOk (login_response "T" statusOk)); main.RunMain;
     main.SendMessage "hi"; main.RunMain] s1 = s1.
Proof.
  intros s err s1. split; [vm_compute; reflexivity|].
  apply (a_disconnect_during_login_stops_the_program (H:=wire_libraries) s err
           open_conn []); vm_compute; reflexivity.
Defined.

(** ** The nickname of every login request *)
Section plain_code.
Context `{Libraries} {RL DL : Type}.
Implicit Types (st : State RL DL) (evs : list (event RL DL)).
Local Abbreviation keeps_plain := (keeps (RL:=RL) (DL:=DL) plain).

Lemma plain_refl st : plain st [] st.
Proof. by split. Qed.

Lemma plain_trans st1 e1 st2 e2 st3 :
  plain st1 e1 st2 → plain st2 e2 st3 → plain st1 (e1 ++ e2) st3.
Proof.
  intros [Hc1 Hw1] [Hc2 Hw2]. split; [congruence|].
  by rewrite writes_app, Hw1, Hw2.
Qed.

Lemma pl_ret {A} (a : A) : keeps_plain (mret a).
Proof. apply keeps_ret, plain_refl. Qed.

Lemma pl_park {A} why : keeps_plain (park why : M RL DL A).
Proof. apply keeps_park, plain_refl. Qed.

Lemma pl_panic {A} msg : keeps_plain (panic msg : M RL DL A).
Proof. apply keeps_panic, plain_refl. Qed.

Lemma pl_bind {A B} (m : M RL DL A) (k : A → M RL DL B) :
  keeps_plain m → (∀ a, keeps_plain (k a)) → keeps_plain (m ≫= k).
Proof. apply keeps_bind, plain_trans. Qed.

Lemma pl_emit e : writes [e] = [] → keeps_plain (emit e).
Proof. intros He st. by split. Qed.

Lemma pl_log lvl args : keeps_plain (log lvl args).
Proof. by apply pl_emit. Qed.

Lemma pl_Sleep n : keeps_plain (time_Sleep n).
Proof. by apply pl_emit. Qed.

Lemma pl_modify f : (∀ st, cfg (f st) = cfg st) → keeps_plain (modify f).
Proof. intros Hf st. split; [apply Hf|done]. Qed.

Lemma pl_Connect_loop script : keeps_plain (connection.Connect_loop script).
Proof.
  induction script as [|[c|e] script IH]; simpl.
  - apply pl_park.
  - apply keeps_get_bind. intros st.
    apply (pl_bind (modify _)); [by apply pl_modify|]. intros _.
    apply pl_bind; [by apply pl_emit|]. intros _.
    apply (pl_bind (modify _)); [by apply pl_modify|]. intros _. apply pl_log.
  - apply keeps_get_bind. intros st.
    apply (pl_bind (modify _)); [by apply pl_modify|]. intros _.
    apply pl_bind; [by apply pl_emit|]. intros _.
    apply pl_bind; [apply pl_log|]. intros _.
    apply pl_bind; [apply pl_Sleep|]. intros _. apply IH.
Qed.

Lemma pl_Connect : keeps_plain connection.Connect.
Proof. apply keeps_get_bind. intros st. apply pl_Connect_loop. Qed.

Lemma pl_ask_nickname_loop script :
  keeps_plain (stdin.ask_loop script true "Enter your nickname: "
                 stdin.AskNickname_callback).
Proof.
  induction script as [|[line err] script IH]; simpl.
  - apply pl_bind; [by apply pl_emit|]. intros _. apply pl_park.
  - apply pl_bind; [by apply pl_emit|]. intros _.
    apply (pl_bind (modify _)); [by apply pl_modify|]. intros _.
    apply pl_bind.
    { unfold stdin.AskNickname_callback.
      destruct (decide _); [apply pl_ret|]. simpl.
      destruct (decide _); [|apply pl_ret].
      apply pl_bind; [apply pl_log|]. intros _. apply pl_ret. }
    intros [|]; [apply IH|].
    destruct err as [e|]; [|apply pl_ret].
    apply pl_bind; [apply pl_log|]. intros _. apply IH.
Qed.

Lemma pl_AskNickname : keeps_plain stdin.AskNickname.
Proof.
  unfold stdin.AskNickname, stdin.ask. apply keeps_get_bind. intros st.
  apply pl_ask_nickname_loop.
Qed.

Lemma pl_send_OnlineUsersCh users : keeps_plain (chat.send_OnlineUsersCh users).
Proof.
  unfold chat.send_OnlineUsersCh. apply keeps_get_bind. intros st.
  destruct (chansend _ users) as [r ch|ch| |].
  - apply (pl_bind (modify _)); [by apply pl_modify|]. intros _. by apply pl_emit.
  - by apply pl_modify.
  - apply pl_park.
  - apply pl_park.
Qed.

Lemma pl_send_tokenCh tok : keeps_plain (chat.send_tokenCh tok).
Proof.
  unfold chat.send_tokenCh. apply keeps_get_bind. intros st.
  destruct (chansend _ tok) as [r ch|ch| |].
  - apply (pl_bind (modify _)); [by apply pl_modify|]. intros _. by apply pl_emit.
  - by apply pl_modify.
  - apply pl_park.
  - apply pl_park.
Qed.

Lemma pl_recv_tokenCh g : keeps_plain (chat.recv_tokenCh g).
Proof.
  unfold chat.recv_tokenCh. apply keeps_get_bind. intros st.
  destruct (chan_buf _) as [|tok buf].
  - by apply pl_modify.
  - apply (pl_bind (modify _)); [by apply pl_modify|]. intros _. by apply pl_emit.
Qed.

Lemma pl_chatMsgToClient_fn resp : keeps_plain (chat.chatMsgToClient_fn resp).
Proof.
  unfold chat.chatMsgToClient_fn.
  destruct (negb _); [apply pl_ret|].
  destruct (Decode_chatMsgToClient resp) as [r|e]; [|apply pl_log].
  apply keeps_get_bind. intros st. apply pl_bind.
  - unfold ui.PrintToChatBox. destruct (Gui _) as [[|]|].
    + apply pl_bind; [by apply pl_emit|]. intros _. apply pl_ret.
    + apply pl_ret.
    + apply pl_panic.
  - intros [e|]; [apply pl_log|apply pl_ret].
Qed.

Lemma pl_postMessageResponse_fn resp : keeps_plain (chat.postMessageResponse_fn resp).
Proof.
  unfold chat.postMessageResponse_fn.
  destruct (negb _); [apply pl_ret|].
  destruct (Decode_postMsgResp resp) as [r|e]; [|apply pl_log].
  destruct (decide _); [apply pl_log|apply pl_ret].
Qed.

Lemma pl_onlineUsers_fn resp : keeps_plain (chat.onlineUsers_fn resp).
Proof.
  unfold chat.onlineUsers_fn.
  destruct (negb _); [apply pl_ret|].
  destruct (Decode_onlineUsers resp) as [r|e]; [|apply pl_log].
  destruct (decide _); [apply pl_send_OnlineUsersCh|apply pl_log].
Qed.

End plain_code.

Section nick_code.
Context `{Libraries} {RL DL : Type}.
Implicit Types (st : State RL DL) (evs : list (event RL DL)).
Local Abbreviation keeps_nick := (keeps (RL:=RL) (DL:=DL) nick_frame).

Lemma nick_frame_refl st : nick_frame st [] st.
Proof. intros Hn. split; [done|constructor]. Qed.

Lemma nick_frame_trans st1 e1 st2 e2 st3 :
  nick_frame st1 e1 st2 → nick_frame st2 e2 st3 → nick_frame st1 (e1 ++ e2) st3.
Proof.
  intros H1 H2 Hn. destruct (H1 Hn) as [Hn2 Hw1]. destruct (H2 Hn2) as [Hn3 Hw2].
  split; [done|]. rewrite writes_app. by apply Forall_app.
Qed.

Lemma plain_nick {A} (m : M RL DL A) : keeps plain m → keeps_nick m.
Proof.
  intros Hm st Hn. destruct (Hm st) as [Hc Hw]. rewrite Hc, Hw.
  split; [done|constructor].
Qed.

Lemma nk_bind {A B} (m : M RL DL A) (k : A → M RL DL B) :
  keeps_nick m → (∀ a, keeps_nick (k a)) → keeps_nick (m ≫= k).
Proof. apply keeps_bind, nick_frame_trans. Qed.

Lemma nk_login_and_log : keeps_nick chat.login_and_log.
Proof.
  intros st Hn. unfold chat.login_and_log, chat.login.
  rewrite bind_run, bind_get, bind_run.
  destruct (WriteJSON_frame
              (ReqLogin {| loginReq_Type := typeLoginReq;
                           loginReq_Nickname := Nickname (cfg st) |}) st)
    as [Hst Hev].
  destruct (connection.WriteJSON _ st) as [wevs [err st'|why st'|msg st']];
    unfold events_of, result_of, after in *; simpl in *; subst st'.
  - destruct (errors_Wrap err "Send login request"); simpl;
      (split; [done|]); rewrite ?app_nil_r, ?writes_app; simpl; rewrite ?app_nil_r;
      (destruct Hev as [->|(c & r & ->)]; simpl; by repeat constructor).
  - split; [done|]. destruct Hev as [->|(c & r & ->)]; simpl; by repeat constructor.
  - split; [done|]. destruct Hev as [->|(c & r & ->)]; simpl; by repeat constructor.
Qed.

Lemma nk_onDisconnect_fn err : keeps_nick (chat.onDisconnect_fn err).
Proof.
  unfold chat.onDisconnect_fn.
  apply nk_bind; [apply plain_nick, pl_log|]. intros _.
  apply nk_bind.
  { destruct (negb _); apply plain_nick; [apply pl_send_OnlineUsersCh|apply pl_ret]. }
  intros _. apply nk_bind; [apply plain_nick, pl_Sleep|]. intros _.
  apply nk_bind; [apply plain_nick, pl_Connect|]. intros _.
  apply nk_bind; [apply nk_login_and_log|]. intros _.
  apply nk_bind; [by apply plain_nick, pl_emit|]. intros _.
  apply plain_nick, pl_recv_tokenCh.
Qed.

Lemma nk_loginResponse_fn resp : keeps_nick (chat.loginResponse_fn resp).
Proof.
  unfold chat.loginResponse_fn.
  destruct (negb _); [apply plain_nick, pl_ret|].
  destruct (Decode_loginResp resp) as [r|e]; [|apply plain_nick, pl_log].
  destruct (decide (loginResp_Status r = statusOk)) as [Hok|Hnok].
  { apply plain_nick, pl_bind; [apply pl_log|]. intros _. apply pl_send_tokenCh. }
  destruct (decide (loginResp_Status r = statusNameAlreadyTaken)) as [Htaken|Hnt];
    [|apply plain_nick, pl_log].
  apply nk_bind; [apply plain_nick, pl_log|]. intros _.
  intros st Hn. rewrite bind_run.
  pose proof (pl_AskNickname st) as [Hc Hw].
  pose proof (AskNickname_returns_accepted st) as Hacc.
  destruct (stdin.AskNickname st) as [evs [nick st1|why st1|msg st1]];
    unfold events_of, result_of, after in *; simpl in *.
  - destruct (Hacc st1 nick eq_refl) as [Hne _].
    rewrite bind_modify.
    pose proof (nk_login_and_log (set_cfg (chat.set_Nickname nick (cfg st1)) st1) Hne)
      as [Hn' Hw'].
    destruct (chat.login_and_log _) as [levs lres]. simpl in *.
    split; [done|]. rewrite writes_app, Hw. done.
  - rewrite Hc, Hw. split; [done|constructor].
  - rewrite Hc, Hw. split; [done|constructor].
Qed.

End nick_code.

Section nick_run.
Context `{Libraries}.
Local Abbreviation St := (State chat.RespListener chat.DisconnectListener).
Local Abbreviation Ev := (event chat.RespListener chat.DisconnectListener).
Local Abbreviation M := (M chat.RespListener chat.DisconnectListener).
Implicit Types (st : St) (evs : list Ev) (s : main.System).

Lemma nk_call_resp l resp : keeps nick_frame (chat.call_resp l resp).
Proof.
  destruct l; simpl.
  - apply nk_loginResponse_fn.
  - apply plain_nick, pl_chatMsgToClient_fn.
  - apply plain_nick, pl_postMessageResponse_fn.
  - apply plain_nick, pl_onlineUsers_fn.
Qed.

Lemma nk_range_onResponse ls resp :
  keeps nick_frame (connection.range_onResponse chat.call_resp ls resp).
Proof.
  induction ls as [|l ls IH]; simpl; [apply plain_nick, pl_ret|].
  apply nk_bind; [by apply plain_nick, pl_emit|]. intros _.
  apply nk_bind; [apply nk_call_resp|]. intros _. apply IH.
Qed.

Lemma nk_range_onDisconnect ls err :
  keeps nick_frame (connection.range_onDisconnect chat.call_disc ls err).
Proof.
  induction ls as [|l ls IH]; simpl; [apply plain_nick, pl_ret|].
  apply nk_bind; [by apply plain_nick, pl_emit|]. intros _.
  apply nk_bind; [destruct l; apply nk_onDisconnect_fn|]. intros _. apply IH.
Qed.

Lemma nk_Listen_iteration r :
  keeps nick_frame (connection.Listen_iteration chat.call_resp chat.call_disc r).
Proof.
  unfold connection.Listen_iteration. apply keeps_get_bind. intros st.
  destruct (conn (connH st)) as [c|]; [|apply nick_frame_refl].
  apply nk_bind; [by apply plain_nick, pl_emit|]. intros _.
  destruct r as [resp|err].
  - apply nk_bind; [apply nk_range_onResponse|]. intros _. apply plain_nick, pl_ret.
  - destruct (As_CloseError err || As_netError err).
    + apply nk_bind; [apply nk_range_onDisconnect|]. intros _. apply plain_nick, pl_ret.
    + apply plain_nick, pl_ret.
Qed.

(** The requests of the UI callbacks are no login requests, and the
    callbacks leave the state as it is. *)
Lemma PostMessage_no_login msg st :
  let out := chat.PostMessage msg st in
  final_state (result_of out) = st ∧ Forall login_named (writes (events_of out)).
Proof.
  unfold chat.PostMessage. rewrite bind_get, bind_run.
  destruct (WriteJSON_frame
              (ReqPostMsg {| postMsgReq_Type := typePostMessageReq;
                             postMsgReq_Token := token (chatH st);
                             postMsgReq_Msg := msg |}) st) as [Hst Hev].
  destruct (connection.WriteJSON _ st) as [wevs [err st'|why st'|pmsg st']];
    unfold events_of, result_of, after in *; simpl in *; subst st'.
  - destruct err; simpl; (split; [done|]); rewrite ?app_nil_r, ?writes_app; simpl;
      rewrite ?app_nil_r;
      (destruct Hev as [->|(c & r & ->)]; simpl; by repeat constructor).
  - split; [done|]. destruct Hev as [->|(c & r & ->)]; simpl; by repeat constructor.
  - split; [done|]. destruct Hev as [->|(c & r & ->)]; simpl; by repeat constructor.
Qed.

Lemma RequestOnlineUsers_no_login st :
  let out := chat.RequestOnlineUsers st in
  final_state (result_of out) = st ∧ Forall login_named (writes (events_of out)).
Proof.
  unfold chat.RequestOnlineUsers. rewrite bind_get, bind_run.
  destruct (WriteJSON_frame
              (ReqOnlineUsers {| onlineUsersReq_Type := typeOnlineUsersReq;
                                 onlineUsersReq_Token := token (chatH st) |}) st)
    as [Hst Hev].
  destruct (connection.WriteJSON _ st) as [wevs [err st'|why st'|pmsg st']];
    unfold events_of, result_of, after in *; simpl in *; subst st'.
  - destruct err; simpl; (split; [done|]); rewrite ?app_nil_r, ?writes_app; simpl;
      rewrite ?app_nil_r;
      (destruct Hev as [->|(c & r & ->)]; simpl; by repeat constructor).
  - split; [done|]. destruct Hev as [->|(c & r & ->)]; simpl; by repeat constructor.
  - split; [done|]. destruct Hev as [->|(c & r & ->)]; simpl; by repeat constructor.
Qed.

(** [if cfg.Nickname == "" { cfg.Nickname = AskNickname(log) }] writes
    nothing, and when it returns the nickname is set. *)
Lemma ask_nickname_if_empty_sets st :
  let out := main.ask_nickname_if_empty st in
  writes (events_of out) = [] ∧
  ∀ a st', result_of out = Ret a st' → Nickname (cfg st') ≠ "".
Proof.
  unfold main.ask_nickname_if_empty. rewrite bind_get.
  destruct (decide (Nickname (cfg st) = "")) as [Hempty|Hset].
  - rewrite bind_run.
    pose proof (pl_AskNickname st) as [_ Hw].
    pose proof (AskNickname_returns_accepted st) as Hacc.
    destruct (stdin.AskNickname st) as [evs [nick st1|why st1|msg st1]];
      unfold events_of, result_of, after in *; simpl in *;
      (split; [by rewrite ?app_nil_r|]); try done.
    intros [] st' [= <-]. simpl. by destruct (Hacc st1 nick eq_refl).
  - split; [done|]. by intros [] st' [= <-].
Qed.

(** The statements of [main] before the receive loop is started write
    nothing; the third leaves a nickname set. *)
Lemma early_stmt k (m : M unit) st :
  main.body !! k = Some (main.Do m) → k < 3 →
  writes (events_of (m st)) = [] ∧
  (k = 2 → ∀ a st', result_of (m st) = Ret a st' → Nickname (cfg st') ≠ "").
Proof.
  intros Hat Hk.
  destruct k as [|[|[|k]]]; [| | |lia]; injection Hat as <-.
  - split; [|intros; lia]. unfold main.new_connHandler. rewrite bind_get.
    by destruct (TLSMode (cfg st)).
  - split; [|intros; lia]. by destruct (pl_Connect st).
  - destruct (ask_nickname_if_empty_sets st) as [Hw Hn]. split; [done|]. intros _. exact Hn.
Qed.

(** The statements from the start of the receive loop on keep the
    nickname set. *)
Lemma wiring_keeps_nick_frame :
  Forall (stmt_keeps nick_frame) (drop 3 main.body).
Proof.
  repeat apply Forall_cons_2; try apply Forall_nil_2; simpl; try exact I.
  - intros st. apply nick_frame_refl.
  - by apply plain_nick, pl_modify.
  - apply plain_nick. unfold chat.HandleOnDisconnect, connection.AddOnDisconnectListener.
    apply pl_bind; [by apply pl_emit|]. intros _. by apply pl_modify.
  - apply plain_nick. unfold chat.HandleLoginResponse, connection.AddOnRespListener.
    apply pl_bind; [by apply pl_emit|]. intros _. by apply pl_modify.
  - apply nk_login_and_log.
  - apply plain_nick, pl_recv_tokenCh.
  - by apply plain_nick, pl_modify.
  - apply plain_nick. unfold main.go_Draw_and_wait.
    apply pl_bind; [by apply pl_emit|]. intros _. by apply pl_modify.
  - apply plain_nick. unfold main.go_UpdateOnlineBox.
    apply pl_bind; [by apply pl_emit|]. intros _. apply pl_modify.
    intros st. by destruct (OnlineUsersCh (ChatUI (chatH st))).
  - apply plain_nick. unfold chat.HandleChatMsgToClient, connection.AddOnRespListener.
    apply pl_bind; [by apply pl_emit|]. intros _. by apply pl_modify.
  - apply plain_nick. unfold chat.HandlePostMessageResponse, connection.AddOnRespListener.
    apply pl_bind; [by apply pl_emit|]. intros _. by apply pl_modify.
  - apply plain_nick. unfold chat.HandleOnlineUsers, connection.AddOnRespListener.
    apply pl_bind; [by apply pl_emit|]. intros _. by apply pl_modify.
Qed.

Lemma late_stmt k stmt :
  main.body !! k = Some stmt → 3 ≤ k → stmt_keeps nick_frame stmt.
Proof.
  intros Hat Hk.
  eapply (Forall_lookup_1 _ _ (k - 3)); [apply wiring_keeps_nick_frame|].
  rewrite lookup_drop. by replace (3 + (k - 3)) with k by lia.
Qed.

Lemma start_named_inv c dials lines : named_inv_at 0 (main.start c dials lines).
Proof.
  split; [done|]. split; [done|]. split; [intros; lia|constructor].
Qed.

Lemma step_main_named_inv s : named_inv s → named_inv (main.step main.RunMain s).
Proof.
  intros [k Hinv]. unfold main.step.
  destruct (main.exited s) eqn:Hex; [by exists k|].
  destruct (main.main_out s || main.main_waits s) eqn:Hgo; [by exists k|].
  destruct (main.main_rest s) as [|stmt rest] eqn:Hmr; [by exists k|].
  pose proof Hinv as (Hrest & Hlis & Hnick & Hlog).
  rewrite Hmr in Hrest. symmetry in Hrest.
  apply body_at in Hrest as [Hat ->].
  destruct stmt as [m| | |].
  - unfold main.finish.
    assert (Hm : writes (events_of (m (main.sys_state s))) = [] ∧ k < 3 ∨
                 nick_frame (main.sys_state s) (events_of (m (main.sys_state s)))
                   (final_state (result_of (m (main.sys_state s)))) ∧ 3 ≤ k).
    { destruct (decide (k < 3)) as [Hk|Hk].
      - left. split; [|done]. by destruct (early_stmt k m (main.sys_state s) Hat Hk).
      - right. split; [|lia]. by apply (late_stmt k (main.Do m) Hat); lia. }
    assert (Hw : Forall login_named
                   (writes (main.sys_log s ++ events_of (m (main.sys_state s))))).
    { rewrite writes_app. apply Forall_app. split; [done|].
      destruct Hm as [[-> _]|[Hm Hk]]; [constructor|]. by apply Hm, Hnick. }
    assert (Hn : 3 ≤ k → Nickname (cfg (final_state (result_of (m (main.sys_state s))))) ≠ "").
    { intros Hk. destruct Hm as [[_ ?]|[Hm _]]; [lia|]. by apply Hm, Hnick. }
    assert (Hn2 : k = 2 → ∀ a st', result_of (m (main.sys_state s)) = Ret a st' →
                            Nickname (cfg st') ≠ "").
    { intros ->. destruct (early_stmt 2 m (main.sys_state s) Hat) as [_ Hx]; [lia|].
      by apply Hx. }
    destruct (m (main.sys_state s)) as [evs [[] st'|why st'|pmsg st']];
      unfold events_of, result_of in *; simpl in *.
    + exists (S k). split; [done|]. split; [intros Hl; specialize (Hlis Hl); lia|].
      split; [|done]. intros Hk. destruct (decide (k = 2)) as [->|]; [eauto|].
      apply Hn. lia.
    + destruct why; try (by exists k);
        (exists k; split; [by rewrite (drop_S _ _ _ Hat)|]; split; [done|];
         split; [done|done]).
    + exists k. split; [by rewrite (drop_S _ _ _ Hat)|]. split; [done|].
      split; [done|done].
  - apply GoListen_at in Hat as ->. exists 4.
    split; [done|]. split; [done|]. split; [intros _; apply Hnick; lia|].
    cbn [main.sys_log]. rewrite writes_app. simpl. by rewrite app_nil_r.
  - exists (S k). simpl. split; [done|]. split; [intros Hl; specialize (Hlis Hl); lia|].
    split; [|done]. intros Hk. apply Hnick.
    destruct (decide (k = 2)) as [->|]; [discriminate Hat|lia].
  - exists (S k). simpl. split; [done|]. split; [intros Hl; specialize (Hlis Hl); lia|].
    split; [|done]. intros Hk. apply Hnick.
    destruct (decide (k = 2)) as [->|]; [discriminate Hat|lia].
Qed.

Lemma step_listen_named_inv r s :
  named_inv s → named_inv (main.step (main.RunListen r) s).
Proof.
  intros [k Hinv]. unfold main.step.
  destruct (main.exited s) eqn:Hex; [by exists k|].
  destruct (main.listening s) eqn:Hl; [|by exists k]. simpl.
  pose proof Hinv as (Hrest & Hlis & Hnick & Hlog).
  specialize (Hlis Hl).
  pose proof (nk_Listen_iteration r (main.sys_state s)) as Hm.
  destruct Hm as [Hn Hw]; [apply Hnick; lia|].
  unfold main.finish.
  destruct (connection.Listen_iteration chat.call_resp chat.call_disc r (main.sys_state s))
    as [evs res].
  unfold events_of, result_of in *. cbn [fst snd] in *.
  assert (Hw1 : Forall login_named (writes (main.sys_log s ++ evs))).
  { rewrite writes_app. apply Forall_app. by split. }
  assert (Hw2 : ∀ e, Forall login_named
                   (writes ((main.sys_log s ++ evs) ++ [EvLog FatalLevel [LErr e]]))).
  { intros e. rewrite writes_app. simpl. by rewrite app_nil_r. }
  destruct res as [[e|] st'|why st'|pmsg st']; cbn [final_state] in *.
  - exists k. split; [done|]. split; [done|]. split; [done|]. apply Hw2.
  - by exists k.
  - destruct why; try (by exists k).
  - by exists k.
Qed.

Lemma step_ui_named_inv (m : M unit) s :
  (∀ st, final_state (result_of (m st)) = st ∧
         Forall login_named (writes (events_of (m st)))) →
  named_inv s →
  named_inv
    (main.finish s (m (main.sys_state s))
       (λ _ st log, main.MkSystem st log (main.main_rest s) (main.main_out s)
                      (main.listening s) (main.msg_send_wired s)
                      (main.online_box_wired s) false)
       (λ st log, main.MkSystem st log (main.main_rest s) (main.main_out s)
                    (main.listening s) (main.msg_send_wired s)
                    (main.online_box_wired s) false)).
Proof.
  intros Hm [k Hinv]. pose proof Hinv as (Hrest & Hlis & Hnick & Hlog).
  destruct (Hm (main.sys_state s)) as [Hst Hwr].
  unfold main.finish.
  destruct (m (main.sys_state s)) as [evs res].
  unfold events_of, result_of in *. cbn [fst snd] in *.
  assert (Hw1 : Forall login_named (writes (main.sys_log s ++ evs))).
  { rewrite writes_app. apply Forall_app. by split. }
  destruct res as [[] st'|why st'|pmsg st']; cbn [final_state] in *; subst st'.
  - by exists k.
  - destruct why; by exists k.
  - by exists k.
Qed.

Lemma step_named_inv a s : named_inv s → named_inv (main.step a s).
Proof.
  destruct a as [|r|msg|].
  - apply step_main_named_inv.
  - apply step_listen_named_inv.
  - intros Hinv. unfold main.step.
    destruct (main.exited s) eqn:Hex; [done|].
    destruct (main.msg_send_wired s) eqn:Hw; [|done]. simpl.
    pose proof (step_ui_named_inv (chat.PostMessage msg) s
                  (PostMessage_no_login msg) Hinv) as Hstep.
    by rewrite Hw in Hstep.
  - intros Hinv. unfold main.step.
    destruct (main.exited s) eqn:Hex; [done|].
    destruct (main.online_box_wired s) eqn:Hw; [|done]. simpl.
    pose proof (step_ui_named_inv chat.RequestOnlineUsers s
                  RequestOnlineUsers_no_login Hinv) as Hstep.
    by rewrite Hw in Hstep.
Qed.

Lemma run_named_inv sched s : named_inv s → named_inv (main.run sched s).
Proof.
  revert s. induction sched as [|a sched IH]; intros s Hinv; [done|].
  simpl. apply IH. by apply step_named_inv.
Qed.

End nick_run.

(** X21.  In every run of the program, whatever the configuration, the dial
    outcomes, the input and the order of the steps, every login request
    written to the connection has type 1 and carries a nickname that is not
    empty: the nickname of the configuration when there is one, and
    otherwise or after a name-taken response one that [AskNickname] took. *)
Theorem every_login_request_carries_a_nickname `{Libraries}
    (c : Config) (dials : list DialResult) (lines : list (string * option error))
    (sched : list main.action) (conn : WsConn) (r : loginReq) (e : option error) :
  EvWriteJSON conn (ReqLogin r) e
    ∈ main.sys_log (main.run sched (main.start c dials lines)) →
  loginReq_Type r = typeLoginReq ∧ loginReq_Nickname r ≠ "".
Proof.
  intros Hin.
  destruct (run_named_inv sched (main.start c dials lines)) as (k & _ & _ & _ & Hlog).
  { exists 0. apply start_named_inv. }
  assert (Hw : ReqLogin r ∈ writes (main.sys_log (main.run sched (main.start c dials lines)))).
  { unfold writes. apply list_elem_of_omap. by eexists. }
  by apply (proj1 (Forall_forall _ _) Hlog) in Hw.
Qed.

Lemma every_login_request_carries_a_nickname_witness :
  let c := {| ServerAddress := "localhost:8080"; TLSMode := Some false; Nickname := "" |} in
  let s := main.run (H:=wire_libraries) (replicate 9 main.RunMain)
             (main.start (H:=wire_libraries) c [DialOk open_conn]
                [("", None); (" al ", None)]) in
  main.sys_log s !! 7
  = Some (EvWriteJSON open_conn
            (ReqLogin {| loginReq_Type := typeLoginReq; loginReq_Nickname := "al" |}) None) ∧
  "al" ≠ "".
Proof.
  intros c s. split; [vm_compute; reflexivity|].
  apply (every_login_request_carries_a_nickname (H:=wire_libraries) c [DialOk open_conn]
           [("", None); (" al ", None)] (replicate 9 main.RunMain) open_conn
           {| loginReq_Type := typeLoginReq; loginReq_Nickname := "al" |} None).
  apply (list_elem_of_lookup_2 _ 7). vm_compute. reflexivity.
Defined.
